(** * steam-stats: the client-side cache, the batch enrichment engine,
      the price loop, the session store, the rate-limited fetcher and the
      collage layout

    Shallow embedding of
      - [src/lib/cache.ts]                       (IndexedDB cache through Dexie),
      - [src/app/api/steam/app/[appid]/route.ts] (fetchWithRateLimit, GET),
      - the GameCollage component                (rectsOverlap, hasOverlap,
                                                  spiralPlacement, getBoundingBox,
                                                  generateCollage up to the layout),
      - [src/app/components/ValueAnalysis.tsx]   (fetchPrices, stats),
      - the session store useGamesStore          (fetchGames, fetchReviews).

    Conventions.
      - [Date.now()] and every duration are integers (milliseconds) in [Z].
      - An [async] function is a computation in the monad [M]: it reads and
        writes the [World] (the four Dexie tables, the clock, the trace of
        Dexie calls and the trace of network requests) and either resolves
        ([Ret]) or rejects ([Throw]).
      - The object stores are reliable finite maps: a Dexie call on them
        completes.  The [try]/[catch] blocks of the source are kept
        ([try_catch]); the handlers are reached by network and parse errors
        and by reads on ill-typed data.
      - Prices, rates and the coordinates of the collage are exact
        rationals where the source computes in doubles. *)

From Stdlib Require Import ZArith QArith Qround Qminmax List String Bool Lia.
From Stdlib Require Import DecimalString Lqa.
From Stdlib Require Import Sorted.
From stdpp Require Import gmap strings list fin_maps.

Local Open Scope Z_scope.

(** ** Data model (the entity interfaces of cache.ts) *)

(** [SteamGame] is imported from "@/app/types/steam"; the fields below are
    the ones the cache and the collage read. *)
Record SteamGame := mkSteamGame {
  appid : Z;
  name : string;
  playtime_forever : Z
}.

(** [type MBTIResult = any]: an opaque JSON payload, kept as its text. *)
Definition MBTIResult := string.

Module GamesCache.
Record t := mk { steamId : string; games : list SteamGame; timestamp : Z }.
End GamesCache.

Module PersonalityCache.
Record t := mk {
    steamId : string; result : MBTIResult; gamesHash : string; timestamp : Z }.
End PersonalityCache.

(** [interface GameDetails].  [metacritic : { score } | null] is the score or
    [None].  [price : number | null] is a rational: the batch engine stores
    the [final] of Steam (an integer of minor units), [ValueAnalysis]
    stores [final / 100].  A stored record is a plain JS object:
    [ValueAnalysis.fetchPrices] reads [cached.currency] from it, so the
    field is part of the model; [None] is a record without the property
    (which is what [setCachedGameDetails] of cache.ts writes). *)
Module GameDetails.
Record t := mk {
    appid : Z;
    genres : list string;
    price : option Q;
    developers : list string;
    metacritic : option Z;
    timestamp : Z;
    currency : option string
  }.
End GameDetails.

Record UserReview := mkUserReview {
  appId : string;
  gameName : string;
  recommended : bool;
  reviewText : string;
  hoursPlayed : string
}.

Module ReviewsCache.
Record t := mk {
    steamId : string; reviews : list UserReview; totalReviews : Z; timestamp : Z }.
End ReviewsCache.

(** Cache durations *)
Definition GAMES_CACHE_DURATION : Z := 1000 * 60 * 30.
Definition PERSONALITY_CACHE_DURATION : Z := 1000 * 60 * 60 * 24 * 7.
Definition GAME_DETAILS_CACHE_DURATION : Z := 1000 * 60 * 60 * 24 * 30.
Definition REVIEWS_CACHE_DURATION : Z := 1000 * 60 * 60 * 24.

(** ** The world: the Dexie database, the clock and the two traces *)

Inductive TableName := Tgames | Tpersonality | TgameDetails | Treviews.

Inductive Key := KStr (s : string) | KNum (n : Z).

(** One entry per call made on a Dexie table. *)
Inductive DbCall :=
| DbGet (t : TableName) (k : Key)
| DbPut (t : TableName) (k : Key)
| DbDelete (t : TableName) (k : Key)
| DbBulkGet (t : TableName) (ks : list Key)
| DbBulkPut (t : TableName) (ks : list Key).

Record World := mkWorld {
  games : gmap string GamesCache.t;
  personality : gmap string PersonalityCache.t;
  gameDetails : gmap Z GameDetails.t;
  reviews : gmap string ReviewsCache.t;
  clock : Z;                         (* what Date.now() returns *)
  db_calls : list DbCall;            (* Dexie calls, oldest first *)
  requests : list (list Z)           (* appids of each POST /api/steam/apps *)
}.

Definition log_db (c : DbCall) (w : World) : World :=
  mkWorld (games w) (personality w) (gameDetails w) (reviews w)
          (clock w) (db_calls w ++ [c]) (requests w).

Definition log_request (ids : list Z) (w : World) : World :=
  mkWorld (games w) (personality w) (gameDetails w) (reviews w)
          (clock w) (db_calls w) (requests w ++ [ids]).

Definition advance (ms : Z) (w : World) : World :=
  mkWorld (games w) (personality w) (gameDetails w) (reviews w)
          (clock w + ms) (db_calls w) (requests w).

(** ** The monad of async computations *)

(** What a rejected promise carries: the TypeError of a [fetch] that
    fails, the SyntaxError of [response.json()], the TypeError of a read
    on a value that has no such property. *)
Inductive Exn := TypeError_fetch | SyntaxError_json | TypeError_read.

Inductive Res (A : Type) := Ret (a : A) | Throw (e : Exn).
Arguments Ret {A} a.
Arguments Throw {A} e.

Definition M (A : Type) : Type := World -> Res A * World.

Definition ret {A} (a : A) : M A := fun w => (Ret a, w).

Definition throw {A} (e : Exn) : M A := fun w => (Throw e, w).

Definition bind {A B} (m : M A) (k : A -> M B) : M B :=
  fun w => match m w with
           | (Ret a, w') => k a w'
           | (Throw e, w') => (Throw e, w')
           end.

Definition try_catch {A} (body : M A) (handler : Exn -> M A) : M A :=
  fun w => match body w with
           | (Ret a, w') => (Ret a, w')
           | (Throw e, w') => handler e w'
           end.

Notation "x <- m ;; k" := (bind m (fun x => k))
  (at level 100, m at next level, right associativity).
Notation "m ;;; k" := (bind m (fun _ => k))
  (at level 100, right associativity).

Definition Date_now : M Z := fun w => (Ret (clock w), w).

(** ** Dexie tables

    A table is declared with its key path ([db.version(2).stores]): the
    primary key of a row is read from the row itself. *)

Record Table (K V : Type) `{Countable K} := mkTable {
  tname : TableName;
  rows : World -> gmap K V;
  set_rows : gmap K V -> World -> World;
  keyPath : V -> K;
  show_key : K -> Key
}.
Arguments tname {K V _ _} _.
Arguments rows {K V _ _} _ _.
Arguments set_rows {K V _ _} _ _ _.
Arguments keyPath {K V _ _} _ _.
Arguments show_key {K V _ _} _ _.

Definition db_games : Table string GamesCache.t :=
  mkTable _ _ _ _ Tgames games
    (fun m w => mkWorld m (personality w) (gameDetails w) (reviews w)
                        (clock w) (db_calls w) (requests w))
    GamesCache.steamId KStr.

Definition db_personality : Table string PersonalityCache.t :=
  mkTable _ _ _ _ Tpersonality personality
    (fun m w => mkWorld (games w) m (gameDetails w) (reviews w)
                        (clock w) (db_calls w) (requests w))
    PersonalityCache.steamId KStr.

Definition db_gameDetails : Table Z GameDetails.t :=
  mkTable _ _ _ _ TgameDetails gameDetails
    (fun m w => mkWorld (games w) (personality w) m (reviews w)
                        (clock w) (db_calls w) (requests w))
    GameDetails.appid KNum.

Definition db_reviews : Table string ReviewsCache.t :=
  mkTable _ _ _ _ Treviews reviews
    (fun m w => mkWorld (games w) (personality w) (gameDetails w) m
                        (clock w) (db_calls w) (requests w))
    ReviewsCache.steamId KStr.

Section Dexie.
Context {K V : Type} `{Countable K} (T : Table K V).

Definition get (k : K) : M (option V) :=
    fun w => (Ret (rows T w !! k), log_db (DbGet (tname T) (show_key T k)) w).

Definition put (v : V) : M unit :=
    fun w => (Ret tt,
              log_db (DbPut (tname T) (show_key T (keyPath T v)))
                     (set_rows T (<[keyPath T v := v]> (rows T w)) w)).

Definition delete (k : K) : M unit :=
    fun w => (Ret tt,
              log_db (DbDelete (tname T) (show_key T k))
                     (set_rows T (base.delete k (rows T w)) w)).

Definition bulkGet (ks : list K) : M (list (option V)) :=
    fun w => (Ret (map (fun k => rows T w !! k) ks),
              log_db (DbBulkGet (tname T) (map (show_key T) ks)) w).

Definition bulkPut (vs : list V) : M unit :=
    fun w => (Ret tt,
              log_db (DbBulkPut (tname T) (map (fun v => show_key T (keyPath T v)) vs))
                     (set_rows T
                        (fold_left (fun m v => <[keyPath T v := v]> m) vs (rows T w))
                        w)).
End Dexie.

(** ** Games cache functions *)

Definition getCachedGames (steamId : string) : M (option (list SteamGame)) :=
  try_catch
    (cached <- get db_games steamId ;;
     match cached with
     | None => ret None
     | Some cached =>
         now <- Date_now ;;
         let isExpired := GAMES_CACHE_DURATION <? now - GamesCache.timestamp cached in
         if isExpired then
           delete db_games steamId ;;; ret None
         else ret (Some (GamesCache.games cached))
     end)
    (fun _ => ret None).

Definition setCachedGames (steamId : string) (games : list SteamGame) : M unit :=
  try_catch
    (now <- Date_now ;;
     put db_games (GamesCache.mk steamId games now))
    (fun _ => ret tt).

(** ** Personality cache functions *)

(** [`${g.name}:${g.hours}`]: [hours] is a JS number; its rendering by the
    template literal is [Number.prototype.toString], a parameter here. *)
Section GamesHash.
Context {Num : Type} (numberToString : Num -> string).

Definition gameEntry (g : string * Num) : string :=
  (fst g ++ ":" ++ numberToString (snd g))%string.

(** [Array.prototype.slice(0, n)] for [0 <= n] *)
Definition slice0 {A} (n : nat) (l : list A) : list A := firstn n l.

(** [Array.prototype.join(sep)] on an array of strings *)
Fixpoint join (sep : string) (l : list string) : string :=
  match l with
  | [] => EmptyString
  | [x] => x
  | x :: rest => (x ++ sep ++ join sep rest)%string
  end.

Definition generateGamesHash (games : list (string * Num)) : string :=
  join "|" (map gameEntry (slice0 10 games)).
End GamesHash.

Definition getCachedPersonality (steamId : string) (currentGamesHash : string)
  : M (option MBTIResult) :=
  try_catch
    (cached <- get db_personality steamId ;;
     match cached with
     | None => ret None
     | Some cached =>
         now <- Date_now ;;
         let isExpired :=
           PERSONALITY_CACHE_DURATION <? now - PersonalityCache.timestamp cached in
         if isExpired then
           delete db_personality steamId ;;; ret None
         else if negb (String.eqb (PersonalityCache.gamesHash cached) currentGamesHash)
         then
           delete db_personality steamId ;;; ret None
         else ret (Some (PersonalityCache.result cached))
     end)
    (fun _ => ret None).

Definition setCachedPersonality {Num : Type} (numberToString : Num -> string)
    (steamId : string) (result : MBTIResult) (topGames : list (string * Num))
  : M unit :=
  try_catch
    (now <- Date_now ;;
     put db_personality
       (PersonalityCache.mk steamId result
          (generateGamesHash numberToString topGames) now))
    (fun _ => ret tt).

(** ** Game details cache functions *)

Definition getCachedGameDetails (appid : Z) : M (option GameDetails.t) :=
  try_catch
    (cached <- get db_gameDetails appid ;;
     match cached with
     | None => ret None
     | Some cached =>
         now <- Date_now ;;
         let isExpired :=
           GAME_DETAILS_CACHE_DURATION <? now - GameDetails.timestamp cached in
         if isExpired then
           delete db_gameDetails appid ;;; ret None
         else ret (Some cached)
     end)
    (fun _ => ret None).

(** The object literal of [setCachedGameDetails] has no [currency] property
    (a sixth argument passed by a caller is dropped). *)
Definition setCachedGameDetails (appid : Z) (genres : list string)
    (price : option Q) (developers : list string) (metacritic : option Z)
  : M unit :=
  try_catch
    (now <- Date_now ;;
     put db_gameDetails
       (GameDetails.mk appid genres price developers metacritic now None))
    (fun _ => ret tt).

(** The callback of [cached.forEach] in [getCachedGameDetailsMany] *)
Definition keepFresh (now : Z) (result : gmap Z GameDetails.t)
    (item : option GameDetails.t) : gmap Z GameDetails.t :=
  match item with
  | Some item =>
      if now - GameDetails.timestamp item <? GAME_DETAILS_CACHE_DURATION
      then <[GameDetails.appid item := item]> result
      else result
  | None => result
  end.

(** [result] is filled inside the [try]; the calls that come before
    [forEach] are the only ones that can reject, so the handler returns the
    map as it was created. *)
Definition getCachedGameDetailsMany (appids : list Z) : M (gmap Z GameDetails.t) :=
  try_catch
    (now <- Date_now ;;
     cached <- bulkGet db_gameDetails appids ;;
     ret (fold_left (keepFresh now) cached ∅))
    (fun _ => ret ∅).

(** ** Reviews cache functions *)

Definition getCachedReviews (steamId : string)
  : M (option (list UserReview * Z)) :=
  try_catch
    (cached <- get db_reviews steamId ;;
     match cached with
     | None => ret None
     | Some cached =>
         now <- Date_now ;;
         let isExpired :=
           REVIEWS_CACHE_DURATION <? now - ReviewsCache.timestamp cached in
         if isExpired then
           delete db_reviews steamId ;;; ret None
         else ret (Some (ReviewsCache.reviews cached, ReviewsCache.totalReviews cached))
     end)
    (fun _ => ret None).

Definition setCachedReviews (steamId : string) (reviews : list UserReview)
    (totalReviews : Z) : M unit :=
  try_catch
    (now <- Date_now ;;
     put db_reviews (ReviewsCache.mk steamId reviews totalReviews now))
    (fun _ => ret tt).

(** ** Batch fetch and cache game details *)

(** One value of [data.results]: the properties that
    [fetchAndCacheGameDetails] reads ([genres] as the list of the
    [description]s, [price_overview] as its [final], [metacritic] as its
    score); [None] is a missing property. *)
Module RemoteGame.
Record t := mk {
  genres : option (list string);
  price_overview : option Z;
  developers : option (list string);
  metacritic : option Z
}.
End RemoteGame.

(** [Object.entries(data.results)] with the key already through [parseInt]
    (the keys are the decimal appids of the request); a value that is not
    truthy ([null], [false]) is [None]. *)
Definition Results := list (Z * option RemoteGame.t).

(** What [response.json()] yields: a rejection on an unparseable body. *)
Inductive Body := Malformed | Json (results : Results).

Record Response := mkResponse { status : Z; body : Body }.

(** What the network does with one request. *)
Inductive FetchOutcome := Rejected | Responded (r : Response).

Record Reply := mkReply { elapsed : Z; outcome : FetchOutcome }.

(** The batch endpoint /api/steam/apps as seen from the client. *)
Definition Remote := list Z -> Reply.

Definition ok (r : Response) : bool := (200 <=? status r) && (status r <=? 299).

(** [fetch("/api/steam/apps", { method: "POST", body: { appids } })] *)
Definition fetch_apps (remote : Remote) (appids : list Z) : M Response :=
  fun w =>
    let w' := advance (elapsed (remote appids)) (log_request appids w) in
    match outcome (remote appids) with
    | Rejected => (Throw TypeError_fetch, w')
    | Responded r => (Ret r, w')
    end.

Definition json (r : Response) : M Results :=
  match body r with
  | Malformed => throw SyntaxError_json
  | Json results => ret results
  end.

(** [a || b] on a number: 0 is falsy. *)
Definition truthy_num (n : option Z) : option Z :=
  match n with
  | Some 0 => None
  | other => other
  end.

Definition detailsOf (now : Z) (appid : Z) (game : RemoteGame.t) : GameDetails.t :=
  GameDetails.mk appid
    (default [] (RemoteGame.genres game))
    (option_map inject_Z (truthy_num (RemoteGame.price_overview game)))
    (default [] (RemoteGame.developers game))
    (RemoteGame.metacritic game)
    now
    None.

(** The body of the [for ... of Object.entries(data.results)] loop: the
    state is [toCache] and the (mutated) map [cached]. *)
Definition collect (now : Z) (st : list GameDetails.t * gmap Z GameDetails.t)
    (entry : Z * option RemoteGame.t) : list GameDetails.t * gmap Z GameDetails.t :=
  match snd entry with
  | Some game =>
      let details := detailsOf now (fst entry) game in
      (fst st ++ [details], <[fst entry := details]> (snd st))
  | None => st
  end.

(** [!cached.has(id)] *)
Definition has (cached : gmap Z GameDetails.t) (id : Z) : bool :=
  bool_decide (is_Some (cached !! id)).

(** On a reply of this type (every entry well typed) the calls of the
    [try] block that can reject ([fetch], [response.json]) come before the
    first [cached.set], so the handler returns [cached] as
    [getCachedGameDetailsMany] built it.  The replies on which the loop
    itself throws are those of [Raw] below. *)
Definition fetchAndCacheGameDetails (remote : Remote) (appids : list Z)
  : M (gmap Z GameDetails.t) :=
  cached <- getCachedGameDetailsMany appids ;;
  let uncachedAppids := List.filter (fun id => negb (has cached id)) appids in
  if (Z.of_nat (length uncachedAppids) =? 0) then ret cached
  else
    try_catch
      (response <- fetch_apps remote uncachedAppids ;;
       if negb (ok response) then ret cached
       else
         data <- json response ;;
         now <- Date_now ;;
         let st := fold_left (collect now) data ([], cached) in
         (if 0 <? Z.of_nat (length (fst st))
          then bulkPut db_gameDetails (fst st)
          else ret tt) ;;;
         ret (snd st))
      (fun _ => ret cached).

(** ** The cache gate of ValueAnalysis.fetchPrices

    [cached && cached.price !== undefined && cached.price !== null &&
     cached.currency]: the cached price is used when this holds, otherwise
    the price is fetched from /api/steam/app/[appid]. *)
Definition truthy_string (s : option string) : bool :=
  match s with
  | Some s => negb (String.eqb s EmptyString)
  | None => false
  end.

Definition usesCachedPrice (cached : option GameDetails.t) : bool :=
  match cached with
  | Some cached =>
      match GameDetails.price cached with
      | Some _ => truthy_string (GameDetails.currency cached)
      | None => false
      end
  | None => false
  end.

(** ** The rate-limited fetcher of the per-app route (server side) *)

Module Route.

(** The response of the Steam store as [fetchWithRateLimit] sees it. *)
Record SteamResponse := mkSteamResponse { status : Z; text : string }.

Inductive Upstream := Unreachable | Answers (r : SteamResponse).

(** The n-th call of [fetch] takes [latency] ms and ends as [result]. *)
Record Reply := mkReply { latency : Z; result : Upstream }.

Record Server := mkServer {
  lastRequestTime : Z;       (* the module-level variable *)
  now : Z;                   (* Date.now() *)
  timeouts : list Z;         (* delays of the awaited setTimeout calls *)
  fetched : nat              (* number of fetch calls issued so far *)
}.

Inductive Error := FetchFailed | MaxRetriesExceeded.

Inductive Outcome := Returned (r : SteamResponse) | Thrown (e : Error).

Definition MIN_REQUEST_INTERVAL : Z := 500.
Definition maxRetries : Z := 2.

Definition ok (r : SteamResponse) : bool := (200 <=? status r) && (status r <=? 299).

(** [await new Promise((resolve) => setTimeout(resolve, ms))] *)
Definition sleep (ms : Z) (s : Server) : Server :=
  mkServer (lastRequestTime s) (now s + ms) (timeouts s ++ [ms]) (fetched s).

Definition fetch (upstream : nat -> Reply) (s : Server) : Upstream * Server :=
  let r := upstream (fetched s) in
  (result r,
   mkServer (lastRequestTime s) (now s + latency r) (timeouts s) (S (fetched s))).

(** The values [attempt] takes in
    [for (let attempt = 0; attempt <= maxRetries; attempt++)] *)
Definition attempts : list Z :=
  map Z.of_nat (seq 0 (Z.to_nat (maxRetries + 1))).

(** The [for] loop, one iteration per element of [attempts]; leaving the
    loop by its condition reaches the trailing [throw]. *)
Fixpoint retry_loop (upstream : nat -> Reply) (todo : list Z) (delay : Z)
    (s : Server) : Outcome * Server :=
  match todo with
  | [] => (Thrown MaxRetriesExceeded, s)
  | attempt :: rest =>
      match fetch upstream s with
      | (Unreachable, s1) => (Thrown FetchFailed, s1)
      | (Answers response, s1) =>
          if ok response then (Returned response, s1)
          else if ((status response =? 403) || (status response =? 429))
                  && (attempt <? maxRetries)
          then retry_loop upstream rest (delay * 2) (sleep delay s1)
          else (Returned response, s1)
      end
  end.

Definition fetchWithRateLimit (upstream : nat -> Reply) (s : Server)
  : Outcome * Server :=
  let timeSinceLastRequest := now s - lastRequestTime s in
  let s1 := if timeSinceLastRequest <? MIN_REQUEST_INTERVAL
            then sleep (MIN_REQUEST_INTERVAL - timeSinceLastRequest) s
            else s in
  let s2 := mkServer (now s1) (now s1) (timeouts s1) (fetched s1) in
  retry_loop upstream attempts 2000 s2.

(** A throttling response: not a success, status 403 or 429. *)
Definition throttled (r : SteamResponse) : bool :=
  negb (ok r) && ((status r =? 403) || (status r =? 429)).

(** The delay awaited before the first request to keep
    [MIN_REQUEST_INTERVAL] between requests (none when enough time passed). *)
Definition rateLimitWait (s : Server) : list Z :=
  if now s - lastRequestTime s <? MIN_REQUEST_INTERVAL
  then [MIN_REQUEST_INTERVAL - (now s - lastRequestTime s)]
  else [].

(** The delays awaited before [n] successive retries, starting at [delay]. *)
Fixpoint backoff (delay : Z) (n : nat) : list Z :=
  match n with
  | O => []
  | S n => delay :: backoff (delay * 2) n
  end.

(** A list of attempt numbers as the [for] loop produces them: every value
    but the last is below [maxRetries], the last is not. *)
Fixpoint counted (todo : list Z) : Prop :=
  match todo with
  | [] => False
  | [attempt] => (attempt <? maxRetries) = false
  | attempt :: rest => (attempt <? maxRetries) = true /\ counted rest
  end.

(** Scripts of upstream behaviour for the examples: the statuses of the
    successive replies, 200 once the list is used up. *)
Definition replying (statuses : list Z) : nat -> Reply :=
  fun n => mkReply 50 (Answers (mkSteamResponse (nth n statuses 200) EmptyString)).

Definition idle : Server := mkServer 0 100000 [] 0.

(** A server whose last request was sent 100 ms ago. *)
Definition busy : Server := mkServer 99900 100000 [] 0.

End Route.

(** ** The collage layout (GameCollage)

    Coordinates and sizes are exact rationals.  [Math.PI], [Math.cos],
    [Math.sin] and [Math.sqrt] are parameters of the section. *)

Module Collage.

Local Open Scope Q_scope.

(** The structural type [{ x; y; w; h }] of [rectsOverlap] and [hasOverlap] *)
Record Rect := mkRect { x : Q; y : Q; w : Q; h : Q }.

(** The elements of the [boxes] argument of [spiralPlacement] *)
Record Box := mkBox { game : SteamGame; bw : Q; bh : Q }.

Module GameBox.
Record t := mk { game : SteamGame; w : Q; h : Q; x : Q; y : Q }.
End GameBox.

(** A [GameBox] used where a [{ x; y; w; h }] is expected *)
Definition rectOf (b : GameBox.t) : Rect :=
  mkRect (GameBox.x b) (GameBox.y b) (GameBox.w b) (GameBox.h b).

Definition Qlt_bool (a b : Q) : bool := negb (Qle_bool b a).

(** Check if two rectangles overlap *)
Definition rectsOverlap (r1 r2 : Rect) : bool :=
  negb (Qle_bool (x r1 + w r1) (x r2)
        || Qle_bool (x r2 + w r2) (x r1)
        || Qle_bool (y r1 + h r1) (y r2)
        || Qle_bool (y r2 + h r2) (y r1)).

(** Check if a box overlaps with any placed boxes *)
Fixpoint hasOverlap (box : Rect) (placedBoxes : list GameBox.t) : bool :=
  match placedBoxes with
  | [] => false
  | placed :: rest =>
      if rectsOverlap box (rectOf placed) then true else hasOverlap box rest
  end.

Section Spiral.
Variables (PI : Q) (cos sin sqrt : Q -> Q).

Definition step : Z := 8.

(** The state of the search for one box: [bestPos] ([None] is [null]) and
    [bestDist] ([None] is [Infinity]). *)
Definition Best : Type := option (Q * Q) * option Q.

(** [dist < bestDist] *)
Definition closer (dist : Q) (bestDist : option Q) : bool :=
  match bestDist with
  | None => true
  | Some d => Qlt_bool dist d
  end.

(** The body of [for (let i = 0; i < numPoints; i++)] *)
Definition tryPoint (box : Box) (placed : list GameBox.t)
    (canvasWidth canvasHeight centerX centerY : Q) (radius numPoints : Z)
    (best : Best) (i : Z) : Best :=
  let angle := (2 * PI * inject_Z i) / inject_Z numPoints in
  let x := centerX + cos angle * inject_Z radius - bw box / 2 in
  let y := centerY + sin angle * inject_Z radius - bh box / 2 in
  if Qlt_bool x 0 || Qlt_bool y 0
     || Qlt_bool canvasWidth (x + bw box) || Qlt_bool canvasHeight (y + bh box)
  then best
  else if negb (hasOverlap (mkRect x y (bw box) (bh box)) placed) then
    let dist := sqrt ((x + bw box / 2 - centerX) ^ 2 + (y + bh box / 2 - centerY) ^ 2) in
    if closer dist (snd best) then (Some (x, y), Some dist) else best
  else best.

(** [0, 1, ..., n - 1] *)
Definition upto (n : Z) : list Z := map Z.of_nat (seq 0 (Z.to_nat n)).

(** One turn of the [radius] loop: all the points of the circle *)
Definition tryCircle (box : Box) (placed : list GameBox.t)
    (canvasWidth canvasHeight centerX centerY : Q) (radius : Z) (best : Best) : Best :=
  let circumference := 2 * PI * inject_Z radius in
  let numPoints := Z.max 8 (Qfloor (circumference / inject_Z step)) in
  fold_left (tryPoint box placed canvasWidth canvasHeight centerX centerY radius numPoints)
            (upto numPoints) best.

(** The values [radius] takes in
    [for (let radius = step; radius < maxRadius; radius += step)]:
    [step * k] for [k = 1, 2, ...] as long as [step * k < maxRadius]. *)
Definition radii (maxRadius : Q) : list Z :=
  map (fun k => step * (Z.of_nat k))%Z
      (seq 1 (Z.to_nat (Qceiling (maxRadius / inject_Z step) - 1))).

(** The [radius] loop over the radii still to try; it is left as soon as
    [bestPos] is set ([&& !bestPos] and the [break]). *)
Fixpoint radiusLoop (box : Box) (placed : list GameBox.t)
    (canvasWidth canvasHeight centerX centerY : Q) (todo : list Z) (best : Best)
  : Best :=
  match todo with
  | [] => best
  | radius :: rest =>
      match fst best with
      | Some _ => best
      | None =>
          radiusLoop box placed canvasWidth canvasHeight centerX centerY rest
            (tryCircle box placed canvasWidth canvasHeight centerX centerY radius best)
      end
  end.

(** The body of [for (const box of boxes)] *)
Definition placeBox (canvasWidth canvasHeight : Q) (placed : list GameBox.t)
    (box : Box) : list GameBox.t :=
  let centerX := canvasWidth / 2 in
  let centerY := canvasHeight / 2 in
  let startX := centerX - bw box / 2 in
  let startY := centerY - bh box / 2 in
  let best : Best :=
    if negb (hasOverlap (mkRect startX startY (bw box) (bh box)) placed)
    then (Some (startX, startY), Some 0)
    else
      let maxRadius := Qmax canvasWidth canvasHeight in
      radiusLoop box placed canvasWidth canvasHeight centerX centerY
                 (radii maxRadius) (None, None) in
  match fst best with
  | Some bestPos =>
      placed ++ [GameBox.mk (game box) (bw box) (bh box) (fst bestPos) (snd bestPos)]
  | None => placed
  end.

(** Place boxes in spiral pattern from center outward *)
Definition spiralPlacement (boxes : list Box) (canvasWidth canvasHeight : Q)
  : list GameBox.t :=
  fold_left (placeBox canvasWidth canvasHeight) boxes [].

(** [Math.min(acc, v)] with [acc] starting at [Infinity], and
    [Math.max(acc, v)] with [acc] starting at [-Infinity]: [None] is the
    infinite start value. *)
Definition min_from (acc : option Q) (v : Q) : option Q :=
  match acc with
  | None => Some v
  | Some a => Some (Qmin a v)
  end.

Definition max_from (acc : option Q) (v : Q) : option Q :=
  match acc with
  | None => Some v
  | Some a => Some (Qmax a v)
  end.

Record Bounds := mkBounds {
  minX : option Q; minY : option Q; maxX : option Q; maxY : option Q }.

(** Calculate bounding box of all placed items *)
Definition getBoundingBox (boxes : list GameBox.t) : Bounds :=
  fold_left
    (fun b box =>
       mkBounds (min_from (minX b) (GameBox.x box))
                (min_from (minY b) (GameBox.y box))
                (max_from (maxX b) (GameBox.x box + GameBox.w box))
                (max_from (maxY b) (GameBox.y box + GameBox.h box)))
    boxes (mkBounds None None None None).

Record Layout := mkLayout {
  logicalWidth : Q; logicalHeight : Q; placedBoxes : list GameBox.t }.

(** The layout part of [generateCollage], from [boxes] to the normalized
    positions and the logical canvas size.  [None] is the early return on
    [placed.length === 0]; the bounds of a non-empty list are finite. *)
Definition collageLayout (userName : option string) (boxes : list Box)
  : option Layout :=
  let workingSize := 4000 in
  let placed := spiralPlacement boxes workingSize workingSize in
  if (Z.of_nat (length placed) =? 0)%Z then None
  else
    let bounds := getBoundingBox placed in
    let padding := 40 in
    let headerHeight := if truthy_string userName then 80 else 0 in
    match minX bounds, minY bounds, maxX bounds, maxY bounds with
    | Some minX, Some minY, Some maxX, Some maxY =>
        Some (mkLayout
                (maxX - minX + padding * 2)
                (maxY - minY + padding * 2 + headerHeight)
                (map (fun box =>
                        GameBox.mk (GameBox.game box) (GameBox.w box) (GameBox.h box)
                                   (GameBox.x box - minX + padding)
                                   (GameBox.y box - minY + padding + headerHeight))
                     placed))
    | _, _, _, _ => None
    end.

End Spiral.

(** No two rectangles of the list overlap (the test of [rectsOverlap]). *)
Definition NoOverlap (placed : list GameBox.t) : Prop :=
  forall (i j : nat) (b1 b2 : GameBox.t),
    i <> j -> placed !! i = Some b1 -> placed !! j = Some b2 ->
    rectsOverlap (rectOf b1) (rectOf b2) = false.

(** The position held in a search state does not overlap a placed box. *)
Definition Clear (box : Box) (placed : list GameBox.t) (best : Best) : Prop :=
  forall pos, fst best = Some pos ->
              hasOverlap (mkRect (fst pos) (snd pos) (bw box) (bh box)) placed = false.

(** [acc] is a finite lower (upper) bound of [v]. *)
Definition below (acc : option Q) (v : Q) : Prop :=
  match acc with Some m => m <= v | None => False end.

Definition above (acc : option Q) (v : Q) : Prop :=
  match acc with Some m => v <= m | None => False end.

(** The bounds enclose every box of the list. *)
Definition Encloses (b : Bounds) (boxes : list GameBox.t) : Prop :=
  forall box, In box boxes ->
    below (minX b) (GameBox.x box) /\ below (minY b) (GameBox.y box) /\
    above (maxX b) (GameBox.x box + GameBox.w box) /\
    above (maxY b) (GameBox.y box + GameBox.h box).

(** The box lies within a canvas of the given size. *)
Definition within (width height : Q) (b : GameBox.t) : Prop :=
  0 <= GameBox.x b /\ 0 <= GameBox.y b /\
  GameBox.x b + GameBox.w b <= width /\ GameBox.y b + GameBox.h b <= height.

(** Rational stand-ins for the examples: the theorems hold for any [cos],
    [sin], [sqrt] and [PI]. *)
Definition PI_ : Q := 355 # 113.
Definition cos_ (a : Q) : Q := if Qle_bool a (PI_ / 2) then 1 else if Qle_bool a PI_ then 0 else -1.
Definition sin_ (a : Q) : Q := if Qle_bool a (PI_ / 2) then 0 else if Qle_bool a PI_ then 1 else 0.
Definition sqrt_ (a : Q) : Q := a.

Definition threeBoxes : list Box :=
  [mkBox (mkSteamGame 570 "Dota 2" 60000) 107 50;
   mkBox (mkSteamGame 620 "Portal 2" 6000) 64 30;
   mkBox (mkSteamGame 400 "Portal" 600) 43 20].

(** The layout computed for [threeBoxes] with a user name. *)
Definition exampleLayout : Layout :=
  Eval vm_compute in
    default (mkLayout 0 0 [])
            (collageLayout PI_ cos_ sin_ sqrt_ (Some "me"%string) threeBoxes).

End Collage.

(** ** Derived notions used in the statements *)

(** The cache-hit map and the cache-miss list that [fetchAndCacheGameDetails]
    computes in a world ([cached] and [uncachedAppids]). *)
Definition cacheHits (appids : list Z) (w : World) : gmap Z GameDetails.t :=
  fold_left (keepFresh (clock w)) (map (fun k => gameDetails w !! k) appids) ∅.

Definition cacheMisses (appids : list Z) (w : World) : list Z :=
  List.filter (fun id => negb (has (cacheHits appids w) id)) appids.

(** The ids a reply resolves: the keys of [data.results] with truthy data in
    a successful, parseable response. *)
Definition resolvedIds (r : Reply) : list Z :=
  match outcome r with
  | Responded resp =>
      if ok resp then
        match body resp with
        | Json results =>
            map fst (List.filter (fun e => bool_decide (is_Some (snd e))) results)
        | Malformed => []
        end
      else []
  | Rejected => []
  end.

(** The request fails: transport error, non-success status, or a body that
    does not parse. *)
Definition requestFails (r : Reply) : bool :=
  match outcome r with
  | Rejected => true
  | Responded resp =>
      negb (ok resp) || match body resp with Malformed => true | Json _ => false end
  end.

(** A row the batch read keeps: [now - item.timestamp < GAME_DETAILS_CACHE_DURATION] *)
Definition fresh (now : Z) (v : GameDetails.t) : Prop :=
  now - GameDetails.timestamp v < GAME_DETAILS_CACHE_DURATION.

(** The key-path invariant of the gameDetails store: a row sits under the
    key read from its [appid]. *)
Definition keyed (w : World) : Prop :=
  forall k v, gameDetails w !! k = Some v -> GameDetails.appid v = k.

(** The records the loop over [data.results] builds, in order, and the
    effect of writing a list of records into a map keyed by [appid]. *)
Definition freshDetails (now : Z) (results : Results) : list GameDetails.t :=
  flat_map (fun e => match snd e with
                     | Some game => [detailsOf now (fst e) game]
                     | None => []
                     end) results.

Definition putAll (vs : list GameDetails.t) (m : gmap Z GameDetails.t)
  : gmap Z GameDetails.t :=
  fold_left (fun m v => <[GameDetails.appid v := v]> m) vs m.

(** ** Concrete worlds and remotes used in the examples *)

Definition emptyWorld (now : Z) : World := mkWorld ∅ ∅ ∅ ∅ now [] [].

(** A record in the shape of the earlier schema: a price, no currency. *)
Definition legacyRecord : GameDetails.t :=
  GameDetails.mk 42 ["RPG"%string] (Some 999%Q) ["X"%string] None 1000 None.

Definition legacyWorld : World :=
  mkWorld ∅ ∅ {[ 42 := legacyRecord ]} ∅ 5000 [] [].

(** A record far older than 30 days at time [3000000000]. *)
Definition staleRecord : GameDetails.t :=
  GameDetails.mk 7 [] None [] None 0 None.

Definition staleWorld : World :=
  mkWorld ∅ ∅ {[ 7 := staleRecord ]} ∅ 3000000000 [] [].

Definition someGame : RemoteGame.t :=
  RemoteGame.mk (Some ["Action"%string]) (Some 1999) (Some ["Dev"%string]) (Some 88).

(** A remote that resolves 1 and 3 and marks 2 unsuccessful. *)
Definition remote13 : Remote :=
  fun _ => mkReply 120
    (Responded (mkResponse 200
       (Json [(1, Some someGame); (2, None); (3, Some someGame)]))).

(** A remote that answers every batch with an empty result object. *)
Definition remoteNone : Remote :=
  fun _ => mkReply 120 (Responded (mkResponse 200 (Json []))).

(** A remote that resolves every id it is asked for. *)
Definition remoteAll : Remote :=
  fun ids => mkReply 120
    (Responded (mkResponse 200 (Json (map (fun id => (id, Some someGame)) ids)))).

Definition remoteDown : Remote := fun _ => mkReply 30000 Rejected.

Definition remote500 : Remote :=
  fun _ => mkReply 80 (Responded (mkResponse 500 Malformed)).

Definition storedAnalysis : PersonalityCache.t :=
  PersonalityCache.mk "76561198000000000" "{INTJ}" "Dota 2:1200|Portal:10" 1000.

Definition analysisWorld : World :=
  mkWorld ∅ {[ "76561198000000000"%string := storedAnalysis ]} ∅ ∅ 5000 [] [].

(** A world with a record far past its TTL in each of the four tables. *)
Definition expiredWorld : World :=
  mkWorld {[ "u1"%string := GamesCache.mk "u1" [] 0 ]}
          {[ "u1"%string := PersonalityCache.mk "u1" "{INTJ}" "Portal:10" 0 ]}
          {[ 7 := staleRecord ]}
          {[ "u1"%string := ReviewsCache.mk "u1" [] 0 0 ]}
          3000000000 [] [].

(** The decimal rendering of an integer-valued JS number *)
Definition showInt (n : Z) : string := NilZero.string_of_int (Z.to_int n).

(** Eleven top games, and the same list with another eleventh entry. *)
Definition topTen : list (string * Z) :=
  [("Dota 2", 1200); ("Portal", 10); ("Hades", 95); ("Celeste", 40);
   ("Factorio", 800); ("Terraria", 300); ("Rimworld", 450); ("Noita", 60);
   ("Inside", 4); ("Braid", 7)]%string.

Definition topGamesA : list (string * Z) := topTen ++ [("Limbo"%string, 3)].
Definition topGamesB : list (string * Z) := topTen ++ [("Fez"%string, 12)].

(** * Further functions of cache.ts *)

(** [{ cached: boolean; age: number | null }] *)
Module CacheInfo.
Record t := mk { cached : bool; age : option Z }.
End CacheInfo.

Definition getCacheInfo (steamId : string) : M CacheInfo.t :=
  try_catch
    (cached <- get db_games steamId ;;
     match cached with
     | None => ret (CacheInfo.mk false None)
     | Some cached =>
         now <- Date_now ;;
         ret (CacheInfo.mk true (Some (now - GamesCache.timestamp cached)))
     end)
    (fun _ => ret (CacheInfo.mk false None)).

Definition getPersonalityCacheInfo (steamId : string) : M CacheInfo.t :=
  try_catch
    (cached <- get db_personality steamId ;;
     match cached with
     | None => ret (CacheInfo.mk false None)
     | Some cached =>
         now <- Date_now ;;
         ret (CacheInfo.mk true (Some (now - PersonalityCache.timestamp cached)))
     end)
    (fun _ => ret (CacheInfo.mk false None)).

Definition clearPersonalityCache (steamId : string) : M unit :=
  try_catch (delete db_personality steamId) (fun _ => ret tt).

Definition getReviewsCacheInfo (steamId : string) : M CacheInfo.t :=
  try_catch
    (cached <- get db_reviews steamId ;;
     match cached with
     | None => ret (CacheInfo.mk false None)
     | Some cached =>
         now <- Date_now ;;
         ret (CacheInfo.mk true (Some (now - ReviewsCache.timestamp cached)))
     end)
    (fun _ => ret (CacheInfo.mk false None)).

Definition clearReviewsCache (steamId : string) : M unit :=
  try_catch (delete db_reviews steamId) (fun _ => ret tt).

(** A world whose only game-details row is exactly 30 days old. *)
Definition borderRecord : GameDetails.t :=
  GameDetails.mk 9 [] (Some 500%Q) [] None 0 None.

Definition borderWorld : World :=
  mkWorld ∅ ∅ {[ 9 := borderRecord ]} ∅ 2592000000 [] [].

(** * The session store (useGamesStore)

    The state of the zustand store is passed explicitly: [set] builds the
    next state, [get] reads the current one.  The library endpoint and the
    review endpoint are given by the reply they make to the one request a
    call can send. *)

Module Store.

Record GamesState := mkState {
  games : list SteamGame;
  gamesLoading : bool;
  gamesRefreshing : bool;
  gamesFromCache : bool;
  gamesCacheAge : option Z;
  reviews : list UserReview;
  totalReviews : Z;
  reviewsLoading : bool;
  reviewsRefreshing : bool;
  reviewsFromCache : bool;
  reviewsCacheAge : option Z;
  steamId : option string
}.

Definition initialState : GamesState :=
  mkState [] true false false None [] 0 true false false None None.

Definition setSteamId (id : string) (st : GamesState) : GamesState :=
  mkState (games st) (gamesLoading st) (gamesRefreshing st) (gamesFromCache st)
          (gamesCacheAge st) (reviews st) (totalReviews st) (reviewsLoading st)
          (reviewsRefreshing st) (reviewsFromCache st) (reviewsCacheAge st) (Some id).

Definition reset (st : GamesState) : GamesState := initialState.

(** [set({ games, gamesFromCache, gamesCacheAge, gamesLoading, gamesRefreshing })] *)
Definition setGames (g : list SteamGame) (fromCache : bool) (age : option Z)
    (loading refreshing : bool) (st : GamesState) : GamesState :=
  mkState g loading refreshing fromCache age
          (reviews st) (totalReviews st) (reviewsLoading st)
          (reviewsRefreshing st) (reviewsFromCache st) (reviewsCacheAge st) (steamId st).

(** [set({ gamesLoading, gamesRefreshing })] *)
Definition setGamesFlags (loading refreshing : bool) (st : GamesState) : GamesState :=
  setGames (games st) (gamesFromCache st) (gamesCacheAge st) loading refreshing st.

(** [set({ reviews, totalReviews, reviewsFromCache, reviewsCacheAge,
          reviewsLoading, reviewsRefreshing })] *)
Definition setReviews (r : list UserReview) (total : Z) (fromCache : bool)
    (age : option Z) (loading refreshing : bool) (st : GamesState) : GamesState :=
  mkState (games st) (gamesLoading st) (gamesRefreshing st) (gamesFromCache st)
          (gamesCacheAge st) r total loading refreshing fromCache age (steamId st).

Definition setReviewsFlags (loading refreshing : bool) (st : GamesState) : GamesState :=
  setReviews (reviews st) (totalReviews st) (reviewsFromCache st) (reviewsCacheAge st)
             loading refreshing st.

(** The body of /api/steam/games as [fetchGames] reads it: [res.json()]
    rejects, or yields an object whose [response?.games] is a list or is
    missing. *)
Inductive GamesBody := GamesMalformed | GamesJson (games : option (list SteamGame)).

Inductive GamesOutcome := GamesRejected | GamesResponded (status : Z) (body : GamesBody).

Record GamesReply := mkGamesReply { gamesElapsed : Z; gamesOutcome : GamesOutcome }.

(** [fetch(`/api/steam/games?steamId=${steamId}`)] followed by [res.json()];
    the status is not looked at. *)
Definition fetch_games (reply : GamesReply) : M (option (list SteamGame)) :=
  fun w =>
    let w' := advance (gamesElapsed reply) w in
    match gamesOutcome reply with
    | GamesRejected => (Throw TypeError_fetch, w')
    | GamesResponded _ GamesMalformed => (Throw SyntaxError_json, w')
    | GamesResponded _ (GamesJson games) => (Ret games, w')
    end.

(** The part of [fetchGames] after the cache: the [try] block. *)
Definition fetchGamesRemote (reply : GamesReply) (id : string) (st : GamesState)
  : M GamesState :=
  try_catch
    (data <- fetch_games reply ;;
     match data with
     | Some fetchedGames =>
         setCachedGames id fetchedGames ;;;
         ret (setGames fetchedGames false None false false st)
     | None => ret st
     end)
    (fun _ => ret (setGamesFlags false false st)).

Definition fetchGames (reply : GamesReply) (forceRefresh : bool) (st : GamesState)
  : M GamesState :=
  if negb (truthy_string (steamId st)) then ret st
  else
    let id := default EmptyString (steamId st) in
    let st1 := if forceRefresh
               then setGamesFlags (gamesLoading st) true st
               else st in
    if negb forceRefresh then
      cached <- getCachedGames id ;;
      match cached with
      | Some cached =>
          info <- getCacheInfo id ;;
          ret (setGames cached true (CacheInfo.age info) false false st1)
      | None => fetchGamesRemote reply id st1
      end
    else fetchGamesRemote reply id st1.

(** The body of /api/steam/reviews: [data.reviews] and [data.totalReviews],
    each possibly missing. *)
Inductive ReviewsBody :=
| ReviewsMalformed
| ReviewsJson (reviews : option (list UserReview)) (totalReviews : option Z).

Inductive ReviewsOutcome :=
| ReviewsRejected
| ReviewsResponded (status : Z) (body : ReviewsBody).

Record ReviewsReply := mkReviewsReply {
  reviewsElapsed : Z; reviewsOutcome : ReviewsOutcome }.

Definition status_ok (status : Z) : bool := (200 <=? status) && (status <=? 299).

(** [fetch("/api/steam/reviews")]: the status and the body of the response *)
Definition fetch_reviews (reply : ReviewsReply) : M (Z * ReviewsBody) :=
  fun w =>
    let w' := advance (reviewsElapsed reply) w in
    match reviewsOutcome reply with
    | ReviewsRejected => (Throw TypeError_fetch, w')
    | ReviewsResponded status body => (Ret (status, body), w')
    end.

Definition fetchReviewsRemote (reply : ReviewsReply) (id : string) (st : GamesState)
  : M GamesState :=
  try_catch
    (res <- fetch_reviews reply ;;
     if status_ok (fst res) then
       match snd res with
       | ReviewsMalformed => throw SyntaxError_json
       | ReviewsJson reviews totalReviews =>
           let reviewsData := default [] reviews in
           let total := default (Z.of_nat (length reviewsData)) (truthy_num totalReviews) in
           setCachedReviews id reviewsData total ;;;
           ret (setReviews reviewsData total false None false false st)
       end
     else ret st)
    (fun _ => ret (setReviewsFlags false false st)).

Definition fetchReviews (reply : ReviewsReply) (forceRefresh : bool) (st : GamesState)
  : M GamesState :=
  if negb (truthy_string (steamId st)) then ret st
  else
    let id := default EmptyString (steamId st) in
    if forceRefresh then
      clearReviewsCache id ;;;
      fetchReviewsRemote reply id (setReviewsFlags (reviewsLoading st) true st)
    else
      cached <- getCachedReviews id ;;
      match cached with
      | Some cached =>
          info <- getReviewsCacheInfo id ;;
          ret (setReviews (fst cached) (snd cached) true (CacheInfo.age info)
                          false false st)
      | None => fetchReviewsRemote reply id st
      end.

End Store.

(** * Further notions for the rate-limited fetcher *)

(** Total of the delays a server has awaited. *)
Definition slept (s : Route.Server) : Z := fold_right Z.add 0 (Route.timeouts s).

(** * Further notions for the collage layout *)

Module CollageMore.

(** A placed box without its position: the box it was made from. *)
Definition boxOf (b : Collage.GameBox.t) : Collage.Box :=
  Collage.mkBox (Collage.GameBox.game b) (Collage.GameBox.w b) (Collage.GameBox.h b).

(** The box centred on the midpoint of the canvas (the first try of
    [spiralPlacement]). *)
Definition centred (canvasWidth canvasHeight : Q) (box : Collage.Box)
  : Collage.GameBox.t :=
  Collage.GameBox.mk (Collage.game box) (Collage.bw box) (Collage.bh box)
                     (canvasWidth / 2 - Collage.bw box / 2)
                     (canvasHeight / 2 - Collage.bh box / 2).

(** The position held in a search state passed the bounds check of the
    spiral search. *)
Definition Inside (canvasWidth canvasHeight : Q) (box : Collage.Box)
    (best : Collage.Best) : Prop :=
  forall pos, fst best = Some pos ->
    (0 <= fst pos /\ 0 <= snd pos /\
     fst pos + Collage.bw box <= canvasWidth /\
     snd pos + Collage.bh box <= canvasHeight)%Q.

End CollageMore.

(** * Concrete store states and replies used in the examples *)

Definition halfLife : SteamGame := mkSteamGame 220 "Half-Life 2" 900.

Definition loggedIn : Store.GamesState := Store.setSteamId "u1" Store.initialState.

(** The games of user u1 cached 10 minutes before time 600000, and the
    reviews cached at the same time. *)
Definition warmWorld : World :=
  mkWorld {[ "u1"%string := GamesCache.mk "u1" [halfLife] 0 ]}
          ∅ ∅
          {[ "u1"%string := ReviewsCache.mk "u1" [] 0 0 ]}
          600000 [] [].

Definition gamesDown : Store.GamesReply := Store.mkGamesReply 3000 Store.GamesRejected.

Definition gamesEmptyAnswer : Store.GamesReply :=
  Store.mkGamesReply 200 (Store.GamesResponded 500 (Store.GamesJson None)).

Definition reviewsDown : Store.ReviewsReply :=
  Store.mkReviewsReply 3000 Store.ReviewsRejected.

(** The value of a resolved computation. *)
Definition fst_ret {A} (r : Res A) : option A :=
  match r with
  | Ret a => Some a
  | Throw _ => None
  end.

(** * Sorting and slicing of arrays

    [Array.prototype.sort(compareFn)] is stable; with a consistent
    comparator (here always a difference of numeric keys) its result is the
    one of the stable insertion below: [a] goes before the first [b] with
    [compareFn(a, b) <= 0]. *)

Fixpoint insertSorted {A} (compareFn : A -> A -> Q) (a : A) (sorted : list A) : list A :=
  match sorted with
  | [] => [a]
  | b :: rest =>
      if Qle_bool (compareFn a b) 0 then a :: b :: rest
      else b :: insertSorted compareFn a rest
  end.

Definition sort {A} (compareFn : A -> A -> Q) (l : list A) : list A :=
  fold_right (insertSorted compareFn) [] l.

(** [Array.prototype.slice(0, end)] for an integer [end]: a negative [end]
    counts from the end of the array. *)
Definition slice_to {A} (n : Z) (l : list A) : list A :=
  if 0 <=? n then firstn (Z.to_nat n) l
  else firstn (length l - Z.to_nat (- n)) l.

(** * The boxes of the collage (generateCollage, before the placement) *)

Module CollageInput.

Definition HEADER_ASPECT_RATIO : Q := 460 / 215.

(** [Math.round]: the nearest integer, halves upwards. *)
Definition Math_round (q : Q) : Z := Qfloor (q + (1 # 2)).

Definition minHeight : Q := 50.
Definition maxHeight : Q := 250.

(** [compareFn] of [.sort((a, b) => b.playtime_forever - a.playtime_forever)] *)
Definition byPlaytimeDesc (a b : SteamGame) : Q :=
  inject_Z (playtime_forever b - playtime_forever a).

(** Filter games with playtime and sort by playtime (most played first) *)
Definition playedGames (games : list SteamGame) (maxGames : Z) : list SteamGame :=
  slice_to maxGames
    (sort byPlaytimeDesc (List.filter (fun g => 0 <? playtime_forever g) games)).

Section Boxes.
Variable sqrt : Q -> Q.

(** Create boxes with sizes based on playtime; [playedGames[0]] is read
    after the check that the list is not empty. *)
Definition makeBoxes (played : list SteamGame) : list Collage.Box :=
  match played with
  | [] => []
  | first :: _ =>
      let maxPlaytime := playtime_forever first in
      map (fun game =>
             let ratio := sqrt (inject_Z (playtime_forever game) / inject_Z maxPlaytime) in
             let h := Math_round (minHeight + ratio * (maxHeight - minHeight)) in
             let w := Math_round (inject_Z h * HEADER_ASPECT_RATIO) in
             Collage.mkBox game (inject_Z w) (inject_Z h))
          played
  end.

End Boxes.

(** The layout of [generateCollage] from the games of the library:
    [None] when there is nothing to draw. *)
Definition generateLayout (PI : Q) (cos sin sqrt : Q -> Q) (games : list SteamGame)
    (maxGames : Z) (userName : option string) : option Collage.Layout :=
  let played := playedGames games maxGames in
  if (Z.of_nat (length played) =? 0)%Z then None
  else Collage.collageLayout PI cos sin sqrt userName (makeBoxes sqrt played).

Definition library : list SteamGame :=
  [mkSteamGame 400 "Portal" 600; mkSteamGame 10 "Counter-Strike" 0;
   mkSteamGame 570 "Dota 2" 60000; mkSteamGame 620 "Portal 2" 6000].

End CollageInput.

(** The boxes made for the example library, two games at most. *)
Definition libraryBoxes : list Collage.Box :=
  Eval vm_compute in
    CollageInput.makeBoxes Collage.sqrt_
      (CollageInput.playedGames CollageInput.library 2).

(** * The statistics of ValueAnalysis

    Prices and rates are exact rationals. *)

Module ValueAnalysis.

(** [interface GameWithPrice extends SteamGame]: [None] is [undefined]. *)
Record GameWithPrice := mkPriced {
  game : SteamGame;
  price : option Q;
  costPerHour : option Q;
  currency : string;
  priceFormatted : string
}.

(** [x || d] on an optional number: [undefined] and 0 give [d]. *)
Definition orElse (x : option Q) (d : Q) : Q :=
  match x with
  | Some q => if Qeq_bool q 0 then d else q
  | None => d
  end.

Definition Qlt_bool (a b : Q) : bool := negb (Qle_bool b a).

(** The entry [fetchPrices] pushes for a game once its price ([None] is
    [null]) is known. *)
Definition priced (g : SteamGame) (price : option Q)
    (currency detectedCurrency priceFormatted : string) : GameWithPrice :=
  let playtimeHours := (inject_Z (playtime_forever g) / 60)%Q in
  mkPriced g price
    (match price with
     | Some p =>
         if Qlt_bool 0 p && Qlt_bool 0 playtimeHours
         then Some (p / playtimeHours)%Q
         else None
     | None => None
     end)
    (if String.eqb currency EmptyString then detectedCurrency else currency)
    priceFormatted.

Record Stats := mkStats {
  totalValue : Q;
  totalPlaytime : Q;
  bestValue : list GameWithPrice;
  worstValue : list GameWithPrice;
  regrets : list GameWithPrice;
  overallCostPerHour : Q;
  gamesAnalyzed : nat
}.

Definition hasPrice (g : GameWithPrice) : bool :=
  match price g with
  | Some p => Qlt_bool 0 p
  | None => false
  end.

Definition defined (x : option Q) : bool :=
  match x with Some _ => true | None => false end.

Definition stats (gamesWithPrices : list GameWithPrice) : Stats :=
  let withPrices := List.filter hasPrice gamesWithPrices in
  let totalValue :=
    fold_left (fun sum g => (sum + orElse (price g) 0)%Q) withPrices 0%Q in
  let totalPlaytime :=
    fold_left (fun sum g => (sum + inject_Z (playtime_forever (game g)) / 60)%Q)
              withPrices 0%Q in
  let bestValue :=
    slice_to 10
      (sort (fun a b => (orElse (costPerHour a) 999 - orElse (costPerHour b) 999)%Q)
         (List.filter (fun g => defined (costPerHour g)
                                && (60 <=? playtime_forever (game g)))
                      withPrices)) in
  let worstValue :=
    slice_to 10
      (sort (fun a b => (orElse (costPerHour b) 0 - orElse (costPerHour a) 0)%Q)
         (List.filter (fun g => defined (costPerHour g)
                                && Qlt_bool 5 (orElse (price g) 0)
                                && (60 <=? playtime_forever (game g)))
                      withPrices)) in
  let regrets :=
    slice_to 10
      (sort (fun a b => (orElse (price b) 0 - orElse (price a) 0)%Q)
         (List.filter (fun g => Qlt_bool 10 (orElse (price g) 0)
                                && (playtime_forever (game g) <? 60))
                      withPrices)) in
  let overallCostPerHour :=
    if Qlt_bool 0 totalPlaytime then (totalValue / totalPlaytime)%Q else 0%Q in
  mkStats totalValue totalPlaytime bestValue worstValue regrets overallCostPerHour
          (length withPrices).

(** A small priced library for the examples. *)
Definition pricedLibrary : list GameWithPrice :=
  [priced (mkSteamGame 1 "Played a lot" 6000) (Some 20%Q) "USD" "USD" EmptyString;
   priced (mkSteamGame 2 "Barely touched" 30) (Some 60%Q) "USD" "USD" EmptyString;
   priced (mkSteamGame 3 "Free" 500) (Some 0%Q) "USD" "USD" EmptyString;
   priced (mkSteamGame 4 "Never started" 0) (Some 15%Q) EmptyString "USD" EmptyString;
   priced (mkSteamGame 5 "Unknown price" 900) None EmptyString "USD" EmptyString]%string.

End ValueAnalysis.

(** * The GET handler of the per-app route

    The body of the Steam response is read through [response.json()]; how
    a text parses is a parameter ([JSON_parse]), and so is the type of the
    [data] object of a successful entry.  A payload is given by the values
    it is built from: the fallback object by the appid (its [appid] field
    is [parseInt(appid)]) and the reason of its [_error], the result object
    by the [gameData] its fields are read from. *)

Module AppRoute.

Section Handler.
Variable AppData : Type.

(** [data[appid]] when it is truthy: its [success] flag (as a boolean) and
    its [data] (when it is an object). *)
Record Entry := mkEntry { success : bool; data : option AppData }.

(** What [response.json()] gives: a rejection, [null], or a value whose
    properties can be read ([None] for a missing or falsy property). *)
Inductive Parsed :=
| Unparseable
| Null
| Value (property : string -> option Entry).

Variable JSON_parse : string -> Parsed.

Inductive Caught :=
| FromFetch (e : Route.Error)      (* thrown by fetchWithRateLimit *)
| TypeError_property.              (* a property read on null or undefined *)

Inductive Reason :=
| UpstreamStatus (r : Route.SteamResponse) (* "Steam API returned <status>: <statusText>" *)
| ParseFailed                              (* "Failed to parse Steam API response" *)
| NotFound                                 (* "Game not found or delisted" *)
| ErrorMessage (e : Caught).               (* the message of the caught error *)

Inductive Payload :=
| AppIdRequired                            (* { error: "App ID is required" } *)
| Fallback (appid : string) (_error : Reason)
| Result (gameData : AppData).

(** [NextResponse.json(payload, { status })]; the status defaults to 200. *)
Record Answer := mkAnswer { http : Z; payload : Payload }.

Definition GET (upstream : nat -> Route.Reply) (appid : string) (s : Route.Server)
  : Answer * Route.Server :=
  if String.eqb appid EmptyString then (mkAnswer 400 AppIdRequired, s)
  else
    match Route.fetchWithRateLimit upstream s with
    | (Route.Thrown e, s') =>
        (mkAnswer 200 (Fallback appid (ErrorMessage (FromFetch e))), s')
    | (Route.Returned response, s') =>
        if negb (Route.ok response)
        then (mkAnswer 200 (Fallback appid (UpstreamStatus response)), s')
        else
          match JSON_parse (Route.text response) with
          | Unparseable => (mkAnswer 200 (Fallback appid ParseFailed), s')
          | Null =>
              (mkAnswer 200 (Fallback appid (ErrorMessage TypeError_property)), s')
          | Value property =>
              match property appid with
              | None => (mkAnswer 200 (Fallback appid NotFound), s')
              | Some entry =>
                  if negb (success entry)
                  then (mkAnswer 200 (Fallback appid NotFound), s')
                  else
                    match data entry with
                    | None =>
                        (mkAnswer 200
                           (Fallback appid (ErrorMessage TypeError_property)), s')
                    | Some gameData => (mkAnswer 200 (Result gameData), s')
                    end
              end
          end
    end.

End Handler.

(** A parser for the examples: every body holds one successful entry,
    for app 570, whose data is the text itself. *)
Definition parseExample (text : string) : Parsed string :=
  Value string
    (fun appid => if String.eqb appid "570"
                  then Some (mkEntry string true (Some text)) else None).

End AppRoute.

(** * The price loop of ValueAnalysis (fetchPrices, lines 83-182)

    The loop looks every game of the top hundred up in the cache and asks
    /api/steam/app/[appid] for the price when the gate [usesCachedPrice]
    does not let the cached record through.  The state of the client is
    the [World] of the cache together with the trace of the requests sent
    to the per-app endpoint.  The endpoint, the time its answers and the
    100 ms pause take, the time that passes before a turn of the loop
    reads the clock, and the flag [cancelled] (set by the cleanup of the
    effect while the loop is suspended) belong to the environment.  The
    progress indicator ([setProgress]) is not part of the model. *)

Module Prices.

(** [data.genres], as [data.genres?.map((g) => g.description) || []] reads
    it. *)
Inductive Genres :=
| GenresAbsent                              (* missing or null: the result is [] *)
| GenresOf (descriptions : list string)     (* an array of objects *)
| GenresIllTyped.                           (* a value on which [.map] or [g.description] throws *)

(** [data.price_overview] when it is truthy *)
Module PriceOverview.
Record t := mk {
  final : Q;
  currency : option string;
  final_formatted : option string
}.
End PriceOverview.

(** The properties [fetchPrices] reads from the body of a response. *)
Module AppData.
Record t := mk {
  price_overview : option PriceOverview.t;
  is_free : bool;
  genres : Genres;
  developers : option (list string);
  metacritic : option Z
}.
End AppData.

(** What [res.json()] gives: a rejection, [null], or a value whose
    properties can be read. *)
Inductive AppBody := AppMalformed | AppNull | AppJson (data : AppData.t).

Inductive AppOutcome := AppRejected | AppResponded (status : Z) (body : AppBody).

(** The answer to one request: the time until [fetch] and [res.json()]
    settle, what they settle with, and the time the pause that follows
    ([setTimeout(resolve, 100)]) takes. *)
Record AppReply := mkAppReply {
  appElapsed : Z;
  appOutcome : AppOutcome;
  pause : Z
}.

(** The per-app endpoint as seen from the client: the answer to the n-th
    request, made for an appid. *)
Definition Api := nat -> Z -> AppReply.

Record Client := mkClient {
  world : World;
  appRequests : list Z      (* appids of each GET /api/steam/app/[appid], oldest first *)
}.

(** The variables of one turn of the loop ([price], [currency],
    [priceFormatted]) and [detectedCurrency]; [None] is [null]. *)
Module Locals.
Record t := mk {
  price : option Q;
  currency : string;
  priceFormatted : string;
  detectedCurrency : string
}.
End Locals.

(** The state of the component that [fetchPrices] sets. *)
Module View.
Record t := mk {
  gamesWithPrices : list ValueAnalysis.GameWithPrice;
  loading : bool;
  currency : string
}.
End View.

(** [s || d] on an optional string *)
Definition or_string (s : option string) (d : string) : string :=
  if truthy_string s then default d s else d.

(** Get top 100 games by playtime *)
Definition topGames (games : list SteamGame) : list SteamGame :=
  slice_to 100 (sort CollageInput.byPlaytimeDesc games).

(** Time passes while the loop is suspended. *)
Definition later (ms : Z) (c : Client) : Client :=
  mkClient (advance ms (world c)) (appRequests c).

(** The [try] block of the loop (lines 123-155).  The variables are
    declared outside of it: what was assigned before an exception is kept
    by the [catch], which only logs.  The arguments of
    [setCachedGameDetails] are evaluated before the call, [data.genres]
    first; the sixth argument ([currency]) is the one cache.ts drops. *)
Definition fetchFromApi (api : Api) (game : SteamGame) (l : Locals.t) (c : Client)
  : Locals.t * Client :=
  let r := api (length (appRequests c)) (appid game) in
  let c1 := mkClient (advance (appElapsed r) (world c))
                     (appRequests c ++ [appid game]) in
  match appOutcome r with
  | AppRejected => (l, c1)
  | AppResponded status body =>
      if Store.status_ok status then
        match body with
        | AppMalformed => (l, c1)
        | AppNull => (l, c1)
        | AppJson data =>
            let l1 :=
              match AppData.price_overview data with
              | Some po =>
                  let cur := or_string (PriceOverview.currency po) "USD" in
                  Locals.mk (Some (PriceOverview.final po / 100)%Q) cur
                            (or_string (PriceOverview.final_formatted po) EmptyString)
                            cur
              | None =>
                  if AppData.is_free data
                  then Locals.mk (Some 0%Q) (Locals.currency l)
                                 (Locals.priceFormatted l) (Locals.detectedCurrency l)
                  else l
              end in
            let save genres :=
              match setCachedGameDetails (appid game) genres (Locals.price l1)
                      (default [] (AppData.developers data))
                      (AppData.metacritic data) (world c1) with
              | (Ret _, w2) => (l1, later (pause r) (mkClient w2 (appRequests c1)))
              | (Throw _, w2) => (l1, mkClient w2 (appRequests c1))
              end in
            match AppData.genres data with
            | GenresIllTyped => (l1, c1)
            | GenresAbsent => save []
            | GenresOf descriptions => save descriptions
            end
        end
      else (l, later (pause r) c1)
  end.

(** One turn of the loop up to [results.push] (lines 105-155), from the
    moment its cache read reads the clock. *)
Definition fetchPrice (api : Api) (game : SteamGame) (detectedCurrency : string)
    (c : Client) : Res Locals.t * Client :=
  let l := Locals.mk None "USD" EmptyString detectedCurrency in
  match getCachedGameDetails (appid game) (world c) with
  | (Throw e, w1) => (Throw e, mkClient w1 (appRequests c))
  | (Ret cached, w1) =>
      let c1 := mkClient w1 (appRequests c) in
      if usesCachedPrice cached then
        let cur := default EmptyString (cached ≫= GameDetails.currency) in
        (Ret (Locals.mk (cached ≫= GameDetails.price) cur EmptyString cur), c1)
      else
        let (l1, c2) := fetchFromApi api game l c1 in (Ret l1, c2)
  end.

(** The entry pushed for a game (lines 157-167) *)
Definition entryOf (game : SteamGame) (l : Locals.t) : ValueAnalysis.GameWithPrice :=
  ValueAnalysis.priced game (Locals.price l) (Locals.currency l)
                       (Locals.detectedCurrency l) (Locals.priceFormatted l).

(** The [for ... of topGames] loop.  [cancelled n] is the value of the flag
    once [n] games are done, and the result is [None] when the loop
    returns on it; [lag n] is the time that passes from there until the
    cache read of the next turn reads the clock. *)
Fixpoint priceLoop (api : Api) (lag : nat -> Z) (cancelled : nat -> bool)
    (todo : list SteamGame)
    (results : list ValueAnalysis.GameWithPrice) (completed : nat)
    (detectedCurrency : string) (c : Client)
  : Res (option (list ValueAnalysis.GameWithPrice * string)) * Client :=
  match todo with
  | [] => (Ret (Some (results, detectedCurrency)), c)
  | game :: rest =>
      if cancelled completed then (Ret None, c)
      else
        match fetchPrice api game detectedCurrency (later (lag completed) c) with
        | (Throw e, c1) => (Throw e, c1)
        | (Ret l, c1) =>
            priceLoop api lag cancelled rest (results ++ [entryOf game l])
                      (S completed) (Locals.detectedCurrency l) c1
        end
  end.

Definition fetchPrices (api : Api) (lag : nat -> Z) (cancelled : nat -> bool)
    (games : list SteamGame) (v : View.t) (c : Client)
  : Res unit * View.t * Client :=
  let v1 := View.mk (View.gamesWithPrices v) true (View.currency v) in
  let top := topGames games in
  if (Z.of_nat (length top) =? 0)%Z
  then (Ret tt, View.mk (View.gamesWithPrices v1) false (View.currency v1), c)
  else
    match priceLoop api lag cancelled top [] 0 "USD" c with
    | (Throw e, c1) => (Throw e, v1, c1)
    | (Ret None, c1) => (Ret tt, v1, c1)
    | (Ret (Some (results, detectedCurrency)), c1) =>
        if cancelled (length top) then (Ret tt, v1, c1)
        else (Ret tt, View.mk results false detectedCurrency, c1)
    end.

(** The world without the game-details row of an appid. *)
Definition without (appid : Z) (w : World) : World :=
  set_rows db_gameDetails (base.delete appid (gameDetails w)) w.

End Prices.

(** The answers, the pauses and the store calls take time, they do not
    give any back. *)
Definition forward (api : Prices.Api) (lag : nat -> Z) : Prop :=
  (forall n id, 0 <= Prices.appElapsed (api n id) /\ 0 <= Prices.pause (api n id)) /\
  (forall n, 0 <= lag n).

(** * The batch engine on replies that need not be well typed

    [fetchAndCacheGameDetails] reads [data.results] without a check.  An
    entry whose [genres] is truthy and has no [map], or holds a [null]
    element, makes the loop throw while [cached] already holds the records
    of the entries before it; the [catch] logs, and [return cached] gives
    the map as the loop left it.  [Raw] is the engine on such replies: the
    engine above is its restriction to the replies whose entries are well
    typed ([typed]). *)

Module Raw.

(** One value of [data.results] *)
Inductive Entry :=
| Falsy                           (* [null], [false], 0 or the empty string *)
| Game (game : RemoteGame.t)      (* a value whose properties are read without an error *)
| IllTyped.                       (* a value on which [game.genres?.map((g) => g.description)] throws *)

Definition Results := list (Z * Entry).

(** What [response.json()] and [Object.entries(data.results)] yield: a
    rejection on an unparseable body, a TypeError when [data] is [null] or
    has no [results], the entries otherwise. *)
Inductive Body := Malformed | NoResults | Json (results : Results).

Record Response := mkResponse { status : Z; body : Body }.

Inductive FetchOutcome := Rejected | Responded (r : Response).

Record Reply := mkReply { elapsed : Z; outcome : FetchOutcome }.

Definition Remote := list Z -> Reply.

Definition ok (r : Response) : bool := (200 <=? status r) && (status r <=? 299).

Definition fetch_apps (remote : Remote) (appids : list Z) : M Response :=
  fun w =>
    let w' := advance (elapsed (remote appids)) (log_request appids w) in
    match outcome (remote appids) with
    | Rejected => (Throw TypeError_fetch, w')
    | Responded r => (Ret r, w')
    end.

Definition entries (r : Response) : M Results :=
  match body r with
  | Malformed => throw SyntaxError_json
  | NoResults => throw TypeError_read
  | Json results => ret results
  end.

(** The [for ... of Object.entries(data.results)] loop: [toCache], the
    (mutated) map [cached], and whether the loop was left by an exception. *)
Fixpoint collect (now : Z) (todo : Results)
    (st : list GameDetails.t * gmap Z GameDetails.t)
  : (list GameDetails.t * gmap Z GameDetails.t) * bool :=
  match todo with
  | [] => (st, false)
  | (appid, Falsy) :: rest => collect now rest st
  | (appid, Game game) :: rest =>
      let details := detailsOf now appid game in
      collect now rest (fst st ++ [details], <[appid := details]> (snd st))
  | (appid, IllTyped) :: rest => (st, true)
  end.

(** The handler of the [try] block returns [cached]: the map of the batch
    read when [fetch], [response.json()] or [Object.entries] failed, the
    map as the loop left it when the loop threw (nothing is stored then:
    [bulkPut] comes after the loop). *)
Definition fetchAndCacheGameDetails (remote : Remote) (appids : list Z)
  : M (gmap Z GameDetails.t) :=
  cached <- getCachedGameDetailsMany appids ;;
  let uncachedAppids := List.filter (fun id => negb (has cached id)) appids in
  if (Z.of_nat (length uncachedAppids) =? 0) then ret cached
  else
    try_catch
      (response <- fetch_apps remote uncachedAppids ;;
       if negb (ok response) then ret cached
       else
         data <- entries response ;;
         now <- Date_now ;;
         let (st, thrown) := collect now data ([], cached) in
         if thrown then ret (snd st)
         else
           (if 0 <? Z.of_nat (length (fst st))
            then bulkPut db_gameDetails (fst st)
            else ret tt) ;;;
           ret (snd st))
      (fun _ => ret cached).

(** The entries the loop gets through: those before the first ill-typed
    one. *)
Fixpoint reached (results : Results) : Results :=
  match results with
  | [] => []
  | (_, IllTyped) :: _ => []
  | e :: rest => e :: reached rest
  end.

(** The loop is left by an exception. *)
Definition throws (results : Results) : bool :=
  existsb (fun e => match snd e with IllTyped => true | _ => false end) results.

(** The records the loop builds, in order. *)
Definition built (now : Z) (results : Results) : list GameDetails.t :=
  flat_map (fun e => match snd e with
                     | Game game => [detailsOf now (fst e) game]
                     | _ => []
                     end) (reached results).

(** The entries of a reply that arrived, was successful and could be read. *)
Definition resultsOf (r : Reply) : option Results :=
  match outcome r with
  | Responded resp =>
      if ok resp then
        match body resp with
        | Json results => Some results
        | _ => None
        end
      else None
  | Rejected => None
  end.

End Raw.

(** A well-typed reply as a raw one. *)
Definition typedEntry (e : Z * option RemoteGame.t) : Z * Raw.Entry :=
  (fst e, match snd e with Some game => Raw.Game game | None => Raw.Falsy end).

Definition typedReply (r : Reply) : Raw.Reply :=
  Raw.mkReply (elapsed r)
    match outcome r with
    | Rejected => Raw.Rejected
    | Responded resp =>
        Raw.Responded (Raw.mkResponse (status resp)
                         match body resp with
                         | Malformed => Raw.Malformed
                         | Json results => Raw.Json (map typedEntry results)
                         end)
    end.

Definition typed (remote : Remote) : Raw.Remote :=
  fun appids => typedReply (remote appids).

(** A reply whose second entry is ill typed. *)
Definition remoteIllTyped : Raw.Remote :=
  fun _ => Raw.mkReply 120
    (Raw.Responded (Raw.mkResponse 200
       (Raw.Json [(1, Raw.Game someGame); (2, Raw.IllTyped); (3, Raw.Game someGame)]))).

(** * A shelf of two games for the examples of the price loop *)

(** A record with a price and a currency, cached at time 1000. *)
Definition pricedRecord : GameDetails.t :=
  GameDetails.mk 220 ["Action"%string] (Some (999 # 100)%Q) ["Valve"%string]
                 (Some 96) 1000 (Some "EUR"%string).

Definition shelfWorld : World :=
  mkWorld ∅ ∅ (<[220 := pricedRecord]> {[ 42 := legacyRecord ]}) ∅ 5000 [] [].

Definition legacyGame : SteamGame := mkSteamGame 42 "Legacy" 300.

Definition shelf : list SteamGame := [legacyGame; halfLife].

(** An endpoint that answers every request with a price of 19.99 USD. *)
Definition steamApi : Prices.Api :=
  fun _ _ =>
    Prices.mkAppReply 150
      (Prices.AppResponded 200
         (Prices.AppJson
            (Prices.AppData.mk
               (Some (Prices.PriceOverview.mk 1999 (Some "USD"%string)
                                              (Some "$19.99"%string)))
               false (Prices.GenresOf ["RPG"%string]) (Some ["X"%string]) None)))
      101.

Definition neverCancelled : nat -> bool := fun _ => false.

(** Two milliseconds pass before each turn reads the clock. *)
Definition steadyLag : nat -> Z := fun _ => 2.

Definition initialView : Prices.View.t := Prices.View.mk [] true "USD".

(** * Theorems *)

Ltac run :=
  unfold getCachedGames, getCachedPersonality, getCachedGameDetails,
         getCachedReviews, getCachedGameDetailsMany, fetchAndCacheGameDetails,
         setCachedPersonality, setCachedGames, setCachedGameDetails, setCachedReviews,
         fetch_apps, json, try_catch, bind, ret, throw, Date_now,
         get, put, delete, bulkGet, bulkPut;
  cbn.

(** C1 (as stated) fails: the legacy-shaped record of [legacyWorld] has a
    price and no currency, is 4 seconds old, and [getCachedGameDetails]
    returns it. *)
Lemma getCachedGameDetails_returns_legacy_record :
  gameDetails legacyWorld !! 42 = Some legacyRecord /\
  GameDetails.price legacyRecord = Some 999%Q /\
  GameDetails.currency legacyRecord = None /\
  clock legacyWorld - GameDetails.timestamp legacyRecord = 4000 /\
  fst (getCachedGameDetails 42 legacyWorld) = Ret (Some legacyRecord) /\
  fst (getCachedGameDetails 42 legacyWorld) <> Ret None.
Proof. repeat split; try reflexivity. discriminate. Qed.

(** *** The price loop of ValueAnalysis *)

Lemma getCachedGameDetails_cases (k : Z) (w : World) :
  getCachedGameDetails k w =
    match gameDetails w !! k with
    | None => (Ret None, log_db (DbGet TgameDetails (KNum k)) w)
    | Some rec =>
        if GAME_DETAILS_CACHE_DURATION <? clock w - GameDetails.timestamp rec
        then (Ret None,
              log_db (DbDelete TgameDetails (KNum k))
                (set_rows db_gameDetails
                   (base.delete k (gameDetails w))
                   (log_db (DbGet TgameDetails (KNum k)) w)))
        else (Ret (Some rec), log_db (DbGet TgameDetails (KNum k)) w)
    end.
Proof.
  run. destruct (gameDetails w !! k) as [rec|]; cbn; [|reflexivity].
  now destruct (GAME_DETAILS_CACHE_DURATION <? clock w - GameDetails.timestamp rec).
Qed.

Lemma getCachedGameDetails_frame (k : Z) (w : World) :
  (exists r, fst (getCachedGameDetails k w) = Ret r) /\
  clock (snd (getCachedGameDetails k w)) = clock w /\
  (forall k', k' <> k ->
     gameDetails (snd (getCachedGameDetails k w)) !! k' = gameDetails w !! k').
Proof.
  rewrite getCachedGameDetails_cases.
  destruct (gameDetails w !! k) as [rec|]; cbn.
  - destruct (GAME_DETAILS_CACHE_DURATION <? clock w - GameDetails.timestamp rec); cbn.
    + split; [eauto|]. split; [reflexivity|].
      intros k' Hne. now rewrite lookup_delete_ne by congruence.
    + split; [eauto|]. split; reflexivity.
  - split; [eauto|]. split; reflexivity.
Qed.

Lemma fetchFromApi_frame (api : Prices.Api) (game : SteamGame) (l : Prices.Locals.t)
    (c : Prices.Client) :
  Prices.appRequests (snd (Prices.fetchFromApi api game l c))
    = Prices.appRequests c ++ [appid game] /\
  (forall lag, forward api lag ->
   clock (Prices.world c) <= clock (Prices.world (snd (Prices.fetchFromApi api game l c)))) /\
  (forall k, k <> appid game ->
     gameDetails (Prices.world (snd (Prices.fetchFromApi api game l c))) !! k
       = gameDetails (Prices.world c) !! k).
Proof.
  unfold Prices.fetchFromApi.
  set (r := api (length (Prices.appRequests c)) (appid game)).
  assert (Hfw : forall lag, forward api lag ->
                            0 <= Prices.appElapsed r /\ 0 <= Prices.pause r)
    by (intros lag H; apply H).
  set (c1 := Prices.mkClient _ _).
  destruct (Prices.appOutcome r) as [|status body]; cbn.
  - split; [reflexivity|]. split; [|reflexivity]. intros lag H. apply Hfw in H. lia.
  - destruct (Store.status_ok status); cbn.
    + destruct body as [| |data]; cbn.
      * split; [reflexivity|]. split; [|reflexivity]. intros lag H. apply Hfw in H. lia.
      * split; [reflexivity|]. split; [|reflexivity]. intros lag H. apply Hfw in H. lia.
      * destruct (Prices.AppData.genres data); cbn.
        -- split; [reflexivity|]. split.
           ++ intros lag H. apply Hfw in H. lia.
           ++ intros k Hk. now rewrite lookup_insert_ne by congruence.
        -- split; [reflexivity|]. split.
           ++ intros lag H. apply Hfw in H. lia.
           ++ intros k Hk. now rewrite lookup_insert_ne by congruence.
        -- split; [reflexivity|]. split; [|reflexivity]. intros lag H. apply Hfw in H. lia.
    + split; [reflexivity|]. split; [|reflexivity]. intros lag H. apply Hfw in H. lia.
Qed.

Lemma fetchPrice_frame (api : Prices.Api) (game : SteamGame) (detected : string)
    (c : Prices.Client) :
  (exists l, fst (Prices.fetchPrice api game detected c) = Ret l) /\
  (exists new, Prices.appRequests (snd (Prices.fetchPrice api game detected c))
                 = Prices.appRequests c ++ new /\
               forall k, In k new -> k = appid game) /\
  (forall lag, forward api lag ->
   clock (Prices.world c)
     <= clock (Prices.world (snd (Prices.fetchPrice api game detected c)))) /\
  (forall k, k <> appid game ->
     gameDetails (Prices.world (snd (Prices.fetchPrice api game detected c))) !! k
       = gameDetails (Prices.world c) !! k).
Proof.
  unfold Prices.fetchPrice.
  destruct (getCachedGameDetails_frame (appid game) (Prices.world c))
    as ([r Hr] & Hclock & Hother).
  destruct (getCachedGameDetails (appid game) (Prices.world c)) as [[cached|e] w1];
    cbn in *; [|discriminate].
  destruct (usesCachedPrice cached); cbn.
  - split; [eauto|]. split.
    + exists []. split; [now rewrite app_nil_r | intros k []].
    + split; [intros _ _; lia | intros k Hk; now apply Hother].
  - set (l := Prices.Locals.mk None "USD" EmptyString detected).
    destruct (fetchFromApi_frame api game l (Prices.mkClient w1 (Prices.appRequests c)))
      as (Hreq & Hfw & Hoth).
    destruct (Prices.fetchFromApi api game l _) as [l1 c2]; cbn in *.
    split; [eauto|]. split.
    + exists [appid game]. split; [exact Hreq|]. intros k [<-|[]]. reflexivity.
    + split.
      * intros lag H. apply Hfw in H. lia.
      * intros k Hk. rewrite Hoth by exact Hk. now apply Hother.
Qed.

(** A fresh record that passes the gate: its price and its currency are
    taken, nothing is sent and the store is left as it is. *)
Lemma fetchPrice_hit (api : Prices.Api) (game : SteamGame) (detected : string)
    (c : Prices.Client) (rec : GameDetails.t) :
  gameDetails (Prices.world c) !! appid game = Some rec ->
  clock (Prices.world c) - GameDetails.timestamp rec <= GAME_DETAILS_CACHE_DURATION ->
  usesCachedPrice (Some rec) = true ->
  exists cur,
    GameDetails.currency rec = Some cur /\ cur <> EmptyString /\
    fst (Prices.fetchPrice api game detected c)
      = Ret (Prices.Locals.mk (GameDetails.price rec) cur EmptyString cur) /\
    Prices.appRequests (snd (Prices.fetchPrice api game detected c))
      = Prices.appRequests c /\
    gameDetails (Prices.world (snd (Prices.fetchPrice api game detected c)))
      = gameDetails (Prices.world c) /\
    clock (Prices.world (snd (Prices.fetchPrice api game detected c)))
      = clock (Prices.world c).
Proof.
  intros Hrec Hage Hgate. unfold Prices.fetchPrice.
  rewrite getCachedGameDetails_cases, Hrec.
  destruct (Z.ltb_spec GAME_DETAILS_CACHE_DURATION
              (clock (Prices.world c) - GameDetails.timestamp rec)); [lia|].
  rewrite Hgate. cbn.
  unfold usesCachedPrice in Hgate.
  destruct (GameDetails.price rec) as [p|]; [|discriminate].
  destruct (GameDetails.currency rec) as [cur|]; [|discriminate].
  exists cur. cbn in *. split; [reflexivity|]. split.
  - intros ->. discriminate.
  - repeat split.
Qed.

(** A fresh record that does not pass the gate: the price is asked for, and
    the turn ends with the variables it would have without the record. *)
Lemma fetchPrice_miss (api : Prices.Api) (game : SteamGame) (detected : string)
    (c : Prices.Client) (rec : GameDetails.t) :
  gameDetails (Prices.world c) !! appid game = Some rec ->
  clock (Prices.world c) - GameDetails.timestamp rec <= GAME_DETAILS_CACHE_DURATION ->
  usesCachedPrice (Some rec) = false ->
  Prices.appRequests (snd (Prices.fetchPrice api game detected c))
    = Prices.appRequests c ++ [appid game] /\
  fst (Prices.fetchPrice api game detected c)
    = fst (Prices.fetchPrice api game detected
             (Prices.mkClient (Prices.without (appid game) (Prices.world c))
                              (Prices.appRequests c))).
Proof.
  intros Hrec Hage Hgate. unfold Prices.fetchPrice.
  rewrite !getCachedGameDetails_cases, Hrec.
  destruct (Z.ltb_spec GAME_DETAILS_CACHE_DURATION
              (clock (Prices.world c) - GameDetails.timestamp rec)); [lia|].
  rewrite Hgate. cbn. rewrite lookup_delete_eq. cbn.
  set (l := Prices.Locals.mk None "USD" EmptyString detected).
  split.
  - destruct (fetchFromApi_frame api game l
      (Prices.mkClient (log_db (DbGet TgameDetails (KNum (appid game))) (Prices.world c))
                       (Prices.appRequests c))) as (Hreq & _ & _).
    destruct (Prices.fetchFromApi api game l _) as [l1 c2]. exact Hreq.
  - unfold Prices.fetchFromApi. cbn.
    set (r := api (length (Prices.appRequests c)) (appid game)).
    destruct (Prices.appOutcome r) as [|status body]; cbn; [reflexivity|].
    destruct (Store.status_ok status); cbn; [|reflexivity].
    destruct body as [| |data]; cbn; try reflexivity.
    destruct (Prices.AppData.genres data); reflexivity.
Qed.

Lemma priceLoop_frame (api : Prices.Api) (lag : nat -> Z) (cancelled : nat -> bool) :
  (forall n, cancelled n = false) ->
  forall (todo : list SteamGame) (results : list ValueAnalysis.GameWithPrice)
         (completed : nat) (detected : string) (c : Prices.Client),
    let out := Prices.priceLoop api lag cancelled todo results completed detected c in
    exists added det new,
      fst out = Ret (Some (results ++ added, det)) /\
      map ValueAnalysis.game added = todo /\
      Prices.appRequests (snd out) = Prices.appRequests c ++ new /\
      (forall k, In k new -> In k (map appid todo)) /\
      (forward api lag -> clock (Prices.world c) <= clock (Prices.world (snd out))) /\
      (forall k, ~ In k (map appid todo) ->
         gameDetails (Prices.world (snd out)) !! k = gameDetails (Prices.world c) !! k).
Proof.
  intros Hc todo. induction todo as [|g rest IH]; intros results completed detected c; cbn.
  - exists [], detected, []. rewrite !app_nil_r.
    repeat split; [intros k [] | intros _; lia].
  - rewrite Hc. set (c0 := Prices.later (lag completed) c).
    destruct (fetchPrice_frame api g detected c0)
      as ([l Hl] & (new1 & Hreq1 & Hnew1) & Hclock1 & Hother1).
    destruct (Prices.fetchPrice api g detected c0) as [[l'|e] c1]; cbn in *;
      [|discriminate].
    injection Hl as ->.
    destruct (IH (results ++ [Prices.entryOf g l]) (S completed)
                 (Prices.Locals.detectedCurrency l) c1)
      as (added & det & new & Hres & Hgames & Hreq & Hnew & Hclock & Hother).
    exists (Prices.entryOf g l :: added), det, (new1 ++ new).
    split; [rewrite Hres; now rewrite <- app_assoc|].
    split; [cbn; now rewrite Hgames|].
    split; [rewrite Hreq, Hreq1; now rewrite app_assoc|].
    split.
    + intros k Hk. apply in_app_or in Hk as [Hk|Hk].
      * left. symmetry. now apply Hnew1.
      * right. now apply Hnew.
    + split.
      * intros H. specialize (Hclock1 lag H). specialize (Hclock H).
        destruct H as [_ Hlag]. specialize (Hlag completed). lia.
      * intros k Hk. rewrite Hother by tauto. apply Hother1. intros ->. tauto.
Qed.

Lemma entryOf_fields (g : SteamGame) (l : Prices.Locals.t) :
  ValueAnalysis.game (Prices.entryOf g l) = g /\
  ValueAnalysis.price (Prices.entryOf g l) = Prices.Locals.price l /\
  (Prices.Locals.currency l <> EmptyString ->
   ValueAnalysis.currency (Prices.entryOf g l) = Prices.Locals.currency l).
Proof.
  cbn. repeat split. intros Hne.
  destruct (String.eqb_spec (Prices.Locals.currency l) EmptyString); congruence.
Qed.

(** A record that passes the gate and stays fresh until the end of the
    loop is never asked for, stays where it is, and gives its price and its
    currency to every entry made for its appid. *)
Lemma priceLoop_hit (api : Prices.Api) (lag : nat -> Z) (cancelled : nat -> bool)
    (k : Z) (rec : GameDetails.t) :
  (forall n, cancelled n = false) ->
  forward api lag ->
  usesCachedPrice (Some rec) = true ->
  forall (todo : list SteamGame) (results : list ValueAnalysis.GameWithPrice)
         (completed : nat) (detected : string) (c : Prices.Client),
    let out := Prices.priceLoop api lag cancelled todo results completed detected c in
    gameDetails (Prices.world c) !! k = Some rec ->
    clock (Prices.world (snd out)) - GameDetails.timestamp rec
      <= GAME_DETAILS_CACHE_DURATION ->
    exists added det new,
      fst out = Ret (Some (results ++ added, det)) /\
      Prices.appRequests (snd out) = Prices.appRequests c ++ new /\
      ~ In k new /\
      gameDetails (Prices.world (snd out)) !! k = Some rec /\
      (forall e, In e added -> appid (ValueAnalysis.game e) = k ->
         ValueAnalysis.price e = GameDetails.price rec /\
         Some (ValueAnalysis.currency e) = GameDetails.currency rec).
Proof.
  intros Hc Hfw Hgate todo.
  induction todo as [|g rest IH]; intros results completed detected c; cbn zeta.
  - cbn. intros Hrec _. exists [], detected, []. rewrite !app_nil_r.
    repeat split; [tauto | exact Hrec | destruct H | destruct H].
  - intros Hrec Hfresh.
    cbn in Hfresh |- *. rewrite Hc in Hfresh |- *.
    set (c0 := Prices.later (lag completed) c) in *.
    assert (Hrec0 : gameDetails (Prices.world c0) !! k = Some rec) by exact Hrec.
    destruct (Z.eq_dec (appid g) k) as [Hk|Hk].
    + subst k.
      assert (Hage : clock (Prices.world c0) - GameDetails.timestamp rec
                     <= GAME_DETAILS_CACHE_DURATION).
      { destruct (fetchPrice_frame api g detected c0) as ([l Hl] & _ & Hclock1 & _).
        specialize (Hclock1 lag Hfw).
        destruct (Prices.fetchPrice api g detected c0) as [[l'|e] c1]; cbn in *;
          [|discriminate].
        destruct (priceLoop_frame api lag cancelled Hc rest
                    (results ++ [Prices.entryOf g l']) (S completed)
                    (Prices.Locals.detectedCurrency l') c1)
          as (_ & _ & _ & _ & _ & _ & _ & Hmono & _).
        specialize (Hmono Hfw). lia. }
      destruct (fetchPrice_hit api g detected c0 rec Hrec0 Hage Hgate)
        as (cur & Hcur & Hne & Hl & Hreq1 & Hstore1 & Hclock1).
      destruct (Prices.fetchPrice api g detected c0) as [[l|e] c1]; cbn in *;
        [|discriminate].
      injection Hl as ->.
      destruct (IH (results ++ [Prices.entryOf g
                                  (Prices.Locals.mk (GameDetails.price rec) cur
                                                    EmptyString cur)])
                   (S completed) cur c1 ltac:(now rewrite Hstore1) Hfresh)
        as (added & det & new & Hres & Hreq & Hnew & Hstore & Hentries).
      cbn [Prices.Locals.detectedCurrency].
      eexists (_ :: added), det, new.
      split; [rewrite Hres; now rewrite <- app_assoc|].
      split; [now rewrite Hreq, Hreq1|].
      split; [exact Hnew|]. split; [exact Hstore|].
      intros e [<-|He] Hid; [|now apply Hentries].
      destruct (entryOf_fields g (Prices.Locals.mk (GameDetails.price rec) cur
                                                   EmptyString cur))
        as (_ & Hprice & Hcurrency).
      split; [exact Hprice|]. rewrite Hcurrency by exact Hne. now rewrite Hcur.
    + destruct (fetchPrice_frame api g detected c0)
        as ([l Hl] & (new1 & Hreq1 & Hnew1) & Hclock1 & Hother1).
      destruct (Prices.fetchPrice api g detected c0) as [[l'|e] c1]; cbn in *;
        [|discriminate].
      injection Hl as ->.
      destruct (IH (results ++ [Prices.entryOf g l]) (S completed)
                   (Prices.Locals.detectedCurrency l) c1
                   ltac:(rewrite Hother1 by congruence; exact Hrec) Hfresh)
        as (added & det & new & Hres & Hreq & Hnew & Hstore & Hentries).
      eexists (_ :: added), det, (new1 ++ new).
      split; [rewrite Hres; now rewrite <- app_assoc|].
      split; [rewrite Hreq, Hreq1; now rewrite app_assoc|].
      split.
      * intros Hin. apply in_app_or in Hin as [Hin|Hin]; [|tauto].
        apply Hnew1 in Hin. congruence.
      * split; [exact Hstore|].
        intros e [<-|He] Hid; [|now apply Hentries].
        destruct (entryOf_fields g l) as (Hgame & _). congruence.
Qed.

(** A record that does not pass the gate and stays fresh until the end of
    the loop: the price of its game is asked for. *)
Lemma priceLoop_miss (api : Prices.Api) (lag : nat -> Z) (cancelled : nat -> bool)
    (k : Z) (rec : GameDetails.t) :
  (forall n, cancelled n = false) ->
  forward api lag ->
  usesCachedPrice (Some rec) = false ->
  forall (todo : list SteamGame) (results : list ValueAnalysis.GameWithPrice)
         (completed : nat) (detected : string) (c : Prices.Client),
    let out := Prices.priceLoop api lag cancelled todo results completed detected c in
    In k (map appid todo) ->
    gameDetails (Prices.world c) !! k = Some rec ->
    clock (Prices.world (snd out)) - GameDetails.timestamp rec
      <= GAME_DETAILS_CACHE_DURATION ->
    exists new,
      Prices.appRequests (snd out) = Prices.appRequests c ++ new /\ In k new.
Proof.
  intros Hc Hfw Hgate todo.
  induction todo as [|g rest IH]; intros results completed detected c; cbn zeta.
  - intros [].
  - intros Hin Hrec Hfresh.
    cbn in Hfresh |- *. rewrite Hc in Hfresh |- *.
    set (c0 := Prices.later (lag completed) c) in *.
    assert (Hrec0 : gameDetails (Prices.world c0) !! k = Some rec) by exact Hrec.
    destruct (fetchPrice_frame api g detected c0)
      as ([l Hl] & (new1 & Hreq1 & Hnew1) & Hclock1 & Hother1).
    specialize (Hclock1 lag Hfw).
    destruct (Z.eq_dec (appid g) k) as [Hk|Hk].
    + subst k.
      assert (Hage : clock (Prices.world c0) - GameDetails.timestamp rec
                     <= GAME_DETAILS_CACHE_DURATION).
      { destruct (Prices.fetchPrice api g detected c0) as [[l'|e] c1]; cbn in *;
          [|discriminate].
        destruct (priceLoop_frame api lag cancelled Hc rest
                    (results ++ [Prices.entryOf g l']) (S completed)
                    (Prices.Locals.detectedCurrency l') c1)
          as (_ & _ & _ & _ & _ & _ & _ & Hmono & _).
        specialize (Hmono Hfw). lia. }
      destruct (fetchPrice_miss api g detected c0 rec Hrec0 Hage Hgate)
        as (Hreq1' & _).
      destruct (Prices.fetchPrice api g detected c0) as [[l'|e] c1]; cbn in *;
        [|discriminate].
      destruct (priceLoop_frame api lag cancelled Hc rest
                  (results ++ [Prices.entryOf g l']) (S completed)
                  (Prices.Locals.detectedCurrency l') c1)
        as (_ & _ & new & _ & _ & Hreq & _).
      exists (appid g :: new). split; [|now left].
      rewrite Hreq, Hreq1'. now rewrite <- app_assoc.
    + destruct Hin as [Hin|Hin]; [congruence|].
      destruct (Prices.fetchPrice api g detected c0) as [[l'|e] c1]; cbn in *;
        [|discriminate].
      destruct (IH (results ++ [Prices.entryOf g l']) (S completed)
                   (Prices.Locals.detectedCurrency l') c1 Hin
                   ltac:(rewrite Hother1 by congruence; exact Hrec) Hfresh)
        as (new & Hreq & Hnew).
      exists (new1 ++ new). split; [|apply in_or_app; now right].
      rewrite Hreq, Hreq1. now rewrite app_assoc.
Qed.

(** C1 (amended): for every stored game-details record that is not
    TTL-expired, [getCachedGameDetails] returns the record itself, whatever
    its price and currency, and keeps it in the store.  The record without
    a currency is turned down one level up, by [ValueAnalysis.fetchPrices]:
    its gate lets a cached record through exactly when the record has a
    non-null price and a non-empty currency.  In the turn of the loop made
    for the game of the record, a record with a price and a currency gives
    them to the turn, nothing is sent and the store is left alone; a record
    with a null price, without currency or with an empty one has its price
    asked from /api/steam/app/[appid], and the turn ends as it would
    without the record. *)
Theorem fetchPrices_uses_record_with_price_and_currency :
  forall (w : World) (id : Z) (rec : GameDetails.t),
    gameDetails w !! id = Some rec ->
    clock w - GameDetails.timestamp rec <= GAME_DETAILS_CACHE_DURATION ->
    (fst (getCachedGameDetails id w) = Ret (Some rec) /\
     gameDetails (snd (getCachedGameDetails id w)) = gameDetails w) /\
    (usesCachedPrice (Some rec) = true <->
     is_Some (GameDetails.price rec) /\
     exists cur, GameDetails.currency rec = Some cur /\ cur <> EmptyString) /\
    (forall (api : Prices.Api) (game : SteamGame) (detected : string) (reqs : list Z),
       appid game = id ->
       let out := Prices.fetchPrice api game detected (Prices.mkClient w reqs) in
       (forall p cur,
           GameDetails.price rec = Some p ->
           GameDetails.currency rec = Some cur ->
           cur <> EmptyString ->
           fst out = Ret (Prices.Locals.mk (Some p) cur EmptyString cur) /\
           Prices.appRequests (snd out) = reqs /\
           gameDetails (Prices.world (snd out)) = gameDetails w) /\
       (GameDetails.price rec = None \/
        GameDetails.currency rec = None \/
        GameDetails.currency rec = Some EmptyString ->
        Prices.appRequests (snd out) = reqs ++ [id] /\
        fst out = fst (Prices.fetchPrice api game detected
                         (Prices.mkClient (Prices.without id w) reqs)))).
Proof.
  intros w id rec Hrec Hage.
  assert (Hgate : usesCachedPrice (Some rec) = true <->
                  is_Some (GameDetails.price rec) /\
                  exists cur, GameDetails.currency rec = Some cur /\ cur <> EmptyString).
  { unfold usesCachedPrice, truthy_string.
    destruct (GameDetails.price rec) as [p|], (GameDetails.currency rec) as [cur|].
    - destruct (String.eqb_spec cur EmptyString) as [->|Hne]; cbn.
      + split; [discriminate|]. intros (_ & cur & [= <-] & Hne). congruence.
      + split; [|reflexivity]. intros _. split; [eauto|]. exists cur. now split.
    - split; [discriminate|]. intros (_ & cur & [=] & _).
    - split; [discriminate|]. intros ([p [=]] & _).
    - split; [discriminate|]. intros ([p [=]] & _). }
  split; [|split; [exact Hgate|]].
  - rewrite getCachedGameDetails_cases, Hrec.
    destruct (Z.ltb_spec GAME_DETAILS_CACHE_DURATION
                (clock w - GameDetails.timestamp rec)); [lia|]. split; reflexivity.
  - intros api game detected reqs <-. cbn zeta. split.
    + intros p cur Hp Hcur Hne.
      assert (Hpass : usesCachedPrice (Some rec) = true).
      { apply Hgate. rewrite Hp. split; [eauto|]. exists cur. now split. }
      destruct (fetchPrice_hit api game detected (Prices.mkClient w reqs) rec
                  Hrec Hage Hpass) as (cur' & Hcur' & _ & Hl & Hreq & Hstore & _).
      rewrite Hcur in Hcur'. injection Hcur' as <-. rewrite Hp in Hl.
      now repeat split.
    + intros Hfail.
      assert (Hpass : usesCachedPrice (Some rec) = false).
      { destruct (usesCachedPrice (Some rec)) eqn:Hg; [|reflexivity].
        destruct (proj1 Hgate eq_refl) as ([p Hp] & cur & Hcur & Hne).
        destruct Hfail as [H|[H|H]]; congruence. }
      exact (fetchPrice_miss api game detected (Prices.mkClient w reqs) rec
               Hrec Hage Hpass).
Qed.

Lemma fetchPrices_uses_record_with_price_and_currency_witness :
  Prices.appRequests
    (snd (Prices.fetchPrice steamApi legacyGame "USD" (Prices.mkClient shelfWorld [])))
    = [] ++ [42] /\
  fst (Prices.fetchPrice steamApi legacyGame "USD" (Prices.mkClient shelfWorld []))
    = fst (Prices.fetchPrice steamApi legacyGame "USD"
             (Prices.mkClient (Prices.without 42 shelfWorld) [])).
Proof.
  destruct (fetchPrices_uses_record_with_price_and_currency shelfWorld 42 legacyRecord)
    as (_ & _ & Hturn).
  - reflexivity.
  - vm_compute. discriminate.
  - apply (Hturn steamApi legacyGame "USD"%string []); [reflexivity|].
    right. left. reflexivity.
Defined.

(** The two turns on the shelf: the record of Half-Life 2 has a price and a
    currency and answers its turn; the legacy record does not, its price
    is asked for, and the price of the record (9.99 as 999) is not the one
    the turn ends with. *)
Example fetchPrice_shelf :
  fst (Prices.fetchPrice steamApi halfLife "USD" (Prices.mkClient shelfWorld []))
    = Ret (Prices.Locals.mk (Some (999 # 100)%Q) "EUR" EmptyString "EUR") /\
  Prices.appRequests
    (snd (Prices.fetchPrice steamApi halfLife "USD" (Prices.mkClient shelfWorld [])))
    = [] /\
  Prices.appRequests
    (snd (Prices.fetchPrice steamApi legacyGame "USD" (Prices.mkClient shelfWorld [])))
    = [42] /\
  (exists l,
     fst (Prices.fetchPrice steamApi legacyGame "USD" (Prices.mkClient shelfWorld []))
       = Ret l /\
     Prices.Locals.price l <> GameDetails.price legacyRecord /\
     Prices.Locals.currency l = "USD"%string).
Proof.
  split; [reflexivity|]. split; [reflexivity|]. split; [reflexivity|].
  eexists. split; [reflexivity|]. split; [|reflexivity].
  cbn. intros [=].
Qed.

(** What [setCachedGameDetails] writes is read back as written, and it has
    no currency: [ValueAnalysis.fetchPrices] does not use its price. *)
Lemma setCachedGameDetails_then_get (w : World) (appid : Z) (genres : list string)
    (price : option Q) (developers : list string) (metacritic : option Z) :
  let rec := GameDetails.mk appid genres price developers metacritic (clock w) None in
  let w' := snd (setCachedGameDetails appid genres price developers metacritic w) in
  fst (getCachedGameDetails appid w') = Ret (Some rec) /\
  usesCachedPrice (Some rec) = false.
Proof.
  cbn zeta. run. rewrite lookup_insert_eq. cbn.
  replace (clock w - clock w) with 0 by lia. cbn.
  split; [reflexivity|]. unfold usesCachedPrice. cbn. now destruct price.
Qed.

(** C2: for every stored personality record that is not TTL-expired,
    [getCachedPersonality steamId currentGamesHash] returns the stored
    result if and only if [currentGamesHash] is the stored [gamesHash];
    when the hashes differ it returns null and the record is deleted. *)
Theorem getCachedPersonality_hash_gate :
  forall (w : World) (steamId currentGamesHash : string) (rec : PersonalityCache.t),
    personality w !! steamId = Some rec ->
    clock w - PersonalityCache.timestamp rec <= PERSONALITY_CACHE_DURATION ->
    (fst (getCachedPersonality steamId currentGamesHash w)
       = Ret (Some (PersonalityCache.result rec))
     <-> currentGamesHash = PersonalityCache.gamesHash rec) /\
    (currentGamesHash <> PersonalityCache.gamesHash rec ->
     fst (getCachedPersonality steamId currentGamesHash w) = Ret None /\
     personality (snd (getCachedPersonality steamId currentGamesHash w)) !! steamId
       = None).
Proof.
  intros w steamId h rec Hrec Hage. run. rewrite Hrec. cbn.
  destruct (Z.ltb_spec PERSONALITY_CACHE_DURATION
              (clock w - PersonalityCache.timestamp rec)) as [Hlt|_]; [lia|].
  destruct (String.eqb_spec (PersonalityCache.gamesHash rec) h) as [Heq|Hne]; cbn.
  - split; [split; auto | congruence].
  - split.
    + split; [discriminate | congruence].
    + intros _. split; [reflexivity | apply lookup_delete_eq].
Qed.

Lemma getCachedPersonality_hash_gate_witness :
  (fst (getCachedPersonality "76561198000000000" "Zelda:5" analysisWorld)
     = Ret (Some (PersonalityCache.result storedAnalysis))
   <-> "Zelda:5"%string = PersonalityCache.gamesHash storedAnalysis) /\
  ("Zelda:5"%string <> PersonalityCache.gamesHash storedAnalysis ->
   fst (getCachedPersonality "76561198000000000" "Zelda:5" analysisWorld) = Ret None /\
   personality (snd (getCachedPersonality "76561198000000000" "Zelda:5" analysisWorld))
     !! "76561198000000000"%string = None).
Proof.
  apply (getCachedPersonality_hash_gate analysisWorld "76561198000000000" "Zelda:5"
           storedAnalysis).
  - reflexivity.
  - vm_compute. discriminate.
Defined.

(** *** The batch read keeps the fresh rows and nothing else *)

Lemma keepFresh_fold_inv (now : Z) (items : list (option GameDetails.t)) :
  forall (acc : gmap Z GameDetails.t) (k : Z) (v : GameDetails.t),
    fold_left (keepFresh now) items acc !! k = Some v ->
    acc !! k = Some v \/
    (In (Some v) items /\ GameDetails.appid v = k /\ fresh now v).
Proof.
  induction items as [|item items IH]; intros acc k v H; cbn in H.
  - now left.
  - apply IH in H as [H|(Hin & Hk & Hf)].
    + unfold keepFresh in H. destruct item as [it|]; [|now left].
      destruct (Z.ltb_spec (now - GameDetails.timestamp it) GAME_DETAILS_CACHE_DURATION)
        as [Hlt|Hge]; [|now left].
      destruct (decide (GameDetails.appid it = k)) as [Heq|Hne].
      * subst k. rewrite lookup_insert_eq in H. inversion H; subst it.
        right. repeat split; [now left | exact Hlt].
      * rewrite lookup_insert_ne in H by exact Hne. now left.
    + right. repeat split; [now right | exact Hk | exact Hf].
Qed.

Lemma keepFresh_fold_mono (now : Z) (items : list (option GameDetails.t)) :
  forall (acc : gmap Z GameDetails.t) (k : Z),
    is_Some (acc !! k) -> is_Some (fold_left (keepFresh now) items acc !! k).
Proof.
  induction items as [|item items IH]; intros acc k H; cbn; [exact H|].
  apply IH. unfold keepFresh. destruct item as [it|]; [|exact H].
  destruct (now - GameDetails.timestamp it <? GAME_DETAILS_CACHE_DURATION); [|exact H].
  destruct (decide (GameDetails.appid it = k)) as [Heq|Hne].
  - subst k. rewrite lookup_insert_eq. eauto.
  - rewrite lookup_insert_ne by exact Hne. exact H.
Qed.

Lemma keepFresh_fold_in (now : Z) (items : list (option GameDetails.t)) :
  forall (acc : gmap Z GameDetails.t) (v : GameDetails.t),
    In (Some v) items -> fresh now v ->
    is_Some (fold_left (keepFresh now) items acc !! GameDetails.appid v).
Proof.
  induction items as [|item items IH]; intros acc v Hin Hf; [destruct Hin|].
  destruct Hin as [->|Hin]; cbn.
  - apply keepFresh_fold_mono. unfold fresh in Hf.
    destruct (Z.ltb_spec (now - GameDetails.timestamp v) GAME_DETAILS_CACHE_DURATION);
      [|lia].
    rewrite lookup_insert_eq. eauto.
  - now apply IH.
Qed.

(** Every row of the hit map is a fresh row of the store, found under one
    of the requested keys. *)
Lemma cacheHits_inv (appids : list Z) (w : World) (k : Z) (v : GameDetails.t) :
  cacheHits appids w !! k = Some v ->
  exists k', In k' appids /\ gameDetails w !! k' = Some v /\
             GameDetails.appid v = k /\ fresh (clock w) v.
Proof.
  unfold cacheHits. intros H. apply keepFresh_fold_inv in H as [H|(Hin & Hk & Hf)].
  - rewrite lookup_empty in H. discriminate.
  - apply in_map_iff in Hin as (k' & Hk' & Hin). eauto.
Qed.

Lemma cacheHits_keyed (appids : list Z) (w : World) (k : Z) (v : GameDetails.t) :
  keyed w -> cacheHits appids w !! k = Some v ->
  In k appids /\ gameDetails w !! k = Some v /\ fresh (clock w) v.
Proof.
  intros Hkeyed H. apply cacheHits_inv in H as (k' & Hin & Hrow & Hk & Hf).
  assert (k' = k) as -> by (rewrite <- Hk; symmetry; now apply Hkeyed).
  auto.
Qed.

Lemma cacheHits_hit (appids : list Z) (w : World) (k : Z) (v : GameDetails.t) :
  keyed w -> In k appids -> gameDetails w !! k = Some v -> fresh (clock w) v ->
  cacheHits appids w !! k = Some v.
Proof.
  intros Hkeyed Hin Hrow Hf.
  assert (is_Some (cacheHits appids w !! k)) as [v' Hv'].
  { rewrite <- (Hkeyed k v Hrow). unfold cacheHits. apply keepFresh_fold_in; [|exact Hf].
    apply in_map_iff. exists k. auto. }
  rewrite Hv'. apply cacheHits_keyed in Hv' as (_ & Hrow' & _); [|exact Hkeyed].
  congruence.
Qed.

Lemma keyed_empty (w : World) : gameDetails w = ∅ -> keyed w.
Proof. intros He k v. rewrite He, lookup_empty. discriminate. Qed.

Lemma keyed_singleton (w : World) (v : GameDetails.t) :
  gameDetails w = {[ GameDetails.appid v := v ]} -> keyed w.
Proof.
  intros He k v'. rewrite He. destruct (decide (GameDetails.appid v = k)) as [<-|Hne].
  - rewrite lookup_singleton_eq. now intros [= <-].
  - rewrite lookup_singleton_ne by exact Hne. discriminate.
Qed.

Lemma getCachedGameDetailsMany_run (appids : list Z) (w : World) :
  getCachedGameDetailsMany appids w =
  (Ret (cacheHits appids w),
   log_db (DbBulkGet TgameDetails (map KNum appids)) w).
Proof. reflexivity. Qed.

(** C3 (as stated) fails for the batch read: the record of [staleWorld] is
    past its TTL, [getCachedGameDetailsMany] leaves it out of the returned
    map, and the record is still in the store afterwards. *)
Lemma getCachedGameDetailsMany_keeps_stale_record :
  gameDetails staleWorld !! 7 = Some staleRecord /\
  GAME_DETAILS_CACHE_DURATION < clock staleWorld - GameDetails.timestamp staleRecord /\
  fst (getCachedGameDetailsMany [7] staleWorld) = Ret ∅ /\
  gameDetails (snd (getCachedGameDetailsMany [7] staleWorld)) !! 7 = Some staleRecord /\
  gameDetails (snd (getCachedGameDetailsMany [7] staleWorld)) !! 7 <> None.
Proof. repeat split; try reflexivity. discriminate. Qed.

(** C3 (amended): the TTLs are 30 minutes (games), 7 days (analysis), 30 days
    (metadata) and 24 hours (reviews).  A single-record get
    ([getCachedGames], [getCachedPersonality], [getCachedGameDetails],
    [getCachedReviews]) of a record whose age exceeds the TTL of its
    collection returns absent and deletes the record.  The batch read
    [getCachedGameDetailsMany] returns only rows younger than the TTL, so it
    leaves such a record out of the returned map, and it leaves the store
    as it is: the stale record is not deleted. *)
Theorem expired_reads :
  (GAMES_CACHE_DURATION = 30 * 60 * 1000 /\
   PERSONALITY_CACHE_DURATION = 7 * 24 * 60 * 60 * 1000 /\
   GAME_DETAILS_CACHE_DURATION = 30 * 24 * 60 * 60 * 1000 /\
   REVIEWS_CACHE_DURATION = 24 * 60 * 60 * 1000) /\
  (forall (w : World) (steamId : string) (rec : GamesCache.t),
      games w !! steamId = Some rec ->
      GAMES_CACHE_DURATION < clock w - GamesCache.timestamp rec ->
      fst (getCachedGames steamId w) = Ret None /\
      games (snd (getCachedGames steamId w)) !! steamId = None) /\
  (forall (w : World) (steamId hash : string) (rec : PersonalityCache.t),
      personality w !! steamId = Some rec ->
      PERSONALITY_CACHE_DURATION < clock w - PersonalityCache.timestamp rec ->
      fst (getCachedPersonality steamId hash w) = Ret None /\
      personality (snd (getCachedPersonality steamId hash w)) !! steamId = None) /\
  (forall (w : World) (appid : Z) (rec : GameDetails.t),
      gameDetails w !! appid = Some rec ->
      GAME_DETAILS_CACHE_DURATION < clock w - GameDetails.timestamp rec ->
      fst (getCachedGameDetails appid w) = Ret None /\
      gameDetails (snd (getCachedGameDetails appid w)) !! appid = None) /\
  (forall (w : World) (steamId : string) (rec : ReviewsCache.t),
      reviews w !! steamId = Some rec ->
      REVIEWS_CACHE_DURATION < clock w - ReviewsCache.timestamp rec ->
      fst (getCachedReviews steamId w) = Ret None /\
      reviews (snd (getCachedReviews steamId w)) !! steamId = None) /\
  (forall (w : World) (appids : list Z),
      exists hits : gmap Z GameDetails.t,
        fst (getCachedGameDetailsMany appids w) = Ret hits /\
        gameDetails (snd (getCachedGameDetailsMany appids w)) = gameDetails w /\
        (forall k v, hits !! k = Some v ->
                     clock w - GameDetails.timestamp v < GAME_DETAILS_CACHE_DURATION) /\
        (keyed w ->
         forall k rec, gameDetails w !! k = Some rec ->
                       GAME_DETAILS_CACHE_DURATION < clock w - GameDetails.timestamp rec ->
                       hits !! k = None)).
Proof.
  split; [repeat split|].
  split; [|split; [|split; [|split]]].
  - intros w steamId rec Hrec Hage. run. rewrite Hrec. cbn.
    destruct (Z.ltb_spec GAMES_CACHE_DURATION (clock w - GamesCache.timestamp rec));
      [|lia].
    cbn. split; [reflexivity | apply lookup_delete_eq].
  - intros w steamId hash rec Hrec Hage. run. rewrite Hrec. cbn.
    destruct (Z.ltb_spec PERSONALITY_CACHE_DURATION
                (clock w - PersonalityCache.timestamp rec)); [|lia].
    cbn. split; [reflexivity | apply lookup_delete_eq].
  - intros w appid rec Hrec Hage. run. rewrite Hrec. cbn.
    destruct (Z.ltb_spec GAME_DETAILS_CACHE_DURATION
                (clock w - GameDetails.timestamp rec)); [|lia].
    cbn. split; [reflexivity | apply lookup_delete_eq].
  - intros w steamId rec Hrec Hage. run. rewrite Hrec. cbn.
    destruct (Z.ltb_spec REVIEWS_CACHE_DURATION (clock w - ReviewsCache.timestamp rec));
      [|lia].
    cbn. split; [reflexivity | apply lookup_delete_eq].
  - intros w appids. exists (cacheHits appids w).
    rewrite getCachedGameDetailsMany_run. cbn. repeat split.
    + intros k v Hkv. apply cacheHits_inv in Hkv as (k' & _ & _ & _ & Hf). exact Hf.
    + intros Hkeyed k rec Hrec Hage.
      destruct (cacheHits appids w !! k) as [v|] eqn:Hv; [|reflexivity].
      apply cacheHits_keyed in Hv as (_ & Hrow & Hf); [|exact Hkeyed].
      unfold fresh in Hf. assert (v = rec) by congruence. subst v. lia.
Qed.

Lemma expired_reads_witness :
  (fst (getCachedGames "u1" expiredWorld) = Ret None /\
   games (snd (getCachedGames "u1" expiredWorld)) !! "u1"%string = None) /\
  (fst (getCachedPersonality "u1" "Portal:10" expiredWorld) = Ret None /\
   personality (snd (getCachedPersonality "u1" "Portal:10" expiredWorld))
     !! "u1"%string = None) /\
  (fst (getCachedGameDetails 7 expiredWorld) = Ret None /\
   gameDetails (snd (getCachedGameDetails 7 expiredWorld)) !! 7 = None) /\
  (fst (getCachedReviews "u1" expiredWorld) = Ret None /\
   reviews (snd (getCachedReviews "u1" expiredWorld)) !! "u1"%string = None) /\
  (exists hits : gmap Z GameDetails.t,
      fst (getCachedGameDetailsMany [7] expiredWorld) = Ret hits /\
      gameDetails (snd (getCachedGameDetailsMany [7] expiredWorld))
        = gameDetails expiredWorld /\
      hits !! 7 = None).
Proof.
  destruct expired_reads as (_ & Hg & Hp & Hd & Hr & Hm).
  split; [|split; [|split; [|split]]].
  - apply (Hg expiredWorld "u1"%string (GamesCache.mk "u1" [] 0));
      [reflexivity | vm_compute; reflexivity].
  - apply (Hp expiredWorld "u1"%string "Portal:10"%string
              (PersonalityCache.mk "u1" "{INTJ}" "Portal:10" 0));
      [reflexivity | vm_compute; reflexivity].
  - apply (Hd expiredWorld 7 staleRecord); [reflexivity | vm_compute; reflexivity].
  - apply (Hr expiredWorld "u1"%string (ReviewsCache.mk "u1" [] 0 0));
      [reflexivity | vm_compute; reflexivity].
  - destruct (Hm expiredWorld [7]) as (hits & Hret & Hstore & _ & Hstale).
    exists hits. split; [exact Hret | split; [exact Hstore |]].
    apply (Hstale (keyed_singleton expiredWorld staleRecord eq_refl) 7 staleRecord);
      [reflexivity | vm_compute; reflexivity].
Defined.

(** C9 (as stated) fails: on the empty id list the batch read still calls
    [db.gameDetails.bulkGet], with an empty key list. *)
Lemma getCachedGameDetailsMany_nil_calls_bulkGet :
  db_calls (emptyWorld 0) = [] /\
  db_calls (snd (getCachedGameDetailsMany [] (emptyWorld 0)))
    = [DbBulkGet TgameDetails []] /\
  db_calls (snd (getCachedGameDetailsMany [] (emptyWorld 0)))
    <> db_calls (emptyWorld 0).
Proof. repeat split. discriminate. Qed.

(** C9 (amended): [getCachedGameDetailsMany([])] returns an empty map and
    writes nothing: the four tables are unchanged and no row is read; its
    one storage call is [bulkGet] with the empty key list. *)
Theorem getCachedGameDetailsMany_nil :
  forall w : World,
    fst (getCachedGameDetailsMany [] w) = Ret ∅ /\
    games (snd (getCachedGameDetailsMany [] w)) = games w /\
    personality (snd (getCachedGameDetailsMany [] w)) = personality w /\
    gameDetails (snd (getCachedGameDetailsMany [] w)) = gameDetails w /\
    reviews (snd (getCachedGameDetailsMany [] w)) = reviews w /\
    fst (bulkGet db_gameDetails [] w) = Ret [] /\
    db_calls (snd (getCachedGameDetailsMany [] w))
      = db_calls w ++ [DbBulkGet TgameDetails []] /\
    requests (snd (getCachedGameDetailsMany [] w)) = requests w.
Proof. intros w. repeat split. Qed.

(** *** The fingerprint *)

Example generateGamesHash_two :
  generateGamesHash showInt [("Dota 2"%string, 1200); ("Portal"%string, 10)]
  = "Dota 2:1200|Portal:10"%string.
Proof. reflexivity. Qed.

(** C10: the fingerprint depends only on the first ten entries of the list:
    two lists with the same first ten (name, hours) pairs have the same
    hash, the hash is the 'name:hours' strings of those entries joined by
    '|', and [setCachedPersonality] stores the same record for both. *)
Theorem generateGamesHash_first_ten :
  forall (Num : Type) (numberToString : Num -> string)
         (games1 games2 : list (string * Num)),
    firstn 10 games1 = firstn 10 games2 ->
    generateGamesHash numberToString games1 = generateGamesHash numberToString games2 /\
    generateGamesHash numberToString games1
      = join "|" (map (fun g => (fst g ++ ":" ++ numberToString (snd g))%string)
                      (firstn 10 games1)) /\
    (forall (steamId : string) (result : MBTIResult) (w : World),
        setCachedPersonality numberToString steamId result games1 w
        = setCachedPersonality numberToString steamId result games2 w) /\
    (forall (steamId : string) (result : MBTIResult) (w : World),
        PersonalityCache.gamesHash
          <$> personality (snd (setCachedPersonality numberToString steamId result games1 w))
              !! steamId
        = Some (generateGamesHash numberToString (firstn 10 games1))).
Proof.
  intros Num numberToString games1 games2 Heq.
  assert (Hh : generateGamesHash numberToString games1
               = generateGamesHash numberToString games2).
  { unfold generateGamesHash, slice0. now rewrite Heq. }
  split; [exact Hh|]. split; [reflexivity|]. split.
  - intros steamId result w. unfold setCachedPersonality. now rewrite Hh.
  - intros steamId result w. run. rewrite lookup_insert_eq. cbn.
    unfold generateGamesHash, slice0. now rewrite firstn_firstn.
Qed.

Lemma generateGamesHash_first_ten_witness :
  generateGamesHash showInt topGamesA = generateGamesHash showInt topGamesB /\
  topGamesA <> topGamesB.
Proof.
  split.
  - apply (generateGamesHash_first_ten Z showInt topGamesA topGamesB). reflexivity.
  - discriminate.
Defined.

(** *** The batch enrichment engine, case by case *)

Lemma collect_fold (now : Z) (results : Results) :
  forall (toCache : list GameDetails.t) (cached : gmap Z GameDetails.t),
    fold_left (collect now) results (toCache, cached)
    = (toCache ++ freshDetails now results, putAll (freshDetails now results) cached).
Proof.
  induction results as [|[k [g|]] results IH]; intros toCache cached; cbn.
  - now rewrite app_nil_r.
  - change (collect now (toCache, cached) (k, Some g))
      with (toCache ++ [detailsOf now k g], <[k := detailsOf now k g]> cached).
    rewrite IH. now rewrite <- app_assoc.
  - change (collect now (toCache, cached) (k, None)) with (toCache, cached).
    apply IH.
Qed.

Lemma putAll_inv (vs : list GameDetails.t) :
  forall (m : gmap Z GameDetails.t) (k : Z) (v : GameDetails.t),
    putAll vs m !! k = Some v ->
    m !! k = Some v \/ (In v vs /\ GameDetails.appid v = k).
Proof.
  induction vs as [|u vs IH]; intros m k v H; cbn in H; [now left|].
  apply IH in H as [H|[Hin Hk]].
  - destruct (decide (GameDetails.appid u = k)) as [Heq|Hne].
    + subst k. rewrite lookup_insert_eq in H. inversion H; subst. right. split; [now left | reflexivity].
    + rewrite lookup_insert_ne in H by exact Hne. now left.
  - right. split; [now right | exact Hk].
Qed.

Lemma putAll_other (vs : list GameDetails.t) (k : Z) :
  forall m : gmap Z GameDetails.t,
    (forall v, In v vs -> GameDetails.appid v <> k) ->
    putAll vs m !! k = m !! k.
Proof.
  induction vs as [|u vs IH]; intros m Hno; cbn; [reflexivity|].
  rewrite IH by (intros v Hv; apply Hno; now right).
  apply lookup_insert_ne. apply Hno. now left.
Qed.

Lemma putAll_mono (vs : list GameDetails.t) (k : Z) :
  forall m : gmap Z GameDetails.t,
    is_Some (m !! k) -> is_Some (putAll vs m !! k).
Proof.
  induction vs as [|u vs IH]; intros m H; cbn; [exact H|].
  apply IH. destruct (decide (GameDetails.appid u = k)) as [Heq|Hne].
  - subst k. rewrite lookup_insert_eq. eauto.
  - now rewrite lookup_insert_ne.
Qed.

Lemma putAll_written (vs : list GameDetails.t) (v : GameDetails.t) :
  forall m : gmap Z GameDetails.t,
    In v vs -> is_Some (putAll vs m !! GameDetails.appid v).
Proof.
  induction vs as [|u vs IH]; intros m Hin; [destruct Hin|].
  destruct Hin as [->|Hin]; cbn.
  - apply putAll_mono. rewrite lookup_insert_eq. eauto.
  - now apply IH.
Qed.

Lemma freshDetails_In (now : Z) (results : Results) (v : GameDetails.t) :
  In v (freshDetails now results) <->
  exists k g, In (k, Some g) results /\ v = detailsOf now k g.
Proof.
  unfold freshDetails. rewrite in_flat_map. split.
  - intros ([k [g|]] & Hin & Hv); cbn in Hv; [|destruct Hv].
    destruct Hv as [<-|[]]. eauto.
  - intros (k & g & Hin & ->). exists (k, Some g). split; [exact Hin | now left].
Qed.

Lemma resolvedIds_Json (r : Reply) (resp : Response) (results : Results) (k : Z) :
  outcome r = Responded resp -> ok resp = true -> body resp = Json results ->
  (In k (resolvedIds r) <-> exists g, In (k, Some g) results).
Proof.
  intros Ho Hok Hb. unfold resolvedIds. rewrite Ho, Hok, Hb.
  rewrite in_map_iff. split.
  - intros ([k' [g|]] & Hk & Hin); cbn in Hk; subst;
      apply filter_In in Hin as [Hin Hs]; cbn in Hs.
    + eauto.
    + discriminate Hs.
  - intros (g & Hin). exists (k, Some g). split; [reflexivity|].
    apply filter_In. split; [exact Hin | reflexivity].
Qed.

(** The world after the batch read and, when a request is sent, after the
    reply has arrived. *)
Lemma fetchAndCacheGameDetails_run (remote : Remote) (appids : list Z) (w : World) :
  let hits := cacheHits appids w in
  let misses := cacheMisses appids w in
  let w0 := log_db (DbBulkGet TgameDetails (map KNum appids)) w in
  let w1 := advance (elapsed (remote misses)) (log_request misses w0) in
  fetchAndCacheGameDetails remote appids w =
  match misses with
  | [] => (Ret hits, w0)
  | _ :: _ =>
      match outcome (remote misses) with
      | Rejected => (Ret hits, w1)
      | Responded resp =>
          if ok resp then
            match body resp with
            | Malformed => (Ret hits, w1)
            | Json results =>
                let vs := freshDetails (clock w1) results in
                (Ret (putAll vs hits),
                 match vs with
                 | [] => w1
                 | _ :: _ =>
                     log_db (DbBulkPut TgameDetails
                               (map (fun v => KNum (GameDetails.appid v)) vs))
                            (set_rows db_gameDetails (putAll vs (gameDetails w1)) w1)
                 end)
            end
          else (Ret hits, w1)
      end
  end.
Proof.
  cbn zeta. unfold fetchAndCacheGameDetails, bind. rewrite getCachedGameDetailsMany_run.
  fold (cacheMisses appids w). destruct (cacheMisses appids w) as [|m ms] eqn:Hm.
  - reflexivity.
  - replace (Z.of_nat (length (m :: ms)) =? 0) with false
      by (symmetry; apply Z.eqb_neq; cbn [length]; lia).
    unfold try_catch, bind, fetch_apps.
    destruct (outcome (remote (m :: ms))) as [|resp]; [reflexivity|].
    destruct (ok resp); cbn [negb]; [|reflexivity].
    unfold json. destruct (body resp) as [|results]; [reflexivity|].
    unfold ret, Date_now. rewrite collect_fold. cbn [fst snd app].
    destruct (freshDetails _ results) as [|v vs] eqn:Hvs; [reflexivity|].
    replace (0 <? Z.of_nat (length (v :: vs))) with true
      by (symmetry; apply Z.ltb_lt; cbn [length]; lia).
    reflexivity.
Qed.

Lemma cacheMisses_not_hit (appids : list Z) (w : World) (id : Z) :
  In id (cacheMisses appids w) <-> In id appids /\ cacheHits appids w !! id = None.
Proof.
  unfold cacheMisses. rewrite filter_In. unfold has.
  split; intros [Hin H]; (split; [exact Hin|]).
  - apply negb_true_iff, bool_decide_eq_false in H.
    destruct (cacheHits appids w !! id); [exfalso; apply H; eauto | reflexivity].
  - apply negb_true_iff, bool_decide_eq_false. rewrite H. now intros [? [=]].
Qed.

(** C5: an id sent to the remote (a requested id that is not a cache hit)
    that the response omits or marks unsuccessful is not in the returned
    map, its slot in the gameDetails store is what it was before the call,
    and no [bulkPut] of the call carries its key. *)
Theorem unresolved_id_not_cached_not_returned :
  forall (remote : Remote) (appids : list Z) (w : World) (id : Z),
    In id (cacheMisses appids w) ->
    ~ In id (resolvedIds (remote (cacheMisses appids w))) ->
    exists result : gmap Z GameDetails.t,
      fst (fetchAndCacheGameDetails remote appids w) = Ret result /\
      result !! id = None /\
      gameDetails (snd (fetchAndCacheGameDetails remote appids w)) !! id
        = gameDetails w !! id /\
      (forall ks, In (DbBulkPut TgameDetails ks)
                     (db_calls (snd (fetchAndCacheGameDetails remote appids w))) ->
                  In (DbBulkPut TgameDetails ks) (db_calls w) \/ ~ In (KNum id) ks).
Proof.
  intros remote appids w id Hmiss Hunres.
  pose proof (proj1 (cacheMisses_not_hit appids w id) Hmiss) as [_ Hnohit].
  rewrite fetchAndCacheGameDetails_run. cbn zeta.
  destruct (cacheMisses appids w) as [|m ms] eqn:Hm; [destruct Hmiss|].
  assert (Hlog : forall ks,
             In (DbBulkPut TgameDetails ks)
                (db_calls w ++ [DbBulkGet TgameDetails (map KNum appids)]) ->
             In (DbBulkPut TgameDetails ks) (db_calls w) \/ ~ In (KNum id) ks).
  { intros ks Hin. apply in_app_or in Hin as [Hin|[Hin|[]]];
      [now left | discriminate Hin]. }
  destruct (outcome (remote (m :: ms))) as [|resp] eqn:Ho.
  { exists (cacheHits appids w). cbn. repeat split; auto. }
  destruct (ok resp) eqn:Hok.
  2:{ exists (cacheHits appids w). cbn. repeat split; auto. }
  destruct (body resp) as [|results] eqn:Hb.
  { exists (cacheHits appids w). cbn. repeat split; auto. }
  set (now := clock _).
  assert (Hno : forall v, In v (freshDetails now results) -> GameDetails.appid v <> id).
  { intros v Hv Hid. apply freshDetails_In in Hv as (k & g & Hin & ->). cbn in Hid.
    subst k. apply Hunres.
    apply (resolvedIds_Json _ resp results id Ho Hok Hb). eauto. }
  exists (putAll (freshDetails now results) (cacheHits appids w)).
  split; [reflexivity|]. split; [now rewrite putAll_other|].
  destruct (freshDetails now results) as [|v vs] eqn:Hvs.
  - cbn. split; [reflexivity | exact Hlog].
  - cbn -[putAll map]. split; [now rewrite putAll_other|].
    intros ks Hin. apply in_app_or in Hin as [Hin|[Hin|[]]].
    + now apply Hlog.
    + right. injection Hin as <-. intros Hk.
      assert (Hk' : In (KNum id)
                       (map (fun u => KNum (GameDetails.appid u)) (v :: vs))) by exact Hk.
      apply in_map_iff in Hk' as (u & Hu & Hin'). injection Hu as Hu.
      now apply (Hno u).
Qed.

(** The scenario of the specification: ids 1, 2, 3 are requested on an
    empty cache and the remote resolves 1 and 3. *)
Lemma unresolved_id_not_cached_not_returned_witness :
  exists result : gmap Z GameDetails.t,
    fst (fetchAndCacheGameDetails remote13 [1; 2; 3] (emptyWorld 0)) = Ret result /\
    result !! 2 = None /\
    gameDetails (snd (fetchAndCacheGameDetails remote13 [1; 2; 3] (emptyWorld 0))) !! 2
      = gameDetails (emptyWorld 0) !! 2 /\
    (forall ks, In (DbBulkPut TgameDetails ks)
                   (db_calls (snd (fetchAndCacheGameDetails remote13 [1; 2; 3]
                                     (emptyWorld 0)))) ->
                In (DbBulkPut TgameDetails ks) (db_calls (emptyWorld 0))
                \/ ~ In (KNum 2) ks).
Proof.
  apply (unresolved_id_not_cached_not_returned remote13 [1; 2; 3] (emptyWorld 0) 2).
  - vm_compute. right. left. reflexivity.
  - vm_compute. intros [H|[H|[]]]; discriminate H.
Defined.

Example batch_1_2_3_resolving_1_3 :
  let w' := snd (fetchAndCacheGameDetails remote13 [1; 2; 3] (emptyWorld 0)) in
  let written : gmap Z GameDetails.t :=
    <[3 := detailsOf 120 3 someGame]> (<[1 := detailsOf 120 1 someGame]> ∅) in
  fst (fetchAndCacheGameDetails remote13 [1; 2; 3] (emptyWorld 0)) = Ret written /\
  gameDetails w' = written /\
  written !! 2 = None /\
  requests w' = [[1; 2; 3]] /\
  db_calls w' = [DbBulkGet TgameDetails [KNum 1; KNum 2; KNum 3];
                 DbBulkPut TgameDetails [KNum 1; KNum 3]].
Proof. repeat split. Qed.

(** C6: [fetchAndCacheGameDetails] never rejects; and when the batched
    request fails (the transport rejects, the status is not a success, or
    the body does not parse) it returns exactly the map of cache hits
    gathered before the request and writes nothing. *)
Theorem failed_request_returns_hits :
  forall (remote : Remote) (appids : list Z) (w : World),
    (exists result, fst (fetchAndCacheGameDetails remote appids w) = Ret result) /\
    (requestFails (remote (cacheMisses appids w)) = true ->
     fst (fetchAndCacheGameDetails remote appids w) = Ret (cacheHits appids w) /\
     fst (getCachedGameDetailsMany appids w) = Ret (cacheHits appids w) /\
     gameDetails (snd (fetchAndCacheGameDetails remote appids w)) = gameDetails w).
Proof.
  intros remote appids w. rewrite fetchAndCacheGameDetails_run. cbn zeta.
  unfold requestFails.
  destruct (cacheMisses appids w) as [|m ms]; [split; [eauto | now intros _]|].
  destruct (outcome (remote (m :: ms))) as [|resp]; [split; [eauto | now intros _]|].
  destruct (ok resp); [|split; [eauto | now intros _]].
  destruct (body resp) as [|results]; [split; [eauto | now intros _]|].
  split; [eauto | discriminate].
Qed.

Lemma failed_request_returns_hits_witness :
  (fst (fetchAndCacheGameDetails remoteDown [1; 7] staleWorld)
     = Ret (cacheHits [1; 7] staleWorld) /\
   fst (getCachedGameDetailsMany [1; 7] staleWorld) = Ret (cacheHits [1; 7] staleWorld) /\
   gameDetails (snd (fetchAndCacheGameDetails remoteDown [1; 7] staleWorld))
     = gameDetails staleWorld) /\
  (fst (fetchAndCacheGameDetails remote500 [42; 5] legacyWorld)
     = Ret (cacheHits [42; 5] legacyWorld) /\
   fst (getCachedGameDetailsMany [42; 5] legacyWorld)
     = Ret (cacheHits [42; 5] legacyWorld) /\
   gameDetails (snd (fetchAndCacheGameDetails remote500 [42; 5] legacyWorld))
     = gameDetails legacyWorld).
Proof.
  split.
  - apply (failed_request_returns_hits remoteDown [1; 7] staleWorld). reflexivity.
  - apply (failed_request_returns_hits remote500 [42; 5] legacyWorld). reflexivity.
Defined.

Example failed_request_still_sent :
  requests (snd (fetchAndCacheGameDetails remote500 [42; 5] legacyWorld)) = [[5]] /\
  cacheHits [42; 5] legacyWorld = {[ 42 := legacyRecord ]}.
Proof. split; reflexivity. Qed.

(** *** Two calls in a row *)

Lemma putAll_keyed (vs : list GameDetails.t) (m : gmap Z GameDetails.t) :
  (forall k v, m !! k = Some v -> GameDetails.appid v = k) ->
  forall k v, putAll vs m !! k = Some v -> GameDetails.appid v = k.
Proof.
  intros Hm k v H. apply putAll_inv in H as [H|[_ H]]; [now apply Hm | exact H].
Qed.

(** What a call leaves in the gameDetails store: the rows it found plus the
    rows built from the reply, one for every resolved id. *)
Lemma fetchAndCacheGameDetails_store (remote : Remote) (appids : list Z) (w : World) :
  exists vs : list GameDetails.t,
    gameDetails (snd (fetchAndCacheGameDetails remote appids w))
      = putAll vs (gameDetails w) /\
    (forall id, In id (cacheMisses appids w) ->
                In id (resolvedIds (remote (cacheMisses appids w))) ->
                exists v, In v vs /\ GameDetails.appid v = id).
Proof.
  rewrite fetchAndCacheGameDetails_run. cbn zeta.
  destruct (cacheMisses appids w) as [|m ms] eqn:Hm.
  { exists []. split; [reflexivity | intros id []]. }
  unfold resolvedIds.
  destruct (outcome (remote (m :: ms))) as [|resp] eqn:Ho.
  { exists []. split; [reflexivity | intros id _ []]. }
  destruct (ok resp) eqn:Hok.
  2:{ exists []. split; [reflexivity | intros id _ []]. }
  destruct (body resp) as [|results] eqn:Hb.
  { exists []. split; [reflexivity | intros id _ []]. }
  set (now := clock _). exists (freshDetails now results). split.
  - destruct (freshDetails now results); reflexivity.
  - intros id _ Hres. apply in_map_iff in Hres as ([k [g|]] & Hk & Hin);
      cbn in Hk; subst; apply filter_In in Hin as [Hin Hs]; [|discriminate Hs].
    exists (detailsOf now id g). split; [|reflexivity].
    apply freshDetails_In. eauto.
Qed.

Lemma filter_all_false {A} (f : A -> bool) (l : list A) :
  (forall x, In x l -> f x = false) -> List.filter f l = [].
Proof.
  induction l as [|a l IH]; intros H; cbn; [reflexivity|].
  rewrite (H a) by now left. apply IH. intros x Hx. apply H. now right.
Qed.

Lemma no_miss_no_request (remote : Remote) (appids : list Z) (w : World) :
  cacheMisses appids w = [] ->
  fetchAndCacheGameDetails remote appids w = getCachedGameDetailsMany appids w.
Proof.
  intros Hm. rewrite fetchAndCacheGameDetails_run, getCachedGameDetailsMany_run.
  cbn zeta. now rewrite Hm.
Qed.

(** C4 (as stated) fails: id 2 is requested twice in a row on an empty
    cache from a remote that does not resolve it; nothing is cached by the
    first call, and the second call sends the request again. *)
Lemma second_call_refetches_unresolved_id :
  let w1 := snd (fetchAndCacheGameDetails remoteNone [2] (emptyWorld 0)) in
  requests w1 = [[2]] /\
  gameDetails w1 = gameDetails (emptyWorld 0) /\
  requests (snd (fetchAndCacheGameDetails remoteNone [2] w1)) = [[2]; [2]] /\
  requests (snd (fetchAndCacheGameDetails remoteNone [2] w1)) <> requests w1.
Proof. repeat split. discriminate. Qed.

(** C4 (amended): when the cache-miss partition is empty,
    [fetchAndCacheGameDetails] returns the cache-hit map right after the
    batch read and sends no request.  So a second call with the same id
    list sends no request provided the first call left every requested id
    cached (the remote resolved every miss) and none of those records has
    expired by the time of the second call; an id the remote did not
    resolve is not cached and is requested again. *)
Theorem second_call_sends_no_request :
  (forall (remote : Remote) (appids : list Z) (w : World),
      cacheMisses appids w = [] ->
      fst (fetchAndCacheGameDetails remote appids w) = Ret (cacheHits appids w) /\
      requests (snd (fetchAndCacheGameDetails remote appids w)) = requests w /\
      gameDetails (snd (fetchAndCacheGameDetails remote appids w)) = gameDetails w) /\
  (forall (remote1 remote2 : Remote) (appids : list Z) (w : World) (dt : Z),
      keyed w ->
      (forall id, In id (cacheMisses appids w) ->
                  In id (resolvedIds (remote1 (cacheMisses appids w)))) ->
      (forall id v,
          In id appids ->
          gameDetails (snd (fetchAndCacheGameDetails remote1 appids w)) !! id = Some v ->
          fresh (clock (snd (fetchAndCacheGameDetails remote1 appids w)) + dt) v) ->
      cacheMisses appids
        (advance dt (snd (fetchAndCacheGameDetails remote1 appids w))) = [] /\
      requests (snd (fetchAndCacheGameDetails remote2 appids
                       (advance dt (snd (fetchAndCacheGameDetails remote1 appids w)))))
        = requests (snd (fetchAndCacheGameDetails remote1 appids w)) /\
      (exists result,
          fst (fetchAndCacheGameDetails remote2 appids
                 (advance dt (snd (fetchAndCacheGameDetails remote1 appids w))))
            = Ret result /\
          forall id, In id appids -> is_Some (result !! id))).
Proof.
  split.
  - intros remote appids w Hm. rewrite (no_miss_no_request remote appids w Hm).
    rewrite getCachedGameDetailsMany_run. repeat split.
  - intros remote1 remote2 appids w dt Hkeyed Hres Hfresh.
    set (w1 := snd (fetchAndCacheGameDetails remote1 appids w)) in *.
    destruct (fetchAndCacheGameDetails_store remote1 appids w) as (vs & Hstore & Hvs).
    fold w1 in Hstore.
    assert (Hkeyed1 : keyed (advance dt w1)).
    { intros k v. cbn. rewrite Hstore. now apply putAll_keyed. }
    assert (Hall : forall id, In id appids ->
                     exists v, cacheHits appids (advance dt w1) !! id = Some v).
    { intros id Hin.
      assert (is_Some (gameDetails w1 !! id)) as [v Hv].
      { rewrite Hstore.
        destruct (cacheHits appids w !! id) as [u|] eqn:Hhit.
        - apply putAll_mono. apply cacheHits_keyed in Hhit as (_ & Hrow & _);
            [eauto | exact Hkeyed].
        - assert (Hmiss : In id (cacheMisses appids w))
            by (apply cacheMisses_not_hit; auto).
          destruct (Hvs id Hmiss (Hres id Hmiss)) as (u & Hu & <-).
          now apply putAll_written. }
      exists v. apply cacheHits_hit; auto. cbn. now apply (Hfresh id). }
    assert (Hm : cacheMisses appids (advance dt w1) = []).
    { unfold cacheMisses. apply filter_all_false. intros id Hin.
      destruct (Hall id Hin) as [v Hv]. unfold has. rewrite Hv.
      apply negb_false_iff, bool_decide_eq_true. eauto. }
    split; [exact Hm|]. rewrite (no_miss_no_request remote2 appids _ Hm).
    rewrite getCachedGameDetailsMany_run. split; [reflexivity|].
    exists (cacheHits appids (advance dt w1)). split; [reflexivity|].
    intros id Hin. destruct (Hall id Hin) as [v Hv]. eauto.
Qed.

Lemma second_call_sends_no_request_witness :
  let w1 := snd (fetchAndCacheGameDetails remoteAll [42; 1; 2] legacyWorld) in
  cacheMisses [42; 1; 2] (advance 1000 w1) = [] /\
  requests (snd (fetchAndCacheGameDetails remoteDown [42; 1; 2] (advance 1000 w1)))
    = requests w1 /\
  (exists result,
      fst (fetchAndCacheGameDetails remoteDown [42; 1; 2] (advance 1000 w1))
        = Ret result /\
      forall id, In id [42; 1; 2] -> is_Some (result !! id)).
Proof.
  destruct second_call_sends_no_request as [_ H].
  apply (H remoteAll remoteDown [42; 1; 2] legacyWorld 1000).
  - apply (keyed_singleton legacyWorld legacyRecord). reflexivity.
  - intros id Hin. vm_compute in Hin. vm_compute. exact Hin.
  - intros id v Hin Hv.
    destruct Hin as [<-|[<-|[<-|[]]]]; vm_compute in Hv; injection Hv as <-;
      vm_compute; reflexivity.
Defined.

Example first_call_requests_the_misses :
  requests (snd (fetchAndCacheGameDetails remoteAll [42; 1; 2] legacyWorld)) = [[1; 2]].
Proof. reflexivity. Qed.

(** *** The rate-limited fetcher *)

Lemma rateLimit_timeouts (s : Route.Server) :
  Route.timeouts
    (if Route.now s - Route.lastRequestTime s <? Route.MIN_REQUEST_INTERVAL
     then Route.sleep (Route.MIN_REQUEST_INTERVAL
                       - (Route.now s - Route.lastRequestTime s)) s
     else s)
  = Route.timeouts s ++ Route.rateLimitWait s.
Proof.
  unfold Route.rateLimitWait.
  destruct (Route.now s - Route.lastRequestTime s <? Route.MIN_REQUEST_INTERVAL); cbn;
    [reflexivity | now rewrite app_nil_r].
Qed.

Lemma rateLimit_fetched (s : Route.Server) :
  Route.fetched
    (if Route.now s - Route.lastRequestTime s <? Route.MIN_REQUEST_INTERVAL
     then Route.sleep (Route.MIN_REQUEST_INTERVAL
                       - (Route.now s - Route.lastRequestTime s)) s
     else s)
  = Route.fetched s.
Proof.
  now destruct (Route.now s - Route.lastRequestTime s <? Route.MIN_REQUEST_INTERVAL).
Qed.

(** C7: [fetchWithRateLimit] sends the request, and sends it again only
    after a throttling response (403 or 429), at most 2 more times; it waits
    2000 ms before the first retry and 4000 ms before the second; the
    response of the last request sent is what the caller receives, be it a
    success, another non-success status (returned at once, without retry) or
    the throttling response left when the retries are used up; the trailing
    throw of 'Max retries exceeded' is never reached. *)
Lemma retry_loop_spec (upstream : nat -> Route.Reply) (todo : list Z) :
  forall (delay : Z) (s : Route.Server),
    Route.counted todo ->
    let out := Route.retry_loop upstream todo delay s in
    let reply (i : nat) := Route.result (upstream (i + Route.fetched s)%nat) in
    fst out <> Route.Thrown Route.MaxRetriesExceeded /\
    exists retries : nat,
      (retries < length todo)%nat /\
      Route.fetched (snd out) = (retries + 1 + Route.fetched s)%nat /\
      Route.timeouts (snd out) = Route.timeouts s ++ Route.backoff delay retries /\
      (forall i, (i < retries)%nat ->
                 exists r, reply i = Route.Answers r /\ Route.throttled r = true) /\
      match reply retries with
      | Route.Unreachable => fst out = Route.Thrown Route.FetchFailed
      | Route.Answers r =>
          fst out = Route.Returned r /\
          ((S retries < length todo)%nat -> Route.throttled r = false)
      end.
Proof.
  induction todo as [|attempt rest IH]; intros delay s Hc; [destruct Hc|].
  cbn zeta. cbn [Route.retry_loop]. unfold Route.fetch.
  destruct (Route.result (upstream (Route.fetched s))) as [|r] eqn:Hr.
  { split; [discriminate|]. exists 0%nat. cbn. rewrite Hr, app_nil_r.
    repeat split; try lia. }
  unfold Route.throttled at 2.
  destruct (Route.ok r) eqn:Hok.
  { split; [discriminate|]. exists 0%nat. cbn. rewrite Hr, app_nil_r, Hok.
    repeat split; try lia. }
  destruct ((Route.status r =? 403) || (Route.status r =? 429)) eqn:Hst.
  2:{ split; [discriminate|]. exists 0%nat. cbn. rewrite Hr, app_nil_r, Hok, Hst.
      repeat split; try lia. }
  destruct (attempt <? Route.maxRetries) eqn:Hlt; cbn [andb negb].
  - assert (Hrest : Route.counted rest).
    { destruct rest as [|a rest']; cbn in Hc; [congruence | tauto]. }
    set (s' := Route.sleep delay _).
    specialize (IH (delay * 2) s' Hrest). cbn zeta in IH.
    destruct IH as (Hnot & n & Hn & Hf & Ht & Hprev & Hlast).
    split; [exact Hnot|]. exists (S n).
    assert (Hidx : forall i, (i + Route.fetched s')%nat = (S i + Route.fetched s)%nat).
    { intros i. subst s'. cbn. lia. }
    split; [cbn [length]; lia|].
    split; [rewrite Hf; subst s'; cbn; lia|].
    split; [rewrite Ht; subst s'; cbn; now rewrite <- app_assoc|].
    split.
    + intros [|i] Hi.
      * exists r. cbn. unfold Route.throttled. now rewrite Hr, Hok, Hst.
      * destruct (Hprev i ltac:(lia)) as (r' & Hr' & Hth). exists r'.
        now rewrite <- Hidx.
    + rewrite <- Hidx.
      destruct (Route.result (upstream (n + Route.fetched s')%nat)) as [|r'];
        [exact Hlast|].
      destruct Hlast as [Hout Hth]. split; [exact Hout|].
      intros Hlen. apply Hth. cbn [length] in Hlen. lia.
  - assert (rest = []) as ->.
    { destruct rest as [|a rest']; cbn in Hc; [reflexivity | destruct Hc; congruence]. }
    split; [discriminate|]. exists 0%nat. cbn. rewrite Hr, app_nil_r.
    repeat split; try lia.
Qed.

(** C7: [fetchWithRateLimit] sends the request, and sends it again only
    after a throttling response (403 or 429), at most 2 more times; it waits
    2000 ms before the first retry and 4000 ms before the second; the
    response of the last request sent is what the caller receives, be it a
    success, another non-success status (returned at once, without retry) or
    the throttling response left when the retries are used up; the trailing
    throw of 'Max retries exceeded' is never reached. *)
Theorem fetchWithRateLimit_retries :
  forall (upstream : nat -> Route.Reply) (s : Route.Server),
    let out := Route.fetchWithRateLimit upstream s in
    let reply (i : nat) := Route.result (upstream (i + Route.fetched s)%nat) in
    fst out <> Route.Thrown Route.MaxRetriesExceeded /\
    exists retries : nat,
      (retries <= 2)%nat /\
      Route.fetched (snd out) = (retries + 1 + Route.fetched s)%nat /\
      Route.timeouts (snd out)
        = Route.timeouts s ++ Route.rateLimitWait s ++ firstn retries [2000; 4000] /\
      (forall i, (i < retries)%nat ->
                 exists r, reply i = Route.Answers r /\ Route.throttled r = true) /\
      match reply retries with
      | Route.Unreachable => fst out = Route.Thrown Route.FetchFailed
      | Route.Answers r =>
          fst out = Route.Returned r /\
          ((retries < 2)%nat -> Route.throttled r = false)
      end.
Proof.
  intros upstream s. cbn zeta. unfold Route.fetchWithRateLimit.
  set (s1 := if _ <? _ then _ else _).
  set (s2 := Route.mkServer _ _ _ _).
  assert (Ht : Route.timeouts s2 = Route.timeouts s ++ Route.rateLimitWait s)
    by apply rateLimit_timeouts.
  assert (Hf : Route.fetched s2 = Route.fetched s) by apply rateLimit_fetched.
  assert (Hc : Route.counted Route.attempts) by (vm_compute; auto).
  destruct (retry_loop_spec upstream Route.attempts 2000 s2 Hc)
    as (Hnot & n & Hn & Hfetched & Htimeouts & Hprev & Hlast).
  rewrite Hf in *. split; [exact Hnot|]. exists n.
  change (length Route.attempts) with 3%nat in *.
  split; [lia|]. split; [exact Hfetched|]. split.
  - rewrite Htimeouts, Ht, <- app_assoc.
    destruct n as [|[|[|n]]]; [reflexivity .. | lia].
  - split; [exact Hprev|].
    destruct (Route.result (upstream (n + Route.fetched s)%nat)); [exact Hlast|].
    destruct Hlast as [Hout Hth]. split; [exact Hout|]. intros Hlt. apply Hth. lia.
Qed.

Lemma fetchWithRateLimit_retries_witness :
  fst (Route.fetchWithRateLimit (Route.replying [429; 403; 429]) Route.busy)
    <> Route.Thrown Route.MaxRetriesExceeded.
Proof.
  exact (proj1 (fetchWithRateLimit_retries (Route.replying [429; 403; 429]) Route.busy)).
Defined.

(** Three throttling responses: two retries after 2000 and 4000 ms (the
    first 400 ms are the rate limiter), and the third response is returned. *)
Example fetchWithRateLimit_exhausted :
  Route.fetchWithRateLimit (Route.replying [429; 403; 429]) Route.busy
  = (Route.Returned (Route.mkSteamResponse 429 EmptyString),
     Route.mkServer 100400 106550 [400; 2000; 4000] 3).
Proof. reflexivity. Qed.

(** A 500 is returned at once; a 429 followed by a 200 costs one retry. *)
Example fetchWithRateLimit_other_status :
  Route.fetchWithRateLimit (Route.replying [500; 200]) Route.idle
  = (Route.Returned (Route.mkSteamResponse 500 EmptyString),
     Route.mkServer 100000 100050 [] 1).
Proof. reflexivity. Qed.

Example fetchWithRateLimit_one_retry :
  Route.fetchWithRateLimit (Route.replying [429; 200]) Route.idle
  = (Route.Returned (Route.mkSteamResponse 200 EmptyString),
     Route.mkServer 100000 102100 [2000] 2).
Proof. reflexivity. Qed.

(** *** The collage layout *)

Section CollageFacts.
Variables (PI : Q) (cos sin sqrt : Q -> Q).

Lemma rectsOverlap_sym (r1 r2 : Collage.Rect) :
  Collage.rectsOverlap r1 r2 = Collage.rectsOverlap r2 r1.
Proof.
  unfold Collage.rectsOverlap. f_equal.
  destruct (Qle_bool (Collage.x r1 + Collage.w r1) (Collage.x r2)),
           (Qle_bool (Collage.x r2 + Collage.w r2) (Collage.x r1)),
           (Qle_bool (Collage.y r1 + Collage.h r1) (Collage.y r2)),
           (Qle_bool (Collage.y r2 + Collage.h r2) (Collage.y r1)); reflexivity.
Qed.

Lemma hasOverlap_false (r : Collage.Rect) (placed : list Collage.GameBox.t) :
  Collage.hasOverlap r placed = false ->
  forall b, In b placed -> Collage.rectsOverlap r (Collage.rectOf b) = false.
Proof.
  induction placed as [|p placed IH]; intros H b Hin; [destruct Hin|].
  cbn in H. destruct (Collage.rectsOverlap r (Collage.rectOf p)) eqn:Hp; [discriminate|].
  destruct Hin as [<-|Hin]; [exact Hp | now apply IH].
Qed.

Lemma NoOverlap_nil : Collage.NoOverlap [].
Proof. intros i j b1 b2 _ H. rewrite lookup_nil in H. discriminate. Qed.

Lemma NoOverlap_snoc (placed : list Collage.GameBox.t) (b : Collage.GameBox.t) :
  Collage.NoOverlap placed ->
  Collage.hasOverlap (Collage.rectOf b) placed = false ->
  Collage.NoOverlap (placed ++ [b]).
Proof.
  intros Hl Hb i j b1 b2 Hij H1 H2.
  pose proof (hasOverlap_false _ _ Hb) as Hnew.
  apply lookup_app_Some in H1 as [H1|[Hi H1]];
    apply lookup_app_Some in H2 as [H2|[Hj H2]].
  - exact (Hl i j b1 b2 Hij H1 H2).
  - apply list_lookup_singleton_Some in H2 as [_ <-].
    rewrite rectsOverlap_sym. apply Hnew.
    apply list_elem_of_In, list_elem_of_lookup. eauto.
  - apply list_lookup_singleton_Some in H1 as [_ <-].
    apply Hnew. apply list_elem_of_In, list_elem_of_lookup. eauto.
  - apply list_lookup_singleton_Some in H1 as [Hi0 _].
    apply list_lookup_singleton_Some in H2 as [Hj0 _]. lia.
Qed.

Lemma tryPoint_Clear (box : Collage.Box) (placed : list Collage.GameBox.t)
    (cw ch cx cy : Q) (radius numPoints : Z) (best : Collage.Best) (i : Z) :
  Collage.Clear box placed best ->
  Collage.Clear box placed
    (Collage.tryPoint PI cos sin sqrt box placed cw ch cx cy radius numPoints best i).
Proof.
  intros Hbest. unfold Collage.tryPoint.
  destruct (_ || _ || _ || _); [exact Hbest|].
  destruct (Collage.hasOverlap _ placed) eqn:Hov; cbn [negb]; [exact Hbest|].
  destruct (Collage.closer _ _); [|exact Hbest].
  intros pos Hpos. cbn in Hpos. injection Hpos as <-. exact Hov.
Qed.

Lemma tryCircle_Clear (box : Collage.Box) (placed : list Collage.GameBox.t)
    (cw ch cx cy : Q) (radius : Z) (best : Collage.Best) :
  Collage.Clear box placed best ->
  Collage.Clear box placed
    (Collage.tryCircle PI cos sin sqrt box placed cw ch cx cy radius best).
Proof.
  unfold Collage.tryCircle. generalize (Collage.upto
    (Z.max 8 (Qfloor (2 * PI * inject_Z radius / inject_Z Collage.step)))).
  intros points. revert best.
  induction points as [|i points IH]; intros best Hbest; cbn; [exact Hbest|].
  apply IH. now apply tryPoint_Clear.
Qed.

Lemma radiusLoop_Clear (box : Collage.Box) (placed : list Collage.GameBox.t)
    (cw ch cx cy : Q) (todo : list Z) :
  forall best : Collage.Best,
    Collage.Clear box placed best ->
    Collage.Clear box placed
      (Collage.radiusLoop PI cos sin sqrt box placed cw ch cx cy todo best).
Proof.
  induction todo as [|radius todo IH]; intros best Hbest; cbn; [exact Hbest|].
  destruct (fst best); [exact Hbest|]. apply IH. now apply tryCircle_Clear.
Qed.

Lemma placeBox_NoOverlap (cw ch : Q) (placed : list Collage.GameBox.t)
    (box : Collage.Box) :
  Collage.NoOverlap placed ->
  Collage.NoOverlap (Collage.placeBox PI cos sin sqrt cw ch placed box).
Proof.
  intros Hl. unfold Collage.placeBox.
  set (best := if negb _ then _ else _).
  assert (Hbest : Collage.Clear box placed best).
  { subst best.
    destruct (Collage.hasOverlap _ placed) eqn:Hov; cbn [negb].
    - apply radiusLoop_Clear. intros pos Hpos. discriminate Hpos.
    - intros pos Hpos. cbn in Hpos. injection Hpos as <-. exact Hov. }
  destruct (fst best) as [pos|] eqn:Hpos; [|exact Hl].
  apply NoOverlap_snoc; [exact Hl|]. apply (Hbest pos Hpos).
Qed.

Lemma spiralPlacement_from (cw ch : Q) (boxes : list Collage.Box) :
  forall placed : list Collage.GameBox.t,
    Collage.NoOverlap placed ->
    Collage.NoOverlap (fold_left (Collage.placeBox PI cos sin sqrt cw ch) boxes placed).
Proof.
  induction boxes as [|box boxes IH]; intros placed Hl; cbn; [exact Hl|].
  apply IH. now apply placeBox_NoOverlap.
Qed.

Lemma below_min_from (acc : option Q) (v v' : Q) :
  Collage.below acc v' -> Collage.below (Collage.min_from acc v) v'.
Proof.
  destruct acc as [m|]; cbn; [|tauto].
  intros H. eapply Qle_trans; [apply Q.le_min_l | exact H].
Qed.

Lemma below_min_from_new (acc : option Q) (v : Q) :
  Collage.below (Collage.min_from acc v) v.
Proof. destruct acc as [m|]; cbn; [apply Q.le_min_r | apply Qle_refl]. Qed.

Lemma above_max_from (acc : option Q) (v v' : Q) :
  Collage.above acc v' -> Collage.above (Collage.max_from acc v) v'.
Proof.
  destruct acc as [m|]; cbn; [|tauto].
  intros H. eapply Qle_trans; [exact H | apply Q.le_max_l].
Qed.

Lemma above_max_from_new (acc : option Q) (v : Q) :
  Collage.above (Collage.max_from acc v) v.
Proof. destruct acc as [m|]; cbn; [apply Q.le_max_r | apply Qle_refl]. Qed.

Lemma getBoundingBox_from (boxes : list Collage.GameBox.t) :
  forall (acc : Collage.Bounds) (seen : list Collage.GameBox.t),
    Collage.Encloses acc seen ->
    Collage.Encloses
      (fold_left
         (fun b box =>
            Collage.mkBounds
              (Collage.min_from (Collage.minX b) (Collage.GameBox.x box))
              (Collage.min_from (Collage.minY b) (Collage.GameBox.y box))
              (Collage.max_from (Collage.maxX b)
                 (Collage.GameBox.x box + Collage.GameBox.w box))
              (Collage.max_from (Collage.maxY b)
                 (Collage.GameBox.y box + Collage.GameBox.h box)))
         boxes acc)
      (seen ++ boxes).
Proof.
  induction boxes as [|box boxes IH]; intros acc seen Hacc; cbn [fold_left].
  - now rewrite app_nil_r.
  - replace (seen ++ box :: boxes) with ((seen ++ [box]) ++ boxes)
      by now rewrite <- app_assoc.
    apply IH. intros b Hb. apply in_app_or in Hb as [Hb|[<-|[]]]; cbn.
    + destruct (Hacc b Hb) as (H1 & H2 & H3 & H4).
      auto using below_min_from, above_max_from.
    + auto using below_min_from_new, above_max_from_new.
Qed.

Lemma getBoundingBox_encloses (boxes : list Collage.GameBox.t) :
  Collage.Encloses (Collage.getBoundingBox boxes) boxes.
Proof.
  unfold Collage.getBoundingBox.
  apply (getBoundingBox_from boxes (Collage.mkBounds None None None None) []).
  intros b [].
Qed.

(** The list [radii] is the sequence of values of the loop variable:
    the multiples [step * k], [k >= 1], that are below [maxRadius]. *)
Lemma radii_spec (maxRadius : Q) (radius : Z) :
  In radius (Collage.radii maxRadius) <->
  exists k : Z, (1 <= k)%Z /\ radius = (Collage.step * k)%Z /\
                (inject_Z radius < maxRadius)%Q.
Proof.
  unfold Collage.radii. rewrite in_map_iff.
  change (inject_Z Collage.step) with 8%Q.
  assert (Hq : (maxRadius == 8 * (maxRadius / 8))%Q) by field.
  set (q := (maxRadius / 8)%Q) in *. set (c := Qceiling q).
  assert (Hc1 : (q <= inject_Z c)%Q) by apply Qle_ceiling.
  assert (Hc2 : (inject_Z (c - 1) < q)%Q) by apply Qceiling_lt.
  clearbody c q.
  assert (Hmul : forall k : Z, inject_Z (Collage.step * k) == 8 * inject_Z k)
    by (intros k; now rewrite inject_Z_mult).
  split.
  - intros (n & <- & Hn). apply in_seq in Hn. exists (Z.of_nat n).
    split; [lia|]. split; [reflexivity|].
    rewrite Hmul.
    assert (Hle : (inject_Z (Z.of_nat n) <= inject_Z (c - 1))%Q)
      by (rewrite <- Zle_Qle; lia).
    lra.
  - intros (k & Hk & -> & Hlt). exists (Z.to_nat k).
    split; [now rewrite Z2Nat.id by lia|].
    apply in_seq. rewrite Hmul in Hlt.
    assert (Hkc : (inject_Z k < inject_Z c)%Q) by lra.
    rewrite <- Zlt_Qlt in Hkc. lia.
Qed.

(** C8: for any list of boxes (and any canvas), (a) no two rectangles
    placed by [spiralPlacement] overlap, by the test of [rectsOverlap];
    (b) after the normalization of [generateCollage] (bounding box moved
    to the padding inset, header band added) every placed rectangle lies
    within the final canvas [logicalWidth] x [logicalHeight]. *)
Theorem collage_no_overlap_within_canvas :
  (forall (boxes : list Collage.Box) (canvasWidth canvasHeight : Q),
      Collage.NoOverlap
        (Collage.spiralPlacement PI cos sin sqrt boxes canvasWidth canvasHeight)) /\
  (forall (userName : option string) (boxes : list Collage.Box)
          (layout : Collage.Layout),
      Collage.collageLayout PI cos sin sqrt userName boxes = Some layout ->
      forall b, In b (Collage.placedBoxes layout) ->
                Collage.within (Collage.logicalWidth layout)
                               (Collage.logicalHeight layout) b).
Proof.
  split.
  - intros boxes cw ch. unfold Collage.spiralPlacement.
    apply spiralPlacement_from, NoOverlap_nil.
  - intros userName boxes layout Hlayout b Hb. unfold Collage.collageLayout in Hlayout.
    set (placed := Collage.spiralPlacement PI cos sin sqrt boxes 4000 4000) in *.
    destruct (Z.of_nat (length placed) =? 0)%Z; [discriminate|].
    pose proof (getBoundingBox_encloses placed) as Henc.
    destruct (Collage.minX (Collage.getBoundingBox placed)) as [minX|] eqn:HminX;
      [|discriminate].
    destruct (Collage.minY (Collage.getBoundingBox placed)) as [minY|] eqn:HminY;
      [|discriminate].
    destruct (Collage.maxX (Collage.getBoundingBox placed)) as [maxX|] eqn:HmaxX;
      [|discriminate].
    destruct (Collage.maxY (Collage.getBoundingBox placed)) as [maxY|] eqn:HmaxY;
      [|discriminate].
    injection Hlayout as <-. cbn in Hb |- *.
    apply in_map_iff in Hb as (box & <- & Hbox).
    destruct (Henc box Hbox) as (H1 & H2 & H3 & H4).
    rewrite HminX in H1. rewrite HminY in H2. rewrite HmaxX in H3. rewrite HmaxY in H4.
    cbn in H1, H2, H3, H4.
    unfold Collage.within. cbn.
    destruct (truthy_string userName); repeat split; lra.
Qed.

End CollageFacts.

Lemma collage_no_overlap_within_canvas_witness :
  Forall (Collage.within (Collage.logicalWidth Collage.exampleLayout)
                         (Collage.logicalHeight Collage.exampleLayout))
         (Collage.placedBoxes Collage.exampleLayout) /\
  Collage.NoOverlap
    (Collage.spiralPlacement Collage.PI_ Collage.cos_ Collage.sin_ Collage.sqrt_
       Collage.threeBoxes 4000 4000).
Proof.
  split.
  - apply Forall_forall. intros b Hb.
    apply (proj2 (collage_no_overlap_within_canvas
                    Collage.PI_ Collage.cos_ Collage.sin_ Collage.sqrt_)
                 (Some "me"%string) Collage.threeBoxes Collage.exampleLayout).
    + vm_compute. reflexivity.
    + apply list_elem_of_In. exact Hb.
  - apply (proj1 (collage_no_overlap_within_canvas
                    Collage.PI_ Collage.cos_ Collage.sin_ Collage.sqrt_)).
Defined.

(** The three boxes of the example: the first is centred on the canvas
    midpoint (2000, 2000), the others are found by the spiral search. *)
Example spiralPlacement_three :
  map (fun b => (Qred (Collage.GameBox.x b), Qred (Collage.GameBox.y b)))
      (Collage.spiralPlacement Collage.PI_ Collage.cos_ Collage.sin_ Collage.sqrt_
         Collage.threeBoxes 4000 4000)
  = [(3893 # 2, 1975); (1968, 2025); (3957 # 2, 2062)]%Q.
Proof. vm_compute. reflexivity. Qed.

Example collageLayout_three :
  (Qred (Collage.logicalWidth Collage.exampleLayout),
   Qred (Collage.logicalHeight Collage.exampleLayout),
   map (fun b => (Qred (Collage.GameBox.x b), Qred (Collage.GameBox.y b)))
       (Collage.placedBoxes Collage.exampleLayout))
  = (187, 267, [(40, 120); (123 # 2, 170); (72, 207)])%Q.
Proof. vm_compute. reflexivity. Qed.

(** * Further properties of the cache *)

Ltac run_more :=
  unfold getCacheInfo, getPersonalityCacheInfo, getReviewsCacheInfo,
         clearPersonalityCache, clearReviewsCache;
  run.

(** X1: Round trip of the games cache: what [setCachedGames] wrote is what
    [getCachedGames] returns [dt] ms later as long as [dt] is at most 30
    minutes; after that the get returns null and removes the row.  The
    write replaces whatever was stored for that user and touches no other
    user's row. *)
Theorem setCachedGames_then_get :
  forall (w : World) (steamId : string) (games' : list SteamGame) (dt : Z),
    let w1 := advance dt (snd (setCachedGames steamId games' w)) in
    fst (getCachedGames steamId w1)
      = Ret (if dt <=? GAMES_CACHE_DURATION then Some games' else None) /\
    games (snd (getCachedGames steamId w1)) !! steamId
      = (if dt <=? GAMES_CACHE_DURATION
         then Some (GamesCache.mk steamId games' (clock w))
         else None) /\
    (forall other, other <> steamId ->
                   games (snd (getCachedGames steamId w1)) !! other = games w !! other).
Proof.
  intros w steamId games' dt. cbn zeta. run. rewrite lookup_insert_eq. cbn.
  replace (clock w + dt - clock w) with dt by lia.
  destruct (Z.ltb_spec GAMES_CACHE_DURATION dt) as [Hlt|Hge];
    destruct (Z.leb_spec dt GAMES_CACHE_DURATION) as [Hle|Hgt]; try lia; cbn.
  - repeat split.
    + apply lookup_delete_eq.
    + intros other Hne. rewrite lookup_delete_ne, lookup_insert_ne by congruence.
      reflexivity.
  - repeat split.
    + apply lookup_insert_eq.
    + intros other Hne. now rewrite lookup_insert_ne by congruence.
Qed.

(** X2: Last write wins for game details: after two writes for the same appid,
    a get [dt] ms after the second returns the second record (stamped with
    the time of the second write, without currency) while [dt] is at most
    30 days, and null afterwards. *)
Theorem setCachedGameDetails_last_write_wins :
  forall (w : World) (appid : Z) (g1 g2 : list string) (p1 p2 : option Q)
         (d1 d2 : list string) (m1 m2 : option Z) (dt1 dt : Z),
    let w1 := advance dt1 (snd (setCachedGameDetails appid g1 p1 d1 m1 w)) in
    let w2 := advance dt (snd (setCachedGameDetails appid g2 p2 d2 m2 w1)) in
    fst (getCachedGameDetails appid w2)
      = Ret (if dt <=? GAME_DETAILS_CACHE_DURATION
             then Some (GameDetails.mk appid g2 p2 d2 m2 (clock w + dt1) None)
             else None).
Proof.
  intros. cbn zeta. run. rewrite lookup_insert_eq. cbn.
  replace (clock w + dt1 + dt - (clock w + dt1)) with dt by lia.
  destruct (Z.ltb_spec GAME_DETAILS_CACHE_DURATION dt);
    destruct (Z.leb_spec dt GAME_DETAILS_CACHE_DURATION); try lia; reflexivity.
Qed.

(** X3: Round trip of the analysis cache through the fingerprint: a result
    stored with one top-games list is returned, within 7 days, to a reader
    whose current top-games list has the same first ten entries. *)
Theorem setCachedPersonality_then_get :
  forall (Num : Type) (numberToString : Num -> string) (w : World)
         (steamId : string) (result : MBTIResult)
         (stored current : list (string * Num)) (dt : Z),
    firstn 10 stored = firstn 10 current ->
    dt <= PERSONALITY_CACHE_DURATION ->
    fst (getCachedPersonality steamId (generateGamesHash numberToString current)
           (advance dt (snd (setCachedPersonality numberToString steamId result stored w))))
    = Ret (Some result).
Proof.
  intros Num numberToString w steamId result stored current dt Hten Hdt.
  assert (Hh : generateGamesHash numberToString stored
               = generateGamesHash numberToString current)
    by (unfold generateGamesHash, slice0; now rewrite Hten).
  run. rewrite lookup_insert_eq. cbn.
  replace (clock w + dt - clock w) with dt by lia.
  destruct (Z.ltb_spec PERSONALITY_CACHE_DURATION dt); [lia|].
  rewrite Hh, String.eqb_refl. reflexivity.
Qed.

Lemma setCachedPersonality_then_get_witness :
  fst (getCachedPersonality "u1" (generateGamesHash showInt topGamesB)
         (advance 60000
            (snd (setCachedPersonality showInt "u1" "{INTJ}" topGamesA (emptyWorld 0)))))
  = Ret (Some "{INTJ}"%string).
Proof.
  apply (setCachedPersonality_then_get Z showInt (emptyWorld 0) "u1" "{INTJ}"
           topGamesA topGamesB 60000).
  - reflexivity.
  - vm_compute. discriminate.
Defined.

(** X4: The single read and the batch read disagree at the TTL boundary: a
    record that is exactly 30 days old is returned by
    [getCachedGameDetails] (its test is [age > TTL]) and left out by
    [getCachedGameDetailsMany] (its test is [age < TTL]). *)
Theorem ttl_boundary_single_vs_batch :
  forall (w : World) (appid : Z) (rec : GameDetails.t),
    gameDetails w !! appid = Some rec ->
    clock w - GameDetails.timestamp rec = GAME_DETAILS_CACHE_DURATION ->
    fst (getCachedGameDetails appid w) = Ret (Some rec) /\
    fst (getCachedGameDetailsMany [appid] w) = Ret ∅.
Proof.
  intros w appid rec Hrec Hage. split.
  - run. rewrite Hrec. cbn. rewrite Hage, Z.ltb_irrefl. reflexivity.
  - rewrite getCachedGameDetailsMany_run. cbn. unfold cacheHits. cbn.
    rewrite Hrec. cbn. rewrite Hage, Z.ltb_irrefl. reflexivity.
Qed.

Lemma ttl_boundary_single_vs_batch_witness :
  fst (getCachedGameDetails 9 borderWorld) = Ret (Some borderRecord) /\
  fst (getCachedGameDetailsMany [9] borderWorld) = Ret ∅.
Proof.
  apply (ttl_boundary_single_vs_batch borderWorld 9 borderRecord); reflexivity.
Defined.

(** X5: The batch read returns exactly the stored rows of the requested ids
    that are younger than 30 days; so it does not depend on the order of
    the ids or on repetitions among them. *)
Theorem getCachedGameDetailsMany_exact :
  forall (w : World) (appids : list Z),
    keyed w ->
    exists hits : gmap Z GameDetails.t,
      fst (getCachedGameDetailsMany appids w) = Ret hits /\
      (forall k v,
          hits !! k = Some v <->
          In k appids /\ gameDetails w !! k = Some v /\
          clock w - GameDetails.timestamp v < GAME_DETAILS_CACHE_DURATION) /\
      (forall appids',
          (forall k, In k appids <-> In k appids') ->
          fst (getCachedGameDetailsMany appids' w) = Ret hits).
Proof.
  intros w appids Hkeyed. exists (cacheHits appids w).
  rewrite getCachedGameDetailsMany_run. split; [reflexivity|].
  assert (Hchar : forall l k v,
             cacheHits l w !! k = Some v <->
             In k l /\ gameDetails w !! k = Some v /\ fresh (clock w) v).
  { intros l k v. split.
    - now apply cacheHits_keyed.
    - intros (Hin & Hrow & Hf). now apply cacheHits_hit. }
  split; [exact (Hchar appids)|].
  intros appids' Hsame. rewrite getCachedGameDetailsMany_run. cbn. f_equal.
  apply map_eq. intros k.
  destruct (cacheHits appids w !! k) as [v|] eqn:Hv.
  - apply Hchar in Hv as (Hin & Hrow & Hf). apply Hchar. rewrite <- Hsame. auto.
  - destruct (cacheHits appids' w !! k) as [v'|] eqn:Hv'; [|reflexivity].
    apply Hchar in Hv' as (Hin & Hrow & Hf).
    assert (cacheHits appids w !! k = Some v') by (apply Hchar; rewrite Hsame; auto).
    congruence.
Qed.

Lemma getCachedGameDetailsMany_exact_witness :
  exists hits : gmap Z GameDetails.t,
    fst (getCachedGameDetailsMany [5; 42; 5] legacyWorld) = Ret hits /\
    fst (getCachedGameDetailsMany [42; 5] legacyWorld) = Ret hits.
Proof.
  destruct (getCachedGameDetailsMany_exact legacyWorld [5; 42; 5]
              (keyed_singleton legacyWorld legacyRecord eq_refl))
    as (hits & Hret & _ & Hsame).
  exists hits. split; [exact Hret|]. apply Hsame.
  intros k. cbn. tauto.
Defined.

(** X6: The pair of reads the session store makes, with the time [dt] that
    passes between the two readings of the clock: when [getCachedGames]
    returns games, the [getCacheInfo] that follows reports the row as
    cached, and the age it reports is the age the get saw plus [dt], so at
    most 30 minutes plus [dt]; when the get returns null (no row, or a
    stale row it has just deleted) the info reports nothing cached. *)
Theorem getCachedGames_then_getCacheInfo :
  forall (w : World) (steamId : string) (dt : Z),
    let w1 := advance dt (snd (getCachedGames steamId w)) in
    match fst (getCachedGames steamId w) with
    | Ret (Some _) =>
        exists rec,
          games w !! steamId = Some rec /\
          fst (getCacheInfo steamId w1)
            = Ret (CacheInfo.mk true
                     (Some (clock w - GamesCache.timestamp rec + dt))) /\
          clock w - GamesCache.timestamp rec + dt <= GAMES_CACHE_DURATION + dt
    | Ret None => fst (getCacheInfo steamId w1) = Ret (CacheInfo.mk false None)
    | Throw _ => False
    end.
Proof.
  intros w steamId dt. cbn zeta. run_more.
  destruct (games w !! steamId) as [rec|] eqn:Hrec; cbn.
  - destruct (Z.ltb_spec GAMES_CACHE_DURATION (clock w - GamesCache.timestamp rec));
      cbn.
    + now rewrite lookup_delete_eq.
    + rewrite Hrec. cbn. exists rec. split; [reflexivity|]. split; [|lia].
      do 3 f_equal. lia.
  - now rewrite Hrec.
Qed.

(** The info reads have no expiry: a row far past its TTL is still
    reported as cached, with its age, and stays in the store. *)
Theorem getCacheInfo_reports_stale_rows :
  forall (w : World) (steamId : string) (rec : GamesCache.t),
    games w !! steamId = Some rec ->
    fst (getCacheInfo steamId w)
      = Ret (CacheInfo.mk true (Some (clock w - GamesCache.timestamp rec))) /\
    games (snd (getCacheInfo steamId w)) = games w /\
    (GAMES_CACHE_DURATION < clock w - GamesCache.timestamp rec ->
     fst (getCachedGames steamId w) = Ret None).
Proof.
  intros w steamId rec Hrec. run_more. rewrite Hrec. cbn. repeat split.
  intros Hage.
  destruct (Z.ltb_spec GAMES_CACHE_DURATION (clock w - GamesCache.timestamp rec));
    [reflexivity | lia].
Qed.

Lemma getCacheInfo_reports_stale_rows_witness :
  fst (getCacheInfo "u1" expiredWorld) = Ret (CacheInfo.mk true (Some 3000000000)) /\
  games (snd (getCacheInfo "u1" expiredWorld)) = games expiredWorld /\
  (GAMES_CACHE_DURATION < 3000000000 ->
   fst (getCachedGames "u1" expiredWorld) = Ret None).
Proof.
  apply (getCacheInfo_reports_stale_rows expiredWorld "u1" (GamesCache.mk "u1" [] 0)).
  reflexivity.
Defined.

(** X7: Explicit invalidation: after [clearReviewsCache] the reviews of that
    user are gone for the get and for the info read, after
    [clearPersonalityCache] the analysis is gone whatever the fingerprint;
    rows of other users and the other tables are untouched. *)
Theorem clear_then_get :
  forall (w : World) (steamId hash : string),
    let wr := snd (clearReviewsCache steamId w) in
    let wp := snd (clearPersonalityCache steamId w) in
    fst (getCachedReviews steamId wr) = Ret None /\
    fst (getReviewsCacheInfo steamId wr) = Ret (CacheInfo.mk false None) /\
    fst (getCachedPersonality steamId hash wp) = Ret None /\
    fst (getPersonalityCacheInfo steamId wp) = Ret (CacheInfo.mk false None) /\
    (forall other, other <> steamId ->
                   reviews wr !! other = reviews w !! other /\
                   personality wp !! other = personality w !! other) /\
    (games wr, personality wr, gameDetails wr)
      = (games w, personality w, gameDetails w) /\
    (games wp, reviews wp, gameDetails wp) = (games w, reviews w, gameDetails w).
Proof.
  intros w steamId hash. cbn zeta. run_more. rewrite !lookup_delete_eq. cbn.
  repeat split; now rewrite lookup_delete_ne by congruence.
Qed.

Lemma putAll_agree (vs : list GameDetails.t) (k : Z) :
  forall m1 m2 : gmap Z GameDetails.t,
    m1 !! k = m2 !! k \/ (exists v, In v vs /\ GameDetails.appid v = k) ->
    putAll vs m1 !! k = putAll vs m2 !! k.
Proof.
  induction vs as [|u vs IH]; intros m1 m2 H; cbn.
  - destruct H as [H|(v & [] & _)]. exact H.
  - apply IH. destruct (decide (GameDetails.appid u = k)) as [Heq|Hne].
    + left. subst k. now rewrite !lookup_insert_eq.
    + destruct H as [H|(v & [<-|Hin] & Hk)].
      * left. now rewrite !lookup_insert_ne.
      * contradiction.
      * right. eauto.
Qed.

(** X8: What a call of [fetchAndCacheGameDetails] sends: at most one request,
    and an id is in its body exactly when it was asked for and the store
    has no row for it younger than 30 days; ids served from the cache are
    never sent. *)
Theorem fetchAndCacheGameDetails_requests :
  forall (remote : Remote) (appids : list Z) (w : World),
    keyed w ->
    exists sent : list (list Z),
      requests (snd (fetchAndCacheGameDetails remote appids w)) = requests w ++ sent /\
      (length sent <= 1)%nat /\
      (forall id,
          (exists body, In body sent /\ In id body) <->
          In id appids /\
          ~ exists v, gameDetails w !! id = Some v /\
                      clock w - GameDetails.timestamp v < GAME_DETAILS_CACHE_DURATION).
Proof.
  intros remote appids w Hkeyed.
  assert (Hmiss : forall id,
             In id (cacheMisses appids w) <->
             In id appids /\
             ~ exists v, gameDetails w !! id = Some v /\ fresh (clock w) v).
  { intros id. rewrite cacheMisses_not_hit. split; intros [Hin H]; (split; [exact Hin|]).
    - intros (v & Hrow & Hf). rewrite (cacheHits_hit appids w id v) in H; auto.
      discriminate.
    - destruct (cacheHits appids w !! id) as [v|] eqn:Hv; [|reflexivity].
      exfalso. apply H. exists v. apply cacheHits_keyed in Hv as (_ & ? & ?); auto. }
  rewrite fetchAndCacheGameDetails_run. cbn zeta.
  destruct (cacheMisses appids w) as [|m ms] eqn:Hm.
  - exists []. cbn. rewrite app_nil_r.
    split; [reflexivity|]. split; [lia|]. intros id. split.
    + intros (body & [] & _).
    + intros H. apply Hmiss in H. destruct H.
  - exists [m :: ms].
    assert (Hsent : forall id, (exists body, In body [m :: ms] /\ In id body)
                               <-> In id (m :: ms)).
    { intros id. split.
      - intros (body & [<-|[]] & Hin). exact Hin.
      - intros Hin. exists (m :: ms). split; [now left | exact Hin]. }
    split.
    + destruct (outcome (remote (m :: ms))) as [|resp]; [reflexivity|].
      destruct (ok resp); [|reflexivity].
      destruct (body resp) as [|results]; [reflexivity|].
      destruct (freshDetails _ results); reflexivity.
    + split; [cbn; lia|]. intros id. rewrite Hsent. apply Hmiss.
Qed.

Lemma fetchAndCacheGameDetails_requests_witness :
  exists sent : list (list Z),
    requests (snd (fetchAndCacheGameDetails remoteAll [42; 1; 2] legacyWorld))
      = requests legacyWorld ++ sent /\
    (length sent <= 1)%nat /\
    (forall id,
        (exists body, In body sent /\ In id body) <->
        In id [42; 1; 2] /\
        ~ exists v, gameDetails legacyWorld !! id = Some v /\
                    clock legacyWorld - GameDetails.timestamp v
                      < GAME_DETAILS_CACHE_DURATION).
Proof.
  apply (fetchAndCacheGameDetails_requests remoteAll [42; 1; 2] legacyWorld).
  apply (keyed_singleton legacyWorld legacyRecord). reflexivity.
Defined.

(** *** The batch engine on replies that need not be well typed *)

Lemma Raw_collect_spec (now : Z) (results : Raw.Results) :
  forall (toCache : list GameDetails.t) (cached : gmap Z GameDetails.t),
    Raw.collect now results (toCache, cached)
    = ((toCache ++ Raw.built now results, putAll (Raw.built now results) cached),
       Raw.throws results).
Proof.
  induction results as [|[k [|g|]] results IH]; intros toCache cached.
  - cbn. now rewrite app_nil_r.
  - cbn [Raw.collect]. rewrite IH. reflexivity.
  - cbn [Raw.collect fst snd]. rewrite IH.
    change (Raw.built now ((k, Raw.Game g) :: results))
      with (detailsOf now k g :: Raw.built now results).
    cbn [putAll fold_left]. now rewrite <- app_assoc.
  - cbn. now rewrite app_nil_r.
Qed.

Lemma Raw_built_In (now : Z) (results : Raw.Results) (v : GameDetails.t) :
  In v (Raw.built now results) <->
  exists k g, In (k, Raw.Game g) (Raw.reached results) /\ v = detailsOf now k g.
Proof.
  unfold Raw.built. rewrite in_flat_map. split.
  - intros ([k [|g|]] & Hin & Hv); cbn in Hv; try destruct Hv as [<-|[]]; try destruct Hv.
    eauto.
  - intros (k & g & Hin & ->). exists (k, Raw.Game g). split; [exact Hin | now left].
Qed.

Lemma Raw_reached_all (results : Raw.Results) :
  Raw.throws results = false -> Raw.reached results = results.
Proof.
  induction results as [|[k [|g|]] results IH]; cbn; intros H; try discriminate;
    try reflexivity; now rewrite IH.
Qed.

(** The world after the batch read and, when a request is sent, after the
    reply has arrived. *)
Lemma Raw_fetchAndCacheGameDetails_run (remote : Raw.Remote) (appids : list Z)
    (w : World) :
  let hits := cacheHits appids w in
  let misses := cacheMisses appids w in
  let w0 := log_db (DbBulkGet TgameDetails (map KNum appids)) w in
  let w1 := advance (Raw.elapsed (remote misses)) (log_request misses w0) in
  Raw.fetchAndCacheGameDetails remote appids w =
  match misses with
  | [] => (Ret hits, w0)
  | _ :: _ =>
      match Raw.resultsOf (remote misses) with
      | None => (Ret hits, w1)
      | Some results =>
          let vs := Raw.built (clock w1) results in
          (Ret (putAll vs hits),
           if Raw.throws results then w1
           else
             match vs with
             | [] => w1
             | _ :: _ =>
                 log_db (DbBulkPut TgameDetails
                           (map (fun v => KNum (GameDetails.appid v)) vs))
                        (set_rows db_gameDetails (putAll vs (gameDetails w1)) w1)
             end)
      end
  end.
Proof.
  cbn zeta. unfold Raw.fetchAndCacheGameDetails, bind.
  rewrite getCachedGameDetailsMany_run.
  fold (cacheMisses appids w). destruct (cacheMisses appids w) as [|m ms] eqn:Hm.
  - reflexivity.
  - replace (Z.of_nat (length (m :: ms)) =? 0) with false
      by (symmetry; apply Z.eqb_neq; cbn [length]; lia).
    unfold try_catch, bind, Raw.fetch_apps, Raw.resultsOf.
    destruct (Raw.outcome (remote (m :: ms))) as [|resp]; [reflexivity|].
    destruct (Raw.ok resp); cbn [negb]; [|reflexivity].
    unfold Raw.entries. destruct (Raw.body resp) as [| |results]; try reflexivity.
    unfold ret, Date_now. rewrite Raw_collect_spec. cbn [fst snd app].
    destruct (Raw.throws results); [reflexivity|].
    destruct (Raw.built _ results) as [|v vs] eqn:Hvs; [reflexivity|].
    replace (0 <? Z.of_nat (length (v :: vs))) with true
      by (symmetry; apply Z.ltb_lt; cbn [length]; lia).
    reflexivity.
Qed.

Lemma typed_built (now : Z) (results : Results) :
  Raw.throws (map typedEntry results) = false /\
  Raw.built now (map typedEntry results) = freshDetails now results.
Proof.
  induction results as [|[k [g|]] results [IH1 IH2]]; cbn.
  - split; reflexivity.
  - split; [exact IH1|]. unfold Raw.built in IH2. cbn. now rewrite IH2.
  - split; [exact IH1|]. exact IH2.
Qed.

(** On a reply whose entries are well typed the two engines agree. *)
Lemma fetchAndCacheGameDetails_typed (remote : Remote) (appids : list Z) (w : World) :
  Raw.fetchAndCacheGameDetails (typed remote) appids w
  = fetchAndCacheGameDetails remote appids w.
Proof.
  rewrite Raw_fetchAndCacheGameDetails_run, fetchAndCacheGameDetails_run. cbn zeta.
  destruct (cacheMisses appids w) as [|m ms]; [reflexivity|].
  unfold Raw.resultsOf, typed, typedReply. cbn.
  destruct (outcome (remote (m :: ms))) as [|resp]; [reflexivity|]. cbn.
  change (Raw.ok _) with (ok resp).
  destruct (ok resp); [|reflexivity].
  destruct (body resp) as [|results]; [reflexivity|]. cbn.
  destruct (typed_built (clock w + elapsed (remote (m :: ms))) results) as [-> ->].
  reflexivity.
Qed.

(** X9: What a call of [fetchAndCacheGameDetails] returns, whatever the
    reply: every cache hit keeps an entry; every other entry is the record
    built from an entry of the reply that the loop reached (one before the
    first ill-typed entry), stamped with the time the reply arrived and
    without currency; every entry the loop reached has its record in the
    map; and an id the loop did not reach a record for has what the cache
    had for it: nothing comes from behind an ill-typed entry. *)
Theorem fetchAndCacheGameDetails_result :
  forall (remote : Raw.Remote) (appids : list Z) (w : World),
    let reply := remote (cacheMisses appids w) in
    let now := clock w + Raw.elapsed reply in
    exists result : gmap Z GameDetails.t,
      fst (Raw.fetchAndCacheGameDetails remote appids w) = Ret result /\
      (forall k, is_Some (cacheHits appids w !! k) -> is_Some (result !! k)) /\
      (forall k v,
          result !! k = Some v ->
          cacheHits appids w !! k = Some v \/
          (exists results game,
              cacheMisses appids w <> [] /\
              Raw.resultsOf reply = Some results /\
              In (k, Raw.Game game) (Raw.reached results) /\
              v = detailsOf now k game)) /\
      (forall results,
          cacheMisses appids w <> [] ->
          Raw.resultsOf reply = Some results ->
          (forall k game, In (k, Raw.Game game) (Raw.reached results) ->
                          is_Some (result !! k)) /\
          (forall k, (forall game, ~ In (k, Raw.Game game) (Raw.reached results)) ->
                     result !! k = cacheHits appids w !! k)).
Proof.
  intros remote appids w. cbn zeta. rewrite Raw_fetchAndCacheGameDetails_run. cbn zeta.
  destruct (cacheMisses appids w) as [|m ms] eqn:Hm.
  { exists (cacheHits appids w). split; [reflexivity|]. split; [auto|].
    split; [auto|]. intros results Hne. congruence. }
  destruct (Raw.resultsOf (remote (m :: ms))) as [results|] eqn:Hres.
  2:{ exists (cacheHits appids w). split; [reflexivity|]. split; [auto|].
      split; [auto|]. intros results _ [=]. }
  set (now := clock _).
  assert (Hnow : now = clock w + Raw.elapsed (remote (m :: ms))) by reflexivity.
  exists (putAll (Raw.built now results) (cacheHits appids w)).
  split; [reflexivity|]. split; [|split].
  - intros k. apply putAll_mono.
  - intros k v Hv. apply putAll_inv in Hv as [Hv|[Hin Hk]]; [now left|].
    right. apply Raw_built_In in Hin as (k' & g & Hin & ->). cbn in Hk. subst k'.
    exists results, g. rewrite <- Hnow. now repeat split.
  - intros results' _ [= <-]. split.
    + intros k g Hin.
      change k with (GameDetails.appid (detailsOf now k g)). apply putAll_written.
      apply Raw_built_In. eauto.
    + intros k Hno. apply putAll_other. intros v Hv Hk.
      apply Raw_built_In in Hv as (k' & g & Hin & ->). cbn in Hk. subst k'.
      exact (Hno g Hin).
Qed.

(** X10: Write-through, and where it stops.  When a request was sent and its
    reply could be read, every entry the loop reached has its record in the
    returned map, stamped with the time of arrival.  If no entry is ill
    typed, the record returned for an id of the reply is the row the
    gameDetails store holds for it after the call.  If an entry is ill
    typed, nothing at all is written: the store is what it was and no
    [bulkPut] is made, although the records of the entries before it are
    returned. *)
Theorem fetchAndCacheGameDetails_write_through :
  forall (remote : Raw.Remote) (appids : list Z) (w : World) (results : Raw.Results),
    cacheMisses appids w <> [] ->
    Raw.resultsOf (remote (cacheMisses appids w)) = Some results ->
    let out := Raw.fetchAndCacheGameDetails remote appids w in
    exists result : gmap Z GameDetails.t,
      fst out = Ret result /\
      (forall k game,
          In (k, Raw.Game game) (Raw.reached results) ->
          exists v, result !! k = Some v /\
                    GameDetails.timestamp v
                      = clock w + Raw.elapsed (remote (cacheMisses appids w))) /\
      if Raw.throws results
      then gameDetails (snd out) = gameDetails w /\
           db_calls (snd out) = db_calls w ++ [DbBulkGet TgameDetails (map KNum appids)]
      else forall k game,
             In (k, Raw.Game game) results ->
             exists v, result !! k = Some v /\ gameDetails (snd out) !! k = Some v.
Proof.
  intros remote appids w results Hsent Hres. cbn zeta.
  rewrite Raw_fetchAndCacheGameDetails_run. cbn zeta.
  destruct (cacheMisses appids w) as [|m ms] eqn:Hm; [congruence|].
  rewrite Hres. set (now := clock _).
  assert (Hnow : now = clock w + Raw.elapsed (remote (m :: ms))) by reflexivity.
  exists (putAll (Raw.built now results) (cacheHits appids w)).
  split; [reflexivity|].
  assert (Hwritten : forall k game,
             In (k, Raw.Game game) (Raw.reached results) ->
             exists v, putAll (Raw.built now results) (cacheHits appids w) !! k = Some v /\
                       In v (Raw.built now results)).
  { intros k g Hin.
    assert (Hu : In (detailsOf now k g) (Raw.built now results))
      by (apply Raw_built_In; eauto).
    destruct (putAll_written _ _ (∅ : gmap Z GameDetails.t) Hu) as [v Hv]. cbn in Hv.
    exists v. split.
    - rewrite <- Hv. apply putAll_agree. right. eauto.
    - apply putAll_inv in Hv as [Hv|[Hin' _]]; [|exact Hin'].
      rewrite lookup_empty in Hv. discriminate. }
  split.
  - intros k g Hin. destruct (Hwritten k g Hin) as (v & Hv & Hbuilt).
    exists v. split; [exact Hv|].
    apply Raw_built_In in Hbuilt as (k' & g' & _ & ->). exact Hnow.
  - destruct (Raw.throws results) eqn:Hthrows.
    + split; reflexivity.
    + intros k g Hin. rewrite <- (Raw_reached_all results Hthrows) in Hin.
      destruct (Hwritten k g Hin) as (v & Hv & Hbuilt).
      exists v. split; [exact Hv|].
      destruct (Raw.built now results) as [|x xs] eqn:Hvs; [destruct Hbuilt|].
      cbn -[putAll]. rewrite <- Hv. apply putAll_agree. right.
      assert (Hu : In (detailsOf now k g) (x :: xs)).
      { rewrite <- Hvs. apply Raw_built_In. eauto. }
      eauto.
Qed.

Lemma fetchAndCacheGameDetails_write_through_witness :
  exists result : gmap Z GameDetails.t,
    fst (Raw.fetchAndCacheGameDetails remoteIllTyped [1; 2; 3] (emptyWorld 0))
      = Ret result /\
    is_Some (result !! 1) /\
    gameDetails (snd (Raw.fetchAndCacheGameDetails remoteIllTyped [1; 2; 3]
                        (emptyWorld 0))) = ∅.
Proof.
  destruct (fetchAndCacheGameDetails_write_through remoteIllTyped [1; 2; 3]
              (emptyWorld 0)
              [(1, Raw.Game someGame); (2, Raw.IllTyped); (3, Raw.Game someGame)])
    as (result & Hret & Hreached & Hstore).
  - vm_compute. discriminate.
  - reflexivity.
  - exists result. split; [exact Hret|]. split.
    + destruct (Hreached 1 someGame) as (v & Hv & _); [now left | eauto].
    + cbn in Hstore. apply Hstore.
Defined.

Lemma fetchAndCacheGameDetails_result_witness :
  exists result : gmap Z GameDetails.t,
    fst (Raw.fetchAndCacheGameDetails remoteIllTyped [42; 1; 2; 3] legacyWorld)
      = Ret result /\
    is_Some (result !! 42) /\ is_Some (result !! 1) /\ result !! 3 = None.
Proof.
  destruct (fetchAndCacheGameDetails_result remoteIllTyped [42; 1; 2; 3] legacyWorld)
    as (result & Hret & Hhits & _ & Hreply).
  destruct (Hreply [(1, Raw.Game someGame); (2, Raw.IllTyped); (3, Raw.Game someGame)])
    as (Hreached & Hbehind).
  - vm_compute. discriminate.
  - reflexivity.
  - exists result. split; [exact Hret|]. split; [|split].
    + apply Hhits. vm_compute. eauto.
    + apply (Hreached 1 someGame). now left.
    + rewrite Hbehind; [reflexivity|].
      intros game [[=]|[]].
Defined.

(** The reply of [remoteIllTyped] on an empty store: the record of appid 1
    is returned, no record is stored, and appid 3 is not looked at. *)
Example fetchAndCacheGameDetails_ill_typed :
  let out := Raw.fetchAndCacheGameDetails remoteIllTyped [1; 2; 3] (emptyWorld 0) in
  (exists result, fst out = Ret result /\
     result !! 1 = Some (detailsOf 120 1 someGame) /\
     result !! 2 = None /\ result !! 3 = None) /\
  gameDetails (snd out) = ∅ /\
  requests (snd out) = [[1; 2; 3]] /\
  db_calls (snd out) = [DbBulkGet TgameDetails [KNum 1; KNum 2; KNum 3]].
Proof.
  cbn zeta. rewrite Raw_fetchAndCacheGameDetails_run. cbn.
  split; [|repeat split]. eexists. split; [reflexivity|]. repeat split.
Qed.

(** X11: Invariants of [fetchAndCacheGameDetails]: it keeps every row of the
    gameDetails store under the key read from its [appid], it never
    removes a row, and it leaves the games, personality and reviews tables
    as they are. *)
Theorem fetchAndCacheGameDetails_invariants :
  forall (remote : Remote) (appids : list Z) (w : World),
    keyed w ->
    let w' := snd (fetchAndCacheGameDetails remote appids w) in
    keyed w' /\
    (forall k, is_Some (gameDetails w !! k) -> is_Some (gameDetails w' !! k)) /\
    games w' = games w /\ personality w' = personality w /\ reviews w' = reviews w.
Proof.
  intros remote appids w Hkeyed. cbn zeta.
  destruct (fetchAndCacheGameDetails_store remote appids w) as (vs & Hstore & _).
  split; [|split].
  - intros k v. rewrite Hstore. now apply putAll_keyed.
  - intros k. rewrite Hstore. apply putAll_mono.
  - rewrite fetchAndCacheGameDetails_run. cbn zeta.
    destruct (cacheMisses appids w); [now repeat split|].
    destruct (outcome _) as [|resp]; [now repeat split|].
    destruct (ok resp); [|now repeat split].
    destruct (body resp) as [|results]; [now repeat split|].
    destruct (freshDetails _ results); now repeat split.
Qed.

Lemma fetchAndCacheGameDetails_invariants_witness :
  let w' := snd (fetchAndCacheGameDetails remoteAll [42; 1; 2] legacyWorld) in
  keyed w' /\
  (forall k, is_Some (gameDetails legacyWorld !! k) -> is_Some (gameDetails w' !! k)) /\
  games w' = games legacyWorld /\ personality w' = personality legacyWorld /\
  reviews w' = reviews legacyWorld.
Proof.
  apply (fetchAndCacheGameDetails_invariants remoteAll [42; 1; 2] legacyWorld).
  apply (keyed_singleton legacyWorld legacyRecord). reflexivity.
Defined.

(** * Further properties of the rate-limited fetcher *)

(** X14: A bound on the time a call spends asleep: when the recorded time of
    the last request is not in the future, one call awaits at most 500 ms
    for the limiter and 6000 ms of backoff, 6500 ms in all. *)
Theorem fetchWithRateLimit_sleep_bound :
  forall (upstream : nat -> Route.Reply) (s : Route.Server),
    Route.lastRequestTime s <= Route.now s ->
    slept s <= slept (snd (Route.fetchWithRateLimit upstream s)) <= slept s + 6500.
Proof.
  intros upstream s Hpast.
  assert (Hsum : forall l1 l2, fold_right Z.add 0 (l1 ++ l2)
                               = fold_right Z.add 0 l1 + fold_right Z.add 0 l2).
  { induction l1 as [|a l1 IH]; intros l2; cbn; [lia | rewrite IH; lia]. }
  unfold slept, Route.fetchWithRateLimit.
  set (s1 := if _ <? _ then _ else _).
  set (s2 := Route.mkServer _ _ _ _).
  assert (Ht : Route.timeouts s2 = Route.timeouts s ++ Route.rateLimitWait s)
    by apply rateLimit_timeouts.
  assert (Hc : Route.counted Route.attempts) by (vm_compute; auto).
  destruct (retry_loop_spec upstream Route.attempts 2000 s2 Hc)
    as (_ & n & Hn & _ & Htimeouts & _).
  rewrite Htimeouts, Ht, !Hsum.
  assert (Hwait : 0 <= fold_right Z.add 0 (Route.rateLimitWait s) <= 500).
  { unfold Route.rateLimitWait, Route.MIN_REQUEST_INTERVAL.
    destruct (Z.ltb_spec (Route.now s - Route.lastRequestTime s) 500); cbn; lia. }
  change (length Route.attempts) with 3%nat in Hn.
  assert (Hback : 0 <= fold_right Z.add 0 (Route.backoff 2000 n) <= 6000).
  { destruct n as [|[|[|n]]]; cbn; lia. }
  lia.
Qed.

Lemma fetchWithRateLimit_sleep_bound_witness :
  slept Route.busy
  <= slept (snd (Route.fetchWithRateLimit (Route.replying [429; 403; 429]) Route.busy))
  <= slept Route.busy + 6500.
Proof.
  apply (fetchWithRateLimit_sleep_bound (Route.replying [429; 403; 429]) Route.busy).
  vm_compute. discriminate.
Defined.

(** * Further properties of the collage layout *)

Section CollageMoreFacts.
Variables (PI : Q) (cos sin sqrt : Q -> Q).

Lemma placeBox_shape (cw ch : Q) (placed : list Collage.GameBox.t) (box : Collage.Box) :
  Collage.placeBox PI cos sin sqrt cw ch placed box = placed \/
  exists x y,
    Collage.placeBox PI cos sin sqrt cw ch placed box
    = placed ++ [Collage.GameBox.mk (Collage.game box) (Collage.bw box)
                                    (Collage.bh box) x y].
Proof.
  unfold Collage.placeBox. destruct (fst _) as [[x y]|]; [right | left]; eauto.
Qed.

Lemma spiralPlacement_sublist (cw ch : Q) (boxes : list Collage.Box) :
  forall placed : list Collage.GameBox.t,
    exists extra : list Collage.GameBox.t,
      fold_left (Collage.placeBox PI cos sin sqrt cw ch) boxes placed = placed ++ extra /\
      sublist (map CollageMore.boxOf extra) boxes.
Proof.
  induction boxes as [|box boxes IH]; intros placed; cbn [fold_left].
  - exists []. split; [now rewrite app_nil_r | constructor].
  - destruct (placeBox_shape cw ch placed box) as [->|(x & y & ->)].
    + destruct (IH placed) as (extra & -> & Hsub). exists extra.
      split; [reflexivity | now apply sublist_cons].
    + destruct (IH (placed ++ [Collage.GameBox.mk (Collage.game box) (Collage.bw box)
                                  (Collage.bh box) x y]))
        as (extra & -> & Hsub).
      exists (Collage.GameBox.mk (Collage.game box) (Collage.bw box)
                (Collage.bh box) x y :: extra).
      split; [now rewrite <- app_assoc|]. cbn [map].
      replace (CollageMore.boxOf _) with box by (destruct box; reflexivity).
      now apply sublist_skip.
Qed.

(** X16: What [spiralPlacement] keeps: the placed boxes are boxes of the input,
    with their game and size, in the order of the input; boxes are dropped,
    never duplicated or invented. *)
Theorem spiralPlacement_keeps_boxes :
  forall (boxes : list Collage.Box) (canvasWidth canvasHeight : Q),
    sublist (map CollageMore.boxOf
               (Collage.spiralPlacement PI cos sin sqrt boxes canvasWidth canvasHeight))
            boxes /\
    (length (Collage.spiralPlacement PI cos sin sqrt boxes canvasWidth canvasHeight)
     <= length boxes)%nat.
Proof.
  intros boxes cw ch. unfold Collage.spiralPlacement.
  destruct (spiralPlacement_sublist cw ch boxes []) as (extra & -> & Hsub).
  cbn [app]. split; [exact Hsub|].
  apply sublist_length in Hsub. now rewrite length_map in Hsub.
Qed.

(** X17: The first box is always placed, centred on the midpoint of the canvas,
    whatever its size; so a non-empty input never yields an empty
    placement. *)
Theorem spiralPlacement_first_centred :
  forall (box : Collage.Box) (rest : list Collage.Box) (canvasWidth canvasHeight : Q),
    exists others : list Collage.GameBox.t,
      Collage.spiralPlacement PI cos sin sqrt (box :: rest) canvasWidth canvasHeight
      = CollageMore.centred canvasWidth canvasHeight box :: others.
Proof.
  intros box rest cw ch. unfold Collage.spiralPlacement. cbn [fold_left].
  change (Collage.placeBox PI cos sin sqrt cw ch [] box)
    with [CollageMore.centred cw ch box].
  destruct (spiralPlacement_sublist cw ch rest [CollageMore.centred cw ch box])
    as (extra & -> & _).
  now exists extra.
Qed.

End CollageMoreFacts.

Section CollageCanvasFacts.
Variables (PI : Q) (cos sin sqrt : Q -> Q).

Lemma Qlt_bool_false (a b : Q) : Collage.Qlt_bool a b = false -> (b <= a)%Q.
Proof.
  unfold Collage.Qlt_bool. intros H. apply negb_false_iff in H.
  now apply Qle_bool_iff.
Qed.

Lemma tryPoint_Inside (box : Collage.Box) (placed : list Collage.GameBox.t)
    (cw ch cx cy : Q) (radius numPoints : Z) (best : Collage.Best) (i : Z) :
  CollageMore.Inside cw ch box best ->
  CollageMore.Inside cw ch box
    (Collage.tryPoint PI cos sin sqrt box placed cw ch cx cy radius numPoints best i).
Proof.
  intros Hbest. unfold Collage.tryPoint.
  set (x := (cx + _ - _)%Q). set (y := (cy + _ - _)%Q).
  destruct (Collage.Qlt_bool x 0) eqn:H1; [exact Hbest|].
  destruct (Collage.Qlt_bool y 0) eqn:H2; [exact Hbest|].
  destruct (Collage.Qlt_bool cw (x + Collage.bw box)) eqn:H3; [exact Hbest|].
  destruct (Collage.Qlt_bool ch (y + Collage.bh box)) eqn:H4; [exact Hbest|].
  cbn [orb]. destruct (negb _); [|exact Hbest].
  destruct (Collage.closer _ _); [|exact Hbest].
  intros pos Hpos. cbn in Hpos. injection Hpos as <-. cbn.
  auto using Qlt_bool_false.
Qed.

Lemma radiusLoop_Inside (box : Collage.Box) (placed : list Collage.GameBox.t)
    (cw ch cx cy : Q) (todo : list Z) :
  forall best : Collage.Best,
    CollageMore.Inside cw ch box best ->
    CollageMore.Inside cw ch box
      (Collage.radiusLoop PI cos sin sqrt box placed cw ch cx cy todo best).
Proof.
  induction todo as [|radius todo IH]; intros best Hbest; cbn; [exact Hbest|].
  destruct (fst best); [exact Hbest|]. apply IH.
  unfold Collage.tryCircle.
  generalize (Collage.upto
    (Z.max 8 (Qfloor (2 * PI * inject_Z radius / inject_Z Collage.step)))).
  intros points. revert Hbest. generalize best.
  induction points as [|i points IHp]; intros b Hb; cbn; [exact Hb|].
  apply IHp. now apply tryPoint_Inside.
Qed.

Lemma placeBox_Inside (cw ch : Q) (placed : list Collage.GameBox.t) (box : Collage.Box) :
  Forall (fun b => b = CollageMore.centred cw ch (CollageMore.boxOf b)
                   \/ Collage.within cw ch b) placed ->
  Forall (fun b => b = CollageMore.centred cw ch (CollageMore.boxOf b)
                   \/ Collage.within cw ch b)
         (Collage.placeBox PI cos sin sqrt cw ch placed box).
Proof.
  intros Hplaced. unfold Collage.placeBox.
  destruct (negb (Collage.hasOverlap _ placed)).
  - cbn. apply Forall_app. split; [exact Hplaced|]. constructor; [|constructor].
    left. reflexivity.
  - set (best := Collage.radiusLoop _ _ _ _ _ _ _ _ _ _ _ _).
    assert (Hbest : CollageMore.Inside cw ch box best).
    { subst best. apply radiusLoop_Inside. intros pos Hpos. discriminate Hpos. }
    destruct (fst best) as [pos|] eqn:Hpos; [|exact Hplaced].
    apply Forall_app. split; [exact Hplaced|]. constructor; [|constructor].
    right. exact (Hbest pos Hpos).
Qed.

(** X18: Where [spiralPlacement] puts a box: either centred on the midpoint of
    the canvas (the first try, which has no bounds check) or at a position
    of the spiral search, and then entirely within the canvas. *)
Theorem spiralPlacement_centred_or_within :
  forall (boxes : list Collage.Box) (canvasWidth canvasHeight : Q)
         (b : Collage.GameBox.t),
    In b (Collage.spiralPlacement PI cos sin sqrt boxes canvasWidth canvasHeight) ->
    b = CollageMore.centred canvasWidth canvasHeight (CollageMore.boxOf b) \/
    Collage.within canvasWidth canvasHeight b.
Proof.
  intros boxes cw ch. unfold Collage.spiralPlacement.
  assert (H : forall placed,
             Forall (fun b => b = CollageMore.centred cw ch (CollageMore.boxOf b)
                              \/ Collage.within cw ch b) placed ->
             Forall (fun b => b = CollageMore.centred cw ch (CollageMore.boxOf b)
                              \/ Collage.within cw ch b)
                    (fold_left (Collage.placeBox PI cos sin sqrt cw ch) boxes placed)).
  { induction boxes as [|box boxes IH]; intros placed Hp; cbn; [exact Hp|].
    apply IH. now apply placeBox_Inside. }
  intros b Hb. specialize (H [] ltac:(constructor)).
  rewrite Forall_forall in H. apply H. now apply list_elem_of_In.
Qed.

End CollageCanvasFacts.

(** * Properties of the session store *)

Ltac run_store :=
  unfold Store.fetchGames, Store.fetchReviews, Store.fetchGamesRemote,
         Store.fetchReviewsRemote, Store.fetch_games, Store.fetch_reviews;
  run_more.



(** X26: A forced refresh of the games, case by case.  It never rejects.  On a
    games list it overwrites the cache row (stamped with the arrival time)
    and shows the list.  On a transport or parse failure it keeps the games
    shown and the cache, and clears both flags.  On a response without a
    games list it changes nothing further: the refreshing flag it raised
    stays raised and the loading flag is not cleared. *)
Theorem fetchGames_forced :
  forall (reply : Store.GamesReply) (st : Store.GamesState) (w : World) (id : string),
    Store.steamId st = Some id -> id <> EmptyString ->
    let out := Store.fetchGames reply true st w in
    match Store.gamesOutcome reply with
    | Store.GamesResponded _ (Store.GamesJson (Some fetched)) =>
        fst out = Ret (Store.setGames fetched false None false false st) /\
        games (snd out) !! id
          = Some (GamesCache.mk id fetched (clock w + Store.gamesElapsed reply))
    | Store.GamesResponded _ (Store.GamesJson None) =>
        fst out = Ret (Store.setGamesFlags (Store.gamesLoading st) true st) /\
        games (snd out) = games w
    | _ =>
        fst out = Ret (Store.setGames (Store.games st) (Store.gamesFromCache st)
                         (Store.gamesCacheAge st) false false st) /\
        games (snd out) = games w
    end.
Proof.
  intros reply st w id Hid Hne. cbn zeta. run_store.
  rewrite Hid. cbn. apply String.eqb_neq in Hne. rewrite Hne. cbn.
  destruct (Store.gamesOutcome reply) as [|status [|[fetched|]]]; cbn.
  - split; reflexivity.
  - split; reflexivity.
  - split; [reflexivity | apply lookup_insert_eq].
  - split; reflexivity.
Qed.

Lemma fetchGames_forced_witness :
  fst (Store.fetchGames gamesEmptyAnswer true loggedIn warmWorld)
    = Ret (Store.setGamesFlags true true loggedIn) /\
  games (snd (Store.fetchGames gamesEmptyAnswer true loggedIn warmWorld))
    = games warmWorld.
Proof.
  apply (fetchGames_forced gamesEmptyAnswer loggedIn warmWorld "u1").
  - reflexivity.
  - discriminate.
Defined.

(** X27: A forced refresh of the reviews deletes the cached reviews before it
    asks the network; when the request then fails (transport error, a
    status that is not a success, or a body that does not parse) the cache
    row is gone, while the same failure of a forced games refresh leaves
    the cached games in place. *)
Theorem fetchReviews_forced_failure_drops_cache :
  forall (reply : Store.ReviewsReply) (greply : Store.GamesReply)
         (st : Store.GamesState) (w : World) (id : string),
    Store.steamId st = Some id -> id <> EmptyString ->
    (match Store.reviewsOutcome reply with
     | Store.ReviewsResponded status (Store.ReviewsJson _ _) =>
         Store.status_ok status = false
     | _ => True
     end) ->
    Store.gamesOutcome greply = Store.GamesRejected ->
    let wr := snd (Store.fetchReviews reply true st w) in
    let wg := snd (Store.fetchGames greply true st w) in
    reviews wr !! id = None /\
    fst (getCachedReviews id wr) = Ret None /\
    Store.reviews <$> fst_ret (fst (Store.fetchReviews reply true st w))
      = Some (Store.reviews st) /\
    games wg = games w.
Proof.
  intros reply greply st w id Hid Hne Hfail Hg. cbn zeta.
  assert (Hr : reviews (snd (Store.fetchReviews reply true st w)) !! id = None /\
               Store.reviews <$> fst_ret (fst (Store.fetchReviews reply true st w))
               = Some (Store.reviews st)).
  { run_store. rewrite Hid. cbn. apply String.eqb_neq in Hne. rewrite Hne. cbn.
    destruct (Store.reviewsOutcome reply) as [|status [|rs total]]; cbn.
    - split; [apply lookup_delete_eq | reflexivity].
    - destruct (Store.status_ok status); cbn;
        (split; [apply lookup_delete_eq | reflexivity]).
    - rewrite Hfail. cbn. split; [apply lookup_delete_eq | reflexivity]. }
  destruct Hr as [Hgone Hshown]. split; [exact Hgone|]. split; [|split].
  - run. rewrite Hgone. reflexivity.
  - exact Hshown.
  - run_store. rewrite Hid. cbn. apply String.eqb_neq in Hne. rewrite Hne. cbn.
    rewrite Hg. reflexivity.
Qed.

(** * Properties of the sort and of the boxes of the collage *)

Lemma insertSorted_perm {A} (compareFn : A -> A -> Q) (a : A) (l : list A) :
  Permutation (insertSorted compareFn a l) (a :: l).
Proof.
  induction l as [|b l IH]; cbn; [reflexivity|].
  destruct (Qle_bool (compareFn a b) 0); [reflexivity|].
  rewrite IH. apply perm_swap.
Qed.

Lemma sort_perm {A} (compareFn : A -> A -> Q) (l : list A) :
  Permutation (sort compareFn l) l.
Proof.
  induction l as [|a l IH]; cbn; [reflexivity|].
  fold (sort compareFn l). rewrite insertSorted_perm. now constructor.
Qed.

Lemma insertSorted_sorted {A} (compareFn : A -> A -> Q) (a : A) (l : list A) :
  (forall x y, (compareFn x y <= 0)%Q \/ (compareFn y x <= 0)%Q) ->
  Sorted (fun x y => (compareFn x y <= 0)%Q) l ->
  Sorted (fun x y => (compareFn x y <= 0)%Q) (insertSorted compareFn a l).
Proof.
  intros Htotal Hs. induction l as [|b l IH]; cbn.
  - repeat constructor.
  - destruct (Qle_bool (compareFn a b) 0) eqn:Hab.
    + constructor; [exact Hs|]. constructor. now apply Qle_bool_iff.
    + assert (Hba : (compareFn b a <= 0)%Q).
      { destruct (Htotal a b) as [H|H]; [|exact H].
        apply Qle_bool_iff in H. congruence. }
      inversion Hs as [|? ? Hs' Hhd]; subst. constructor; [now apply IH|].
      destruct l as [|c l]; cbn.
      * now constructor.
      * destruct (Qle_bool (compareFn a c) 0); constructor; [exact Hba|].
        now inversion Hhd.
Qed.

Lemma sort_sorted {A} (compareFn : A -> A -> Q) (l : list A) :
  (forall x y, (compareFn x y <= 0)%Q \/ (compareFn y x <= 0)%Q) ->
  Sorted (fun x y => (compareFn x y <= 0)%Q) (sort compareFn l).
Proof.
  intros Htotal. induction l as [|a l IH]; cbn; [constructor|].
  now apply insertSorted_sorted.
Qed.

Lemma firstn_In {A} (n : nat) (l : list A) (x : A) : In x (firstn n l) -> In x l.
Proof.
  revert n. induction l as [|a l IH]; intros [|n] H; cbn in H; try contradiction.
  destruct H as [->|H]; [now left | right; eauto].
Qed.

Lemma StronglySorted_firstn {A} (R : A -> A -> Prop) (n : nat) (l : list A) :
  StronglySorted R l -> StronglySorted R (firstn n l).
Proof.
  intros Hs. revert n. induction Hs as [|a l Hs IH Hall]; intros [|n]; cbn;
    try constructor.
  - apply IH.
  - rewrite Forall_forall in Hall |- *. intros x Hx. apply Hall.
    apply list_elem_of_In in Hx. apply list_elem_of_In. eapply firstn_In; eauto.
Qed.

Lemma StronglySorted_map {A B} (f : A -> B) (R : B -> B -> Prop) (l : list A) :
  StronglySorted (fun a b => R (f a) (f b)) l -> StronglySorted R (map f l).
Proof.
  intros Hs. induction Hs as [|a l Hs IH Hall]; cbn; constructor; [exact IH|].
  apply Forall_forall. intros b Hb.
  apply list_elem_of_In, in_map_iff in Hb as (g & <- & Hg).
  apply (proj1 (Forall_forall _ _) Hall). now apply list_elem_of_In.
Qed.

Lemma slice_to_firstn {A} (n : Z) (l : list A) :
  exists k : nat, slice_to n l = firstn k l /\ (0 <= n -> k = Z.to_nat n).
Proof.
  unfold slice_to. destruct (Z.leb_spec 0 n).
  - exists (Z.to_nat n). auto.
  - exists (length l - Z.to_nat (- n))%nat. split; [reflexivity | lia].
Qed.

Lemma Math_round_mono (q1 q2 : Q) :
  (q1 <= q2)%Q -> CollageInput.Math_round q1 <= CollageInput.Math_round q2.
Proof.
  intros H. unfold CollageInput.Math_round. apply Qfloor_resp_le. lra.
Qed.

Lemma ratio_bounds (p m : Z) :
  0 < p <= m -> (0 < inject_Z p / inject_Z m <= 1)%Q.
Proof.
  intros [Hp Hm].
  assert (Hm0 : (0 < inject_Z m)%Q) by (change 0%Q with (inject_Z 0); rewrite <- Zlt_Qlt; lia).
  assert (Hp0 : (0 < inject_Z p)%Q) by (change 0%Q with (inject_Z 0); rewrite <- Zlt_Qlt; lia).
  assert (Hpm : (inject_Z p <= inject_Z m)%Q) by (rewrite <- Zle_Qle; lia).
  split.
  - apply Qlt_shift_div_l; [exact Hm0 | lra].
  - apply Qle_shift_div_r; [exact Hm0 | lra].
Qed.

Lemma byPlaytimeDesc_le (a b : SteamGame) :
  (CollageInput.byPlaytimeDesc a b <= 0)%Q <-> playtime_forever b <= playtime_forever a.
Proof.
  unfold CollageInput.byPlaytimeDesc. change 0%Q with (inject_Z 0).
  rewrite <- Zle_Qle. lia.
Qed.

(** The games [generateCollage] draws: games of the library with playtime,
    most played first, at most [maxGames] of them. *)
Lemma playedGames_spec (games : list SteamGame) (maxGames : Z) :
  let played := CollageInput.playedGames games maxGames in
  (forall g, In g played -> In g games /\ 0 < playtime_forever g) /\
  StronglySorted (fun a b => playtime_forever b <= playtime_forever a) played /\
  (0 <= maxGames -> (length played <= Z.to_nat maxGames)%nat) /\
  (0 < maxGames ->
   forall first rest, played = first :: rest ->
   forall g, In g games -> playtime_forever g <= playtime_forever first).
Proof.
  cbn zeta. unfold CollageInput.playedGames.
  set (filtered := List.filter (fun g => 0 <? playtime_forever g) games).
  set (sorted := sort CollageInput.byPlaytimeDesc filtered).
  assert (Hperm : Permutation sorted filtered) by apply sort_perm.
  assert (Hsorted : StronglySorted
                      (fun a b => playtime_forever b <= playtime_forever a) sorted).
  { apply Sorted_StronglySorted; [intros a b c Hab Hbc; lia|].
    assert (Hs : Sorted (fun x y => (CollageInput.byPlaytimeDesc x y <= 0)%Q) sorted).
    { apply sort_sorted. intros x y. rewrite !byPlaytimeDesc_le. lia. }
    clear -Hs. induction Hs as [|a l Hs IH Hhd]; constructor; [exact IH|].
    destruct Hhd; constructor. now apply byPlaytimeDesc_le. }
  destruct (slice_to_firstn maxGames sorted) as (k & -> & Hk).
  split; [|split; [|split]].
  - intros g Hg. apply firstn_In in Hg.
    apply (Permutation_in _ Hperm) in Hg. subst filtered.
    apply filter_In in Hg as [Hin Hp]. split; [exact Hin | now apply Z.ltb_lt].
  - now apply StronglySorted_firstn.
  - intros Hmax. rewrite (Hk Hmax). apply firstn_le_length.
  - intros Hmax first rest Hplayed g Hg.
    destruct (Z.ltb_spec 0 (playtime_forever g)) as [Hpos|Hzero].
    + assert (Hgs : In g sorted).
      { apply (Permutation_in _ (Permutation_sym Hperm)). subst filtered.
        apply filter_In. split; [exact Hg | now apply Z.ltb_lt]. }
      destruct sorted as [|s0 sorted']; [destruct Hgs|].
      rewrite (Hk ltac:(lia)) in Hplayed.
      destruct (Z.to_nat maxGames) as [|n] eqn:Hn; [lia|].
      cbn in Hplayed. injection Hplayed as <- _.
      destruct Hgs as [<-|Hgs]; [lia|].
      apply StronglySorted_inv in Hsorted as [_ Hall].
      rewrite Forall_forall in Hall. apply Hall. now apply list_elem_of_In.
    + assert (Hf : In first (firstn k sorted)) by (rewrite Hplayed; now left).
      apply firstn_In in Hf. apply (Permutation_in _ Hperm) in Hf. subst filtered.
      apply filter_In in Hf as [_ Hp]. apply Z.ltb_lt in Hp. lia.
Qed.

(** X21: The boxes of the collage: for a square root that maps (0, 1] into
    [0, 1], every box belongs to a game of the library with playtime, is
    between 50 and 250 high and between 107 and 535 wide, the boxes come
    most played first and, for a non-negative [maxGames], there are at
    most [maxGames] of them. *)
Theorem makeBoxes_sizes :
  forall (sqrt : Q -> Q) (games : list SteamGame) (maxGames : Z),
    (forall q, (0 < q <= 1)%Q -> (0 <= sqrt q <= 1)%Q) ->
    let boxes := CollageInput.makeBoxes sqrt (CollageInput.playedGames games maxGames) in
    (forall box, In box boxes ->
       In (Collage.game box) games /\ 0 < playtime_forever (Collage.game box) /\
       (50 <= Collage.bh box <= 250)%Q /\ (107 <= Collage.bw box <= 535)%Q) /\
    StronglySorted (fun a b => playtime_forever (Collage.game b)
                               <= playtime_forever (Collage.game a)) boxes /\
    (0 <= maxGames -> (length boxes <= Z.to_nat maxGames)%nat).
Proof.
  intros sqrt games maxGames Hsqrt. cbn zeta.
  destruct (playedGames_spec games maxGames) as (Hin & Hsorted & Hlen & _).
  cbn zeta in Hin, Hsorted, Hlen.
  destruct (CollageInput.playedGames games maxGames) as [|first rest] eqn:Hplayed.
  { cbn. split; [intros box []|]. split; [constructor | exact Hlen]. }
  unfold CollageInput.makeBoxes.
  split; [|split].
  - intros box Hbox. apply in_map_iff in Hbox as (g & <- & Hg).
    cbn [Collage.game Collage.bw Collage.bh].
    destruct (Hin g Hg) as [Hgames Hpos]. split; [exact Hgames|]. split; [exact Hpos|].
    assert (Hle : playtime_forever g <= playtime_forever first).
    { destruct Hg as [<-|Hg]; [lia|].
      apply StronglySorted_inv in Hsorted as [_ Hall].
      rewrite Forall_forall in Hall. apply Hall. now apply list_elem_of_In. }
    pose proof (Hsqrt _ (ratio_bounds (playtime_forever g) (playtime_forever first)
                           (conj Hpos Hle))) as Hr.
    set (ratio := sqrt _) in *.
    set (h := CollageInput.Math_round (CollageInput.minHeight + _)).
    assert (Hh : 50 <= h <= 250).
    { subst h. split.
      - change 50 with (CollageInput.Math_round 50). apply Math_round_mono.
        unfold CollageInput.minHeight, CollageInput.maxHeight. lra.
      - change 250 with (CollageInput.Math_round 250). apply Math_round_mono.
        unfold CollageInput.minHeight, CollageInput.maxHeight. lra. }
    assert (HhQ : (50 <= inject_Z h <= 250)%Q).
    { split; [change 50%Q with (inject_Z 50) | change 250%Q with (inject_Z 250)];
        rewrite <- Zle_Qle; lia. }
    split; [exact HhQ|].
    assert (Hw : 107 <= CollageInput.Math_round (inject_Z h * CollageInput.HEADER_ASPECT_RATIO)
                 <= 535).
    { split.
      - change 107 with (CollageInput.Math_round (50 * CollageInput.HEADER_ASPECT_RATIO)).
        apply Math_round_mono. apply Qmult_le_compat_r; [lra | discriminate].
      - change 535 with (CollageInput.Math_round (250 * CollageInput.HEADER_ASPECT_RATIO)).
        apply Math_round_mono. apply Qmult_le_compat_r; [lra | discriminate]. }
    split; [change 107%Q with (inject_Z 107) | change 535%Q with (inject_Z 535)];
      rewrite <- Zle_Qle; lia.
  - apply StronglySorted_map. exact Hsorted.
  - intros Hmax. rewrite length_map. now apply Hlen.
Qed.

Lemma makeBoxes_sizes_witness :
  let boxes := CollageInput.makeBoxes Collage.sqrt_
                 (CollageInput.playedGames CollageInput.library 2) in
  (forall box, In box boxes ->
     In (Collage.game box) CollageInput.library /\
     0 < playtime_forever (Collage.game box) /\
     (50 <= Collage.bh box <= 250)%Q /\ (107 <= Collage.bw box <= 535)%Q) /\
  StronglySorted (fun a b => playtime_forever (Collage.game b)
                             <= playtime_forever (Collage.game a)) boxes /\
  (0 <= 2 -> (length boxes <= Z.to_nat 2)%nat).
Proof.
  apply (makeBoxes_sizes Collage.sqrt_ CollageInput.library 2).
  intros q Hq. unfold Collage.sqrt_. lra.
Defined.

(** X22: The most played game leads: when [maxGames] is positive and the square
    root of 1 is 1, the first box belongs to a game whose playtime no game
    of the library exceeds, and it has the full size, 535 by 250. *)
Theorem makeBoxes_first :
  forall (sqrt : Q -> Q) (games : list SteamGame) (maxGames : Z)
         (box : Collage.Box) (others : list Collage.Box),
    (forall q, (q == 1)%Q -> (sqrt q == 1)%Q) ->
    0 < maxGames ->
    CollageInput.makeBoxes sqrt (CollageInput.playedGames games maxGames)
      = box :: others ->
    (forall g, In g games -> playtime_forever g <= playtime_forever (Collage.game box)) /\
    Collage.bw box = 535%Q /\ Collage.bh box = 250%Q.
Proof.
  intros sqrt games maxGames box others Hsqrt Hmax Hboxes.
  destruct (playedGames_spec games maxGames) as (Hin & _ & _ & Hfirst).
  cbn zeta in Hin, Hfirst.
  destruct (CollageInput.playedGames games maxGames) as [|first rest] eqn:Hplayed;
    [discriminate|].
  cbn [CollageInput.makeBoxes map] in Hboxes. injection Hboxes as <- _.
  cbn [Collage.game Collage.bw Collage.bh].
  split; [exact (Hfirst Hmax first rest eq_refl)|].
  destruct (Hin first ltac:(now left)) as [_ Hpos].
  assert (Hone : (inject_Z (playtime_forever first) / inject_Z (playtime_forever first)
                  == 1)%Q).
  { assert (Hp0 : (0 < inject_Z (playtime_forever first))%Q)
      by (change 0%Q with (inject_Z 0); rewrite <- Zlt_Qlt; lia).
    field. lra. }
  pose proof (Hsqrt _ Hone) as Hr.
  set (ratio := sqrt _) in *.
  assert (Hh : CollageInput.Math_round
                 (CollageInput.minHeight
                  + ratio * (CollageInput.maxHeight - CollageInput.minHeight)) = 250).
  { unfold CollageInput.Math_round.
    assert (Heq : (CollageInput.minHeight
                   + ratio * (CollageInput.maxHeight - CollageInput.minHeight) + (1 # 2)
                   == 250 + (1 # 2))%Q)
      by (unfold CollageInput.minHeight, CollageInput.maxHeight; rewrite Hr; lra).
    rewrite Heq. reflexivity. }
  rewrite Hh. split; reflexivity.
Qed.

Lemma makeBoxes_first_witness :
  (forall g, In g CollageInput.library ->
             playtime_forever g
             <= playtime_forever (Collage.game (hd (Collage.mkBox halfLife 0 0) libraryBoxes))) /\
  Collage.bw (hd (Collage.mkBox halfLife 0 0) libraryBoxes) = 535%Q /\
  Collage.bh (hd (Collage.mkBox halfLife 0 0) libraryBoxes) = 250%Q.
Proof.
  apply (makeBoxes_first Collage.sqrt_ CollageInput.library 2
           (hd (Collage.mkBox halfLife 0 0) libraryBoxes) (tl libraryBoxes)).
  - intros q Hq. exact Hq.
  - lia.
  - vm_compute. reflexivity.
Defined.

(** * Properties of the statistics of ValueAnalysis *)

Lemma StronglySorted_app_elim {A} (R : A -> A -> Prop) (l1 l2 : list A) :
  StronglySorted R (l1 ++ l2) ->
  forall x y, In x l1 -> In y l2 -> R x y.
Proof.
  induction l1 as [|a l1 IH]; intros Hs x y Hx Hy; [destruct Hx|].
  cbn in Hs. apply StronglySorted_inv in Hs as [Hs Hall].
  destruct Hx as [<-|Hx]; [|now apply IH].
  apply (proj1 (Forall_forall _ _) Hall). apply list_elem_of_In.
  apply in_or_app. now right.
Qed.

Lemma orElse_positive (p : Q) (d : Q) :
  (0 < p)%Q -> ValueAnalysis.orElse (Some p) d = p.
Proof.
  intros Hp. unfold ValueAnalysis.orElse.
  destruct (Qeq_bool p 0) eqn:Heq; [|reflexivity].
  apply Qeq_bool_iff in Heq. lra.
Qed.

Lemma ValueAnalysis_Qlt_bool_iff (a b : Q) :
  ValueAnalysis.Qlt_bool a b = true <-> (a < b)%Q.
Proof.
  unfold ValueAnalysis.Qlt_bool. rewrite negb_true_iff.
  split.
  - intros H. apply Qnot_le_lt. intros Hle. apply Qle_bool_iff in Hle. congruence.
  - intros H. destruct (Qle_bool b a) eqn:Hle; [|reflexivity].
    apply Qle_bool_iff in Hle. lra.
Qed.

(** X23: The regrets shown by ValueAnalysis: at most ten entries of the input,
    each with a price above 10 and less than an hour played, the most
    expensive first; an entry that qualifies and is left out costs no more
    than any entry shown; and no entry of the best-value or worst-value
    lists has less than an hour played, so none of them is a regret. *)
Theorem stats_regrets :
  forall (gamesWithPrices : list ValueAnalysis.GameWithPrice),
    let s := ValueAnalysis.stats gamesWithPrices in
    let cost g := ValueAnalysis.orElse (ValueAnalysis.price g) 0 in
    let qualifies g :=
      exists p, ValueAnalysis.price g = Some p /\ (10 < p)%Q /\
                playtime_forever (ValueAnalysis.game g) < 60 in
    (length (ValueAnalysis.regrets s) <= 10)%nat /\
    (forall r, In r (ValueAnalysis.regrets s) -> In r gamesWithPrices /\ qualifies r) /\
    StronglySorted (fun a b => (cost b <= cost a)%Q) (ValueAnalysis.regrets s) /\
    (forall g r, In g gamesWithPrices -> qualifies g ->
                 ~ In g (ValueAnalysis.regrets s) ->
                 In r (ValueAnalysis.regrets s) -> (cost g <= cost r)%Q) /\
    (forall g, In g (ValueAnalysis.bestValue s) \/ In g (ValueAnalysis.worstValue s) ->
               60 <= playtime_forever (ValueAnalysis.game g)).
Proof.
  intros l. cbn zeta. unfold ValueAnalysis.stats.
  cbn [ValueAnalysis.regrets ValueAnalysis.bestValue ValueAnalysis.worstValue].
  set (withPrices := List.filter ValueAnalysis.hasPrice l).
  set (cmp := fun a b : ValueAnalysis.GameWithPrice =>
                (ValueAnalysis.orElse (ValueAnalysis.price b) 0
                 - ValueAnalysis.orElse (ValueAnalysis.price a) 0)%Q).
  set (cand := List.filter
                 (fun g => ValueAnalysis.Qlt_bool 10
                             (ValueAnalysis.orElse (ValueAnalysis.price g) 0)
                           && (playtime_forever (ValueAnalysis.game g) <? 60))
                 withPrices).
  assert (Hcand : forall g,
             In g cand <->
             In g l /\ exists p, ValueAnalysis.price g = Some p /\ (10 < p)%Q /\
                                 playtime_forever (ValueAnalysis.game g) < 60).
  { intros g. subst cand withPrices. rewrite !filter_In. unfold ValueAnalysis.hasPrice.
    rewrite andb_true_iff, ValueAnalysis_Qlt_bool_iff, Z.ltb_lt. split.
    - intros [[Hin Hp] [H10 Ht]]. split; [exact Hin|].
      destruct (ValueAnalysis.price g) as [p|]; [|discriminate].
      apply ValueAnalysis_Qlt_bool_iff in Hp. rewrite orElse_positive in H10 by exact Hp.
      eauto.
    - intros [Hin (p & Hp & H10 & Ht)]. rewrite Hp.
      assert (0 < p)%Q by lra. rewrite orElse_positive by assumption.
      repeat split; auto. now apply ValueAnalysis_Qlt_bool_iff. }
  assert (Hperm : Permutation (sort cmp cand) cand) by apply sort_perm.
  assert (Hsorted : StronglySorted
                      (fun a b => (ValueAnalysis.orElse (ValueAnalysis.price b) 0
                                   <= ValueAnalysis.orElse (ValueAnalysis.price a) 0)%Q)
                      (sort cmp cand)).
  { apply Sorted_StronglySorted; [intros a b c Hab Hbc; lra|].
    assert (Hs : Sorted (fun x y => (cmp x y <= 0)%Q) (sort cmp cand)).
    { apply sort_sorted. intros x y. subst cmp. cbn.
      destruct (Qlt_le_dec (ValueAnalysis.orElse (ValueAnalysis.price x) 0)
                           (ValueAnalysis.orElse (ValueAnalysis.price y) 0));
        [right | left]; lra. }
    clear -Hs. induction Hs as [|a l' Hs IH Hhd]; constructor; [exact IH|].
    destruct Hhd as [|b l'' Hab]; constructor. subst cmp. cbn in Hab. lra. }
  change (slice_to 10 (sort cmp cand)) with (firstn 10 (sort cmp cand)).
  split; [apply firstn_le_length|]. split; [|split; [|split]].
  - intros r Hr. apply firstn_In in Hr. apply (Permutation_in _ Hperm) in Hr.
    now apply Hcand.
  - now apply StronglySorted_firstn.
  - intros g r Hg Hq Hnot Hr.
    assert (Hgs : In g (sort cmp cand)).
    { apply (Permutation_in _ (Permutation_sym Hperm)). apply Hcand. auto. }
    rewrite <- (firstn_skipn 10 (sort cmp cand)) in Hgs, Hsorted.
    apply in_app_or in Hgs as [Hgs|Hgs]; [contradiction|].
    exact (StronglySorted_app_elim _ _ _ Hsorted r g Hr Hgs).
  - intros g [Hg|Hg]; unfold slice_to in Hg; cbn [Z.leb Z.to_nat] in Hg;
      change (Z.to_nat 10) with 10%nat in Hg;
      apply firstn_In in Hg;
      apply (Permutation_in _ (sort_perm _ _)) in Hg;
      apply filter_In in Hg as [_ Hg];
      repeat (apply andb_true_iff in Hg as [Hg ?]);
      match goal with H : (60 <=? _) = true |- _ => apply Z.leb_le in H; exact H end.
Qed.

(** * Properties of the price loop of ValueAnalysis *)

(** X28: A whole run of [fetchPrices] that is not cancelled, for a record
    of the store that does not expire before the end of the run and whose
    appid is among the top games: the run resolves and every top game gets
    its entry, in order.  If the record passes the gate, no request is
    made for its appid, the record is still in the store at the end, and
    every entry of that appid carries the price and the currency of the
    record.  If it does not pass, a request for its appid is made.  The
    run is taken on its own: nothing else writes the store meanwhile. *)
Theorem fetchPrices_run :
  forall (w : World) (id : Z) (rec : GameDetails.t) (api : Prices.Api)
         (lag : nat -> Z) (cancelled : nat -> bool) (games : list SteamGame)
         (v : Prices.View.t) (reqs : list Z),
    gameDetails w !! id = Some rec ->
    In id (map appid (Prices.topGames games)) ->
    (forall n, cancelled n = false) ->
    forward api lag ->
    let out := Prices.fetchPrices api lag cancelled games v (Prices.mkClient w reqs) in
    clock (Prices.world (snd out)) - GameDetails.timestamp rec
      <= GAME_DETAILS_CACHE_DURATION ->
    exists new,
      fst (fst out) = Ret tt /\
      map ValueAnalysis.game (Prices.View.gamesWithPrices (snd (fst out)))
        = Prices.topGames games /\
      Prices.View.loading (snd (fst out)) = false /\
      Prices.appRequests (snd out) = reqs ++ new /\
      (usesCachedPrice (Some rec) = true ->
       ~ In id new /\
       gameDetails (Prices.world (snd out)) !! id = Some rec /\
       forall e, In e (Prices.View.gamesWithPrices (snd (fst out))) ->
                 appid (ValueAnalysis.game e) = id ->
                 ValueAnalysis.price e = GameDetails.price rec /\
                 Some (ValueAnalysis.currency e) = GameDetails.currency rec) /\
      (usesCachedPrice (Some rec) = false -> In id new).
Proof.
  intros w id rec api lag cancelled games v reqs Hrec Hin Hc Hfw.
  unfold Prices.fetchPrices.
  destruct (Z.eqb_spec (Z.of_nat (length (Prices.topGames games))) 0) as [Hnil|_].
  { destruct (Prices.topGames games); [destruct Hin | cbn in Hnil; lia]. }
  set (c := Prices.mkClient w reqs).
  destruct (priceLoop_frame api lag cancelled Hc (Prices.topGames games) [] 0%nat "USD" c)
    as (added & det & new & Hres & Hgames & Hreq & _).
  pose proof (priceLoop_hit api lag cancelled id rec Hc Hfw) as Hhit.
  pose proof (priceLoop_miss api lag cancelled id rec Hc Hfw) as Hmiss.
  specialize (fun Hgate => Hhit Hgate (Prices.topGames games) [] 0%nat "USD"%string c Hrec).
  specialize (fun Hgate => Hmiss Hgate (Prices.topGames games) [] 0%nat "USD"%string c
                             Hin Hrec).
  cbn zeta in Hhit, Hmiss.
  destruct (Prices.priceLoop api lag cancelled (Prices.topGames games) [] 0 "USD" c)
    as [[[[results detectedCurrency]|]|e] c1]; cbn in Hres; try discriminate.
  injection Hres as -> ->. rewrite Hc. cbn in *. intros Hfresh.
  exists new. split; [reflexivity|]. split; [exact Hgames|]. split; [reflexivity|].
  split; [exact Hreq|].
  split; intros Hgate.
  - destruct (Hhit Hgate Hfresh)
      as (added' & det' & new' & [= <- <-] & Hreq' & Hnew' & Hstore & Hentries).
    rewrite Hreq in Hreq'. apply app_inv_head in Hreq' as <-.
    split; [exact Hnew'|]. split; [exact Hstore | exact Hentries].
  - destruct (Hmiss Hgate Hfresh) as (new' & Hreq' & Hnew').
    rewrite Hreq in Hreq'. now apply app_inv_head in Hreq' as <-.
Qed.

Lemma fetchPrices_run_witness :
  exists new,
    Prices.appRequests
      (snd (Prices.fetchPrices steamApi steadyLag neverCancelled shelf initialView
              (Prices.mkClient shelfWorld []))) = [] ++ new /\
    ~ In 220 new.
Proof.
  destruct (fetchPrices_run shelfWorld 220 pricedRecord steamApi steadyLag
              neverCancelled shelf initialView [])
    as (new & _ & _ & _ & Hreq & Hhit & _).
  - reflexivity.
  - vm_compute. left. reflexivity.
  - intros n. reflexivity.
  - split; [intros n id; cbn; lia | intros n; unfold steadyLag; lia].
  - vm_compute. discriminate.
  - exists new. split; [exact Hreq | apply Hhit; reflexivity].
Defined.

(** The run on the shelf: the price of Half-Life 2 comes from its record,
    the price of the legacy record is asked for, and the record written in
    its place has no currency either. *)
Example fetchPrices_shelf :
  let out := Prices.fetchPrices steamApi steadyLag neverCancelled shelf initialView
               (Prices.mkClient shelfWorld []) in
  Prices.appRequests (snd out) = [42] /\
  map (fun e => appid (ValueAnalysis.game e))
      (Prices.View.gamesWithPrices (snd (fst out))) = [220; 42] /\
  map ValueAnalysis.currency (Prices.View.gamesWithPrices (snd (fst out)))
    = ["EUR"; "USD"]%string /\
  Prices.View.loading (snd (fst out)) = false /\
  gameDetails (Prices.world (snd out)) !! 220 = Some pricedRecord /\
  (exists rec, gameDetails (Prices.world (snd out)) !! 42 = Some rec /\
               GameDetails.timestamp rec = 5154 /\
               usesCachedPrice (Some rec) = false).
Proof.
  cbn zeta. split; [reflexivity|]. split; [reflexivity|].
  split; [reflexivity|]. split; [reflexivity|]. split; [reflexivity|].
  eexists. split; [vm_compute; reflexivity|]. repeat split.
Qed.

(** * Properties of the GET handler of the per-app route *)

Ltac fallback_case :=
  cbn; split; [split; [try discriminate; try reflexivity; congruence
                      | try reflexivity; congruence]|];
  split; [try reflexivity; congruence|];
  split; [intros ? [=] | lia].

(** X15: What the route answers: status 400 exactly for an empty appid, and 200
    in every other case, upstream failures included (they are folded into
    the fallback payload).  A result payload is sent only when the last
    response received from Steam is a success whose body parses to a
    successful entry for that appid, and it is built from the data of that
    entry; and one GET sends at most three requests to Steam. *)
Theorem GET_answers :
  forall (AppData : Type) (JSON_parse : string -> AppRoute.Parsed AppData)
         (upstream : nat -> Route.Reply) (appid : string) (s : Route.Server),
    let out := AppRoute.GET AppData JSON_parse upstream appid s in
    (AppRoute.http AppData (fst out) = 400 <-> appid = EmptyString) /\
    (appid <> EmptyString -> AppRoute.http AppData (fst out) = 200) /\
    (forall gameData,
        AppRoute.payload AppData (fst out) = AppRoute.Result AppData gameData ->
        exists response property entry,
          fst (Route.fetchWithRateLimit upstream s) = Route.Returned response /\
          Route.ok response = true /\
          JSON_parse (Route.text response) = AppRoute.Value AppData property /\
          property appid = Some entry /\
          AppRoute.success AppData entry = true /\
          AppRoute.data AppData entry = Some gameData) /\
    (Route.fetched (snd out) <= 3 + Route.fetched s)%nat.
Proof.
  intros AppData JSON_parse upstream appid s. cbn zeta. unfold AppRoute.GET.
  assert (Hcount : (Route.fetched (snd (Route.fetchWithRateLimit upstream s))
                    <= 3 + Route.fetched s)%nat).
  { unfold Route.fetchWithRateLimit.
    set (s1 := if _ <? _ then _ else _). set (s2 := Route.mkServer _ _ _ _).
    assert (Hc : Route.counted Route.attempts) by (vm_compute; auto).
    destruct (retry_loop_spec upstream Route.attempts 2000 s2 Hc)
      as (_ & n & Hn & Hf & _).
    assert (Hf2 : Route.fetched s2 = Route.fetched s) by apply rateLimit_fetched.
    change (length Route.attempts) with 3%nat in Hn. lia. }
  destruct (String.eqb_spec appid EmptyString) as [->|Hne]; [fallback_case|].
  destruct (Route.fetchWithRateLimit upstream s) as [[response|e] s'] eqn:Hfetch;
    cbn [fst snd] in *; [|fallback_case].
  destruct (Route.ok response) eqn:Hok; cbn [negb]; [|fallback_case].
  destruct (JSON_parse (Route.text response)) as [| |property] eqn:Hparse;
    [fallback_case | fallback_case |].
  destruct (property appid) as [entry|] eqn:Hentry; [|fallback_case].
  destruct (AppRoute.success AppData entry) eqn:Hsucc; cbn [negb]; [|fallback_case].
  destruct (AppRoute.data AppData entry) as [gameData|] eqn:Hdata; [|fallback_case].
  cbn. split; [split; [discriminate | congruence]|]. split; [reflexivity|].
  split; [|lia].
  intros g [= <-]. exists response, property, entry. repeat split; auto.
Qed.

Lemma GET_answers_witness :
  AppRoute.http string
    (fst (AppRoute.GET string AppRoute.parseExample (Route.replying [429; 200])
            "570" Route.idle)) = 200.
Proof.
  apply (GET_answers string AppRoute.parseExample (Route.replying [429; 200])
           "570" Route.idle).
  discriminate.
Defined.

Example GET_after_one_retry :
  fst (AppRoute.GET string AppRoute.parseExample (Route.replying [429; 200])
         "570" Route.idle)
  = AppRoute.mkAnswer string 200 (AppRoute.Result string EmptyString).
Proof. reflexivity. Qed.

Example GET_upstream_exhausted :
  fst (AppRoute.GET string AppRoute.parseExample (Route.replying [429; 429; 429])
         "570" Route.idle)
  = AppRoute.mkAnswer string 200
      (AppRoute.Fallback string "570"
         (AppRoute.UpstreamStatus (Route.mkSteamResponse 429 EmptyString))).
Proof. reflexivity. Qed.

(** * Instances of the properties above *)

Lemma setCachedGames_then_get_witness :
  fst (getCachedGames "u1"
         (advance 60000 (snd (setCachedGames "u1" [halfLife] expiredWorld))))
  = Ret (Some [halfLife]).
Proof.
  exact (proj1 (setCachedGames_then_get expiredWorld "u1" [halfLife] 60000)).
Defined.

Lemma clear_then_get_witness :
  fst (getCachedReviews "u1" (snd (clearReviewsCache "u1" warmWorld))) = Ret None.
Proof.
  exact (proj1 (clear_then_get warmWorld "u1" "Portal:10")).
Defined.

Lemma fetchReviews_forced_failure_drops_cache_witness :
  reviews (snd (Store.fetchReviews reviewsDown true loggedIn warmWorld))
    !! "u1"%string = None /\
  is_Some (reviews warmWorld !! "u1"%string).
Proof.
  split.
  - apply (fetchReviews_forced_failure_drops_cache reviewsDown gamesDown loggedIn
             warmWorld "u1").
    + reflexivity.
    + discriminate.
    + vm_compute. exact I.
    + reflexivity.
  - vm_compute. eauto.
Defined.

Lemma spiralPlacement_centred_or_within_witness :
  let placed := Collage.spiralPlacement Collage.PI_ Collage.cos_ Collage.sin_
                  Collage.sqrt_ Collage.threeBoxes 4000 4000 in
  let b := nth 1 placed (Collage.GameBox.mk halfLife 0 0 0 0) in
  b = CollageMore.centred 4000 4000 (CollageMore.boxOf b) \/ Collage.within 4000 4000 b.
Proof.
  apply (spiralPlacement_centred_or_within Collage.PI_ Collage.cos_ Collage.sin_
           Collage.sqrt_ Collage.threeBoxes 4000 4000).
  vm_compute. right. left. reflexivity.
Defined.

Lemma stats_regrets_witness :
  (length (ValueAnalysis.regrets (ValueAnalysis.stats ValueAnalysis.pricedLibrary))
   <= 10)%nat.
Proof.
  exact (proj1 (stats_regrets ValueAnalysis.pricedLibrary)).
Defined.

(** The example library: one regret (60 paid, half an hour played), the
    unplayed game at 15 second; the free game and the game without price
    are not analysed. *)
Example stats_of_pricedLibrary :
  let s := ValueAnalysis.stats ValueAnalysis.pricedLibrary in
  map (fun g => appid (ValueAnalysis.game g)) (ValueAnalysis.regrets s) = [2; 4] /\
  map (fun g => appid (ValueAnalysis.game g)) (ValueAnalysis.bestValue s) = [1] /\
  ValueAnalysis.gamesAnalyzed s = 3%nat /\
  (ValueAnalysis.totalValue s == 95)%Q.
Proof. vm_compute. repeat split. Qed.

Example playedGames_of_library :
  map appid (CollageInput.playedGames CollageInput.library 2) = [570; 620] /\
  map appid (CollageInput.playedGames CollageInput.library (-1)) = [570; 620] /\
  map (fun b => (Collage.bw b, Collage.bh b)) libraryBoxes
    = [(535, 250); (150, 70)]%Q.
Proof. vm_compute. repeat split. Qed.
